(** * Dune-CLI: the agent reasoning loop and its tools

    A shallow embedding of [dune/agent.py], [dune/tools/__init__.py],
    [dune/tools/{shell,edit,write_file,read_file}.py] and of
    [GroqLLMEndpoint] ([generate] and [_prepare_messages]) in
    [dune/groq_client.py], followed by the properties proved of them.
    Further on come the reading of the reply and the cache of the
    project id in [dune/gemini_client.py], and [read_many_files] and
    [grep] on arguments of their declared types.

    Python objects are modelled as follows.
    - JSON-like values (tool arguments, tool results) are the inductive
      type [json], with integers for numbers; a [dict] is an association
      list, looked up by key.
    - The process state (file system, [Agent._history], how often the user
      was asked, what the generator yielded) is the record [state], which
      also logs the calls of the model, the questions and the tool runs in
      the order they happen.  Python code that changes the state becomes
      a function in the monad [M], which threads the state and carries a
      raised exception.
    - The file system maps absolute paths (lists of components) to files
      and directories; there are no symbolic links and no permissions.
      The contents of a file are its bytes, held in a string; a file
      opened as text is decoded and its line ends are translated when it
      is read, and a string is written as it is.
    - Console output is not part of the state, but a print of rich's
      console can raise: it reads its text as markup.
    - Library and operating-system services the code calls ([json.loads],
      [json.dumps], [subprocess.run], decoding, rich's markup, the user
      sitting at [Prompt.ask], the working directory) are the fields of
      the class [Host]; the model endpoint is the class [Backend]; the
      five tools that only read are the fields of [ReadOnlyTools]. *)

From Stdlib Require Import ZArith Ascii String.
From stdpp Require Import base option list strings pretty gmap.

Local Open Scope string_scope.
Local Open Scope Z_scope.
Local Open Scope list_scope.
Set Warnings "-register-all".

(** ** Values *)

Inductive json : Type :=
| JNull
| JBool (b : bool)
| JNum (n : Z)
| JStr (s : string)
| JArr (l : list json)
| JObj (o : list (string * json)).

(** A Python [dict] with string keys. *)
Abbreviation dict := (list (string * json)).

Fixpoint dict_get (k : string) (d : dict) : option json :=
  match d with
  | [] => None
  | (k', v) :: d' => if String.eqb k k' then Some v else dict_get k d'
  end.

(** [bool(v)]: Python truthiness of a JSON-like value. *)
Definition truthy (v : json) : bool :=
  match v with
  | JNull => false
  | JBool b => b
  | JNum n => negb (n =? 0)
  | JStr s => negb (String.eqb s "")
  | JArr l => match l with [] => false | _ => true end
  | JObj o => match o with [] => false | _ => true end
  end.

(** A Python string that may be [None]. *)
Abbreviation pystr := (option string).

(** [f"{x}"] for a value that is a string or [None]. *)
Definition fmt (x : pystr) : string := default "None" x.

(** Exceptions: the class name and [str(e)]. *)
Record exn : Type := Exn { exn_class : string; exn_str : string }.

Definition KeyError (k : string) : exn := Exn "KeyError" ("'" +:+ k +:+ "'").
Definition TypeError (msg : string) : exn := Exn "TypeError" msg.
Definition AttributeError (msg : string) : exn := Exn "AttributeError" msg.
Definition IndexError (msg : string) : exn := Exn "IndexError" msg.
Definition MarkupError (msg : string) : exn := Exn "MarkupError" msg.

Definition error_result (msg : string) : json := JObj [("error", JStr msg)].

Definition is_error (r : json) : bool :=
  match r with
  | JObj o => bool_decide (is_Some (dict_get "error" o))
  | _ => false
  end.

(** ** Python's operations on JSON-like values *)

(** Subscripts and [get] as Python defines them for the values
    [json.loads] gives.  Numbers are integers here; a float raises where
    an integer does. *)

(** [type(v).__name__] *)
Definition type_name (v : json) : string :=
  match v with
  | JNull => "NoneType"
  | JBool _ => "bool"
  | JNum _ => "int"
  | JStr _ => "str"
  | JArr _ => "list"
  | JObj _ => "dict"
  end.

Definition not_subscriptable (v : json) : exn :=
  TypeError ("'" +:+ type_name v +:+ "' object is not subscriptable").

(** [v[k]] for a string [k] *)
Definition getitem (v : json) (k : string) : exn + json :=
  match v with
  | JObj o =>
      match dict_get k o with
      | Some x => inr x
      | None => inl (KeyError k)
      end
  | JArr _ => inl (TypeError "list indices must be integers or slices, not str")
  | JStr _ => inl (TypeError "string indices must be integers, not 'str'")
  | _ => inl (not_subscriptable v)
  end.

(** [v[0]] *)
Definition getitem0 (v : json) : exn + json :=
  match v with
  | JArr (x :: _) => inr x
  | JArr [] => inl (IndexError "list index out of range")
  | JStr (String a _) => inr (JStr (String a ""))
  | JStr EmptyString => inl (IndexError "string index out of range")
  | JObj _ => inl (Exn "KeyError" "0")
  | _ => inl (not_subscriptable v)
  end.

(** [v.get(k, d)]; [v.get(k)] is [get_method v k JNull] *)
Definition get_method (v : json) (k : string) (d : json) : exn + json :=
  match v with
  | JObj o => inr (default d (dict_get k o))
  | _ => inl (AttributeError ("'" +:+ type_name v +:+ "' object has no attribute 'get'"))
  end.

(** Sequencing of steps that may raise. *)
Definition and_then {A B : Type} (x : exn + A) (f : A → exn + B) : exn + B :=
  match x with
  | inr a => f a
  | inl e => inl e
  end.

(** [except (c1, c2, ...)]: only exceptions of the classes listed are
    caught. *)
Definition catches (classes : list string) (e : exn) : bool :=
  bool_decide (exn_class e ∈ classes).

(** ** Strings: [in] and [str.replace(old, new, 1)] *)

Fixpoint drop_string (n : nat) (s : string) : string :=
  match n, s with
  | O, _ => s
  | S n', String _ s' => drop_string n' s'
  | S _, EmptyString => EmptyString
  end.

(** [replace_first old new s] is [Some (s.replace(old, new, 1))] when
    [old in s], and [None] when [old] does not occur in [s]. *)
Fixpoint replace_first (old new s : string) : option string :=
  if String.prefix old s then Some (new +:+ drop_string (String.length old) s)
  else match s with
       | EmptyString => None
       | String a s' => String a <$> replace_first old new s'
       end.

(** [old in s] *)
Definition occurs (old s : string) : bool :=
  bool_decide (is_Some (replace_first old "" s)).

(** [data[:n]] on the contents of a file. *)
Definition slice_to (n : Z) (s : string) : string :=
  if 0 <=? n then String.substring 0 (Z.to_nat n) s
  else String.substring 0 (String.length s - Z.to_nat (- n))%nat s.

(** Reading a file opened as text: ["\r\n"] and a lone ["\r"] become
    ["\n"] (universal newlines). *)
Definition CR : ascii := ascii_of_nat 13.
Definition LF : ascii := ascii_of_nat 10.

Fixpoint universal_newlines (s : string) : string :=
  match s with
  | EmptyString => EmptyString
  | String a s' =>
      if Ascii.eqb a CR then
        String LF
          match s' with
          | String b s'' =>
              if Ascii.eqb b LF then universal_newlines s''
              else universal_newlines s'
          | EmptyString => EmptyString
          end
      else String a (universal_newlines s')
  end.

(** ** Paths and the file system *)

(** A [pathlib.Path]: whether it is anchored at the root, and its
    components.  [Path(s)] splits at the slashes and drops empty and
    ["."] components; [".."] is kept, the operating system resolves it. *)
Record pypath : Type := PyPath { anchored : bool; parts : list string }.

Fixpoint split_slash (acc : string) (s : string) : list string :=
  match s with
  | EmptyString => [acc]
  | String a s' =>
      if Ascii.eqb a "/"%char then acc :: split_slash "" s'
      else split_slash (acc +:+ String a EmptyString) s'
  end.

Definition keep_part (c : string) : bool :=
  negb (String.eqb c "") && negb (String.eqb c ".").

Definition Path (s : string) : pypath :=
  PyPath (String.prefix "/" s) (filter (λ c, keep_part c = true) (split_slash "" s)).

(** [str(path)] *)
Definition path_str (p : pypath) : string :=
  match anchored p, parts p with
  | true, ps => "/" +:+ String.concat "/" ps
  | false, [] => "."
  | false, ps => String.concat "/" ps
  end.

(** [path.parent]: lexical. *)
Definition parent (p : pypath) : pypath :=
  PyPath (anchored p) (removelast (parts p)).

(** [root / path]: an anchored right operand replaces the left one. *)
Definition joinpath (root p : pypath) : pypath :=
  if anchored p then p else PyPath (anchored root) (parts root ++ parts p).

Inductive node : Type :=
| File (contents : string)
| Dir.

(** Absolute, resolved paths are lists of names below the root. *)
Abbreviation filesystem := (gmap (list string) node).

(** The root directory always exists. *)
Definition node_at (fs : filesystem) (a : list string) : option node :=
  match a with
  | [] => Some Dir
  | _ => fs !! a
  end.

Inductive errno : Type := ENOENT | ENOTDIR | EEXIST | EISDIR | ENAMETOOLONG.

Definition OSError (e : errno) (p : pypath) : exn :=
  match e with
  | ENOENT => Exn "FileNotFoundError" ("[Errno 2] No such file or directory: '" +:+ path_str p +:+ "'")
  | ENOTDIR => Exn "NotADirectoryError" ("[Errno 20] Not a directory: '" +:+ path_str p +:+ "'")
  | EEXIST => Exn "FileExistsError" ("[Errno 17] File exists: '" +:+ path_str p +:+ "'")
  | EISDIR => Exn "IsADirectoryError" ("[Errno 21] Is a directory: '" +:+ path_str p +:+ "'")
  | ENAMETOOLONG => Exn "OSError" ("[Errno 36] File name too long: '" +:+ path_str p +:+ "'")
  end.

(** The limits of Linux: a name has at most [NAME_MAX] bytes, and the
    path handed to a system call fewer than [PATH_MAX]. *)
Definition NAME_MAX : nat := 255.
Definition PATH_MAX : nat := 4096.
Arguments NAME_MAX : simpl never.
Arguments PATH_MAX : simpl never.

(** Path resolution by the operating system: every component is looked up
    in the directory reached so far, which must exist and be a directory;
    [".."] steps to the parent, and a name longer than [NAME_MAX] is
    refused.  The last component need not exist. *)
Fixpoint walk (fs : filesystem) (cur : list string) (ps : list string)
  : errno + list string :=
  match ps with
  | [] => inr cur
  | c :: ps' =>
      match node_at fs cur with
      | None => inl ENOENT
      | Some (File _) => inl ENOTDIR
      | Some Dir =>
          if String.eqb c ".." then walk fs (removelast cur) ps'
          else if (String.length c <=? NAME_MAX)%nat then walk fs (cur ++ [c]) ps'
          else inl ENAMETOOLONG
      end
  end.

(** Resolution of a [Path] by a process whose working directory is [wd];
    the system call is handed [str(path)]. *)
Definition locate (wd : list string) (fs : filesystem) (p : pypath)
  : errno + list string :=
  if (PATH_MAX <=? String.length (path_str p))%nat then inl ENAMETOOLONG
  else walk fs (if anchored p then [] else wd) (parts p).

(** [os.stat]: the node a path names. *)
Definition stat (wd : list string) (fs : filesystem) (p : pypath) : errno + node :=
  match locate wd fs p with
  | inr a =>
      match node_at fs a with
      | Some n => inr n
      | None => inl ENOENT
      end
  | inl e => inl e
  end.

(** [_ignore_error] of [pathlib]: the errors that mean "not there"
    ([EBADF] and [ELOOP], the other two, do not arise here).  Every other
    [OSError] of [os.stat] is raised again. *)
Definition ignore_error (e : errno) : bool :=
  match e with
  | ENOENT | ENOTDIR => true
  | _ => false
  end.

(** [path.exists()], [path.is_file()] and [path.is_dir()]: a test on the
    result of [os.stat]. *)
Definition stat_test (test : node → bool) (wd : list string) (fs : filesystem)
    (p : pypath) : errno + bool :=
  match stat wd fs p with
  | inr n => inr (test n)
  | inl e => if ignore_error e then inr false else inl e
  end.

Definition path_exists : list string → filesystem → pypath → errno + bool :=
  stat_test (λ _, true).
Definition is_file : list string → filesystem → pypath → errno + bool :=
  stat_test (λ n, match n with File _ => true | Dir => false end).
Definition is_dir : list string → filesystem → pypath → errno + bool :=
  stat_test (λ n, match n with Dir => true | File _ => false end).

(** [open(path).read()] *)
Definition os_read (wd : list string) (fs : filesystem) (p : pypath) : errno + string :=
  match locate wd fs p with
  | inl e => inl e
  | inr a =>
      match node_at fs a with
      | None => inl ENOENT
      | Some Dir => inl EISDIR
      | Some (File c) => inr c
      end
  end.

(** [open(path, 'w')] followed by writing [c]: creates or truncates. *)
Definition os_write (wd : list string) (fs : filesystem) (p : pypath) (c : string) : errno + filesystem :=
  match locate wd fs p with
  | inl e => inl e
  | inr a =>
      match node_at fs a with
      | Some Dir => inl EISDIR
      | _ => inr (<[a := File c]> fs)
      end
  end.

(** [os.mkdir(path)] *)
Definition os_mkdir (wd : list string) (fs : filesystem) (p : pypath) : errno + filesystem :=
  match locate wd fs p with
  | inl e => inl e
  | inr a =>
      match node_at fs a with
      | Some _ => inl EEXIST
      | None => inr (<[a := Dir]> fs)
      end
  end.

(** [except OSError: if not exist_ok or not self.is_dir(): raise] in
    [Path.mkdir], with [exist_ok=True]; [is_dir] may raise itself. *)
Definition unless_is_dir (e : errno) (wd : list string) (fs : filesystem) (p : pypath)
  : errno + filesystem :=
  match is_dir wd fs p with
  | inr true => inr fs
  | inr false => inl e
  | inl e' => inl e'
  end.

(** [path.mkdir(parents=False, exist_ok=True)] *)
Definition mkdir_exist_ok (wd : list string) (fs : filesystem) (p : pypath) : errno + filesystem :=
  match os_mkdir wd fs p with
  | inr fs' => inr fs'
  | inl ENOENT => inl ENOENT
  | inl e => unless_is_dir e wd fs p
  end.

(** [path.mkdir(parents=True, exist_ok=True)]: on [FileNotFoundError] the
    parent is made first, then the directory itself.  The recursion follows
    the lexical parents, so [fuel] above the number of components is
    enough. *)
Fixpoint mkdir_parents (fuel : nat) (wd : list string) (fs : filesystem) (p : pypath) : errno + filesystem :=
  match os_mkdir wd fs p with
  | inr fs' => inr fs'
  | inl ENOENT =>
      match fuel, parts p with
      | S fuel', _ :: _ =>
          match mkdir_parents fuel' wd fs (parent p) with
          | inr fs1 => mkdir_exist_ok wd fs1 p
          | inl e => inl e
          end
      | _, _ => inl ENOENT
      end
  | inl e => unless_is_dir e wd fs p
  end.

Definition mkdir_p (wd : list string) (fs : filesystem) (p : pypath) : errno + filesystem :=
  mkdir_parents (S (length (parts p))) wd fs p.

(** ** Conversation state *)

(** [{"name": ..., "args": ...}]; the key ["args"] may be missing. *)
Record fcall : Type := FCall { fc_name : string; fc_args : option json }.

(** What [generate] returns: a [dict] with some of the keys
    ["function_call"], ["text"] (whose value may be [None]) and
    ["error"]. *)
Record llm_response : Type := Response {
  function_call : option fcall;
  text : option pystr;
  error : option string
}.

Record tool_call : Type := ToolCall {
  tc_id : pystr;
  tc_name : pystr;
  tc_arguments : string
}.

(** The entries of [Agent._history].  The first three are appended by
    [execute], the last three by [execute_stream]. *)
Inductive turn : Type :=
| UserParts (prompt : string)
| ModelParts (part : llm_response)
| FunctionParts (name : string) (response : json)
| UserMessage (content : string)
| AssistantMessage (content : string) (tool_calls : option (list tool_call))
| ToolMessage (tool_call_id : pystr) (name : pystr) (content : string).

(** What [execute_stream] yields: a string, or [{"name": ..., "args": ...}]. *)
Inductive item : Type :=
| YieldText (s : string)
| YieldTool (name : pystr) (args : json).

(** Observable actions, recorded in the order they happen. *)
Inductive event : Type :=
| ModelCall
| Asked (question : string)
| ToolRun (name : string) (kwargs : dict).

Record state : Type := State {
  fs : filesystem;
  history : list turn;
  asked : nat;
  log : list event;
  yielded : list item
}.

(** ** The monad of Python code: state and exceptions *)

Definition M (A : Type) : Type := state → (exn + A) * state.

#[global] Instance M_ret : MRet M := λ A a st, (inr a, st).

#[global] Instance M_bind : MBind M := λ A B f m st,
  match m st with
  | (inr a, st') => f a st'
  | (inl e, st') => (inl e, st')
  end.

Definition raise {A : Type} (e : exn) : M A := λ st, (inl e, st).

(** A step that may raise, as a computation. *)
Definition lift {A : Type} (r : exn + A) : M A :=
  match r with
  | inr a => mret a
  | inl e => raise e
  end.

(** [try: m except Exception as e: h e] *)
Definition try_except {A : Type} (m : M A) (h : exn → M A) : M A := λ st,
  match m st with
  | (inl e, st') => h e st'
  | r => r
  end.

Definition get_fs : M filesystem := λ st, (inr (fs st), st).

Definition put_fs (f : filesystem) : M unit := λ st,
  (inr tt, State f (history st) (asked st) (log st) (yielded st)).

Definition get_history : M (list turn) := λ st, (inr (history st), st).

(** [self._history.append(t)] and [self._history.extend(ts)] *)
Definition history_extend (ts : list turn) : M unit := λ st,
  (inr tt, State (fs st) (history st ++ ts) (asked st) (log st) (yielded st)).

Definition history_append (t : turn) : M unit := history_extend [t].

Definition emit (e : event) : M unit := λ st,
  (inr tt, State (fs st) (history st) (asked st) (log st ++ [e]) (yielded st)).

(** [yield x] *)
Definition yield (x : item) : M unit := λ st,
  (inr tt, State (fs st) (history st) (asked st) (log st) (yielded st ++ [x])).

(** Lifting a file-system call that fails with an [errno]. *)
Definition os_call {A : Type} (p : pypath) (r : errno + A) : M A :=
  match r with
  | inr a => mret a
  | inl e => raise (OSError e p)
  end.

(** ** The host: libraries, operating system and user *)

Inductive proc_result : Type :=
| Completed (stdout stderr : string)
| CalledProcessError (returncode : Z) (stdout stderr : string)
| Failed (e : exn).

Class Host : Type := {
  (** [os.getcwd()], as the list of components below the root *)
  getcwd : list string;
  (** what the user answers to the [k]-th [Prompt.ask]: [true] is ["y"] *)
  answers : nat → bool;
  (** [json.loads]; [None] is [JSONDecodeError] *)
  json_loads : string → option json;
  (** [str(e)] of the [JSONDecodeError] raised for a text *)
  json_error : string → string;
  (** [json.dumps] *)
  json_dumps : json → string;
  (** [f"{llm_response}"] *)
  repr_response : llm_response → string;
  (** [repr(v)] of a JSON-like value *)
  py_repr : json → string;
  (** rich's [Console.print] and console markup: [str(e)] of the
      [MarkupError] that printing a text raises (a closing tag that
      matches no open tag), [None] when the text is printed *)
  markup_error : string → option string;
  (** decoding the bytes of a file opened as text with the default
      encoding; it may raise [UnicodeDecodeError] *)
  decode_text : string → exn + string;
  (** [data.decode(errors="replace")] *)
  decode_replace : string → string;
  (** [''.join(difflib.unified_diff(a.splitlines(keepends=True),
      b.splitlines(keepends=True), fromfile=f"a/{path}",
      tofile=f"b/{path}"))] for the texts [a], [b] and the path *)
  unified_diff : string → string → string → string;
  (** [subprocess.run(command, shell=True, check=True, capture_output=True,
      text=True)] and what the command does to the files *)
  subprocess_run : json → filesystem → filesystem * proc_result
}.

(** The tools this development does not look into: they read files or the
    network, ask nothing and write nothing. *)
Class ReadOnlyTools : Type := {
  grep_run : dict → filesystem → exn + json;
  ls_run : dict → filesystem → exn + json;
  glob_run : dict → filesystem → exn + json;
  read_many_files_run : dict → filesystem → exn + json;
  web_search_run : dict → filesystem → exn + json
}.

(** The chunks of a streamed reply: [chunk.choices[0].delta] carries text
    and fragments of tool calls. *)
Record fn_delta : Type := FnDelta { fn_name : pystr; fn_arguments : pystr }.
Record tc_delta : Type := TcDelta {
  tcd_index : nat;
  tcd_id : pystr;
  tcd_function : option fn_delta
}.
Record delta : Type := Delta {
  d_content : pystr;
  d_tool_calls : option (list tc_delta)
}.
Record chunk : Type := Chunk { choices : list delta }.

(** "Any object that has a [generate] method."  [generate] may raise.
    [generate_stream] is given the history: it stands for
    [self._llm._prepare_messages(self._history, self._system_prompt)],
    which may raise, followed by the backend's [generate_stream], consumed
    to its end. *)
Class Backend : Type := {
  generate : list turn → exn + llm_response;
  generate_stream : list turn → exn + list chunk
}.

Section Tools.
Context `{Host}.

(** [Prompt.ask(question, choices=["y", "n"], default="n")] *)
Definition Prompt_ask (question : string) : M string := λ st,
  (inr (if answers (asked st) then "y" else "n"),
   State (fs st) (history st) (S (asked st)) (log st ++ [Asked question]) (yielded st)).

(** [f"{v}"]: a string is itself, any other value its [repr]. *)
Definition py_str (v : json) : string :=
  match v with
  | JStr s => s
  | _ => py_repr v
  end.

(** [Console.print(text)] of rich for a text that has a value chosen by
    the model or the user in it.  The prints of fixed texts and of
    numbers raise nothing and are left out. *)
Definition rich_print (text : string) : M unit :=
  match markup_error text with
  | None => mret tt
  | Some msg => raise (MarkupError msg)
  end.

(** [console.print(text)] on the [console] keyword argument after
    [if not console: console = Console()].  A JSON value that is truthy
    has no [print] method. *)
Definition console_print (console : option json) (text : string) : M unit :=
  match console with
  | Some c =>
      if truthy c then
        raise (AttributeError ("'" +:+ type_name c
                               +:+ "' object has no attribute 'print'"))
      else rich_print text
  | None => rich_print text
  end.

(** [path.exists()] and [path.is_file()], raising what they raise. *)
Definition Path_exists (p : pypath) : M bool :=
  f ← get_fs;
  os_call p (path_exists getcwd f p).

Definition Path_is_file (p : pypath) : M bool :=
  f ← get_fs;
  os_call p (is_file getcwd f p).

(** What reading a file opened as text makes of its bytes: they are
    decoded, then the line ends are translated. *)
Definition decoded (bytes : string) : exn + string :=
  match decode_text bytes with
  | inr t => inr (universal_newlines t)
  | inl e => inl e
  end.

(** The text of the file at a path. *)
Definition text_of (f : filesystem) (p : pypath) : exn + string :=
  match os_read getcwd f p with
  | inl e => inl (OSError e p)
  | inr bytes => decoded bytes
  end.

(** [path.read_text()] *)
Definition read_text (p : pypath) : M string :=
  f ← get_fs;
  lift (text_of f p).

(** Binding a required keyword-only argument. *)
Definition required (tool arg : string) (kw : dict) : M json :=
  match dict_get arg kw with
  | Some v => mret v
  | None => raise (TypeError (tool +:+ ".run() missing 1 required keyword-only argument: '" +:+ arg +:+ "'"))
  end.

(** The keyword argument [yolo: bool = False]. *)
Definition kw_yolo (kw : dict) : bool :=
  truthy (default (JBool false) (dict_get "yolo" kw)).

(** [Path(path)] *)
Definition to_Path (path : json) : M pypath :=
  match path with
  | JStr s => mret (Path s)
  | _ => raise (TypeError "expected str, bytes or os.PathLike object")
  end.

(** *** [ShellTool.run] *)
Definition ShellTool_exec (command : json) : M json :=
  f ← get_fs;
  let '(f', r) := subprocess_run command f in
  put_fs f';;
  match r with
  | Completed out err => mret (JObj [("stdout", JStr out); ("stderr", JStr err)])
  | CalledProcessError rc out err =>
      mret (JObj [("error", JStr ("Command failed with exit code " +:+ pretty rc));
                  ("stdout", JStr out); ("stderr", JStr err)])
  | Failed e => mret (error_result (exn_str e))
  end.

(** The text of the print before the question of [ShellTool.run]. *)
Definition shell_command (command : json) : string :=
  "Shell command: [bold yellow]" +:+ py_str command +:+ "[/bold yellow]".

Definition ShellTool_run (kw : dict) : M json :=
  command ← required "ShellTool" "command" kw;
  if negb (kw_yolo kw) then
    console_print (dict_get "console" kw) (shell_command command);;
    a ← Prompt_ask "Approve this command?";
    if negb (String.eqb a "y") then mret (error_result "User rejected the shell command.")
    else ShellTool_exec command
  else ShellTool_exec command.

(** *** [EditTool.run] *)
Definition EditTool_replace (file_path : pypath) (original old : string)
    (replace_text : json) : M json :=
  match replace_text with
  | JStr new =>
      let new_content := default original (replace_first old new original) in
      f ← get_fs;
      f' ← os_call file_path (os_write getcwd f file_path new_content);
      put_fs f';;
      mret (JObj [("success", JBool true); ("path", JStr (path_str file_path))])
  | _ => raise (TypeError "replace() argument 2 must be str")
  end.

(** The text of the second print before the question of [EditTool.run];
    the first one gives the number of occurrences. *)
Definition about_to_replace (path search_text : string) (replace_text : json) : string :=
  "About to replace '[bold red]" +:+ search_text +:+ "[/bold red]' with '[bold green]"
  +:+ py_str replace_text +:+ "[/bold green]' in " +:+ path +:+ ".".

Definition EditTool_body (path : string) (search_text replace_text : json)
    (kw : dict) : M json :=
  let file_path := Path path in
  original_content ← read_text file_path;
  match search_text with
  | JStr old =>
      if negb (occurs old original_content) then
        mret (error_result "Search text not found in file. Use `read_file` to see the exact content.")
      else if negb (kw_yolo kw) then
        console_print (dict_get "console" kw) (about_to_replace path old replace_text);;
        a ← Prompt_ask "Approve this change?";
        if negb (String.eqb a "y") then mret (error_result "User rejected the edit.")
        else EditTool_replace file_path original_content old replace_text
      else EditTool_replace file_path original_content old replace_text
  | _ => raise (TypeError "'in <string>' requires string as left operand")
  end.

Definition EditTool_run (kw : dict) : M json :=
  path ← required "EditTool" "path" kw;
  search_text ← required "EditTool" "search_text" kw;
  replace_text ← required "EditTool" "replace_text" kw;
  match path with
  | JStr s =>
      there ← Path_is_file (Path s);
      if negb there then
        mret (error_result ("File not found at " +:+ s))
      else
        try_except (EditTool_body s search_text replace_text kw)
                   (λ e, mret (error_result (exn_str e)))
  | _ => raise (TypeError "expected str, bytes or os.PathLike object")
  end.

(** *** [WriteFileTool.run] *)
Definition WriteFileTool_body (file_path : pypath) (contents : json) : M json :=
  f ← get_fs;
  f1 ← os_call (parent file_path) (mkdir_p getcwd f (parent file_path));
  put_fs f1;;
  (* [open(file_path, 'w')] creates or truncates the file *)
  f2 ← os_call file_path (os_write getcwd f1 file_path "");
  put_fs f2;;
  match contents with
  | JStr c =>
      f3 ← os_call file_path (os_write getcwd f2 file_path c);
      put_fs f3;;
      mret (JObj [("success", JBool true); ("path", JStr (path_str file_path))])
  | _ => raise (TypeError "write() argument must be str")
  end.

Definition WriteFileTool_try (file_path : pypath) (contents : json) : M json :=
  try_except (WriteFileTool_body file_path contents)
             (λ e, mret (error_result (exn_str e))).

(** The text of the print before the question of [WriteFileTool.run]. *)
Definition already_exists (path : json) : string :=
  "File '[bold yellow]" +:+ py_str path +:+ "[/bold yellow]' already exists.".

Definition WriteFileTool_run (kw : dict) : M json :=
  path ← required "WriteFileTool" "path" kw;
  contents ← required "WriteFileTool" "contents" kw;
  file_path ← to_Path path;
  there ← Path_exists file_path;
  if there && negb (kw_yolo kw) then
    console_print (dict_get "console" kw) (already_exists path);;
    a ← Prompt_ask "Overwrite it?";
    if negb (String.eqb a "y") then
      mret (error_result "User chose not to overwrite the file.")
    else WriteFileTool_try file_path contents
  else WriteFileTool_try file_path contents.

(** *** [ReadFileTool.run] *)

(** [WORKSPACE_ROOT = Path(os.getcwd()).parent] in [read_file.py] *)
Definition WORKSPACE_ROOT : pypath := parent (PyPath true getcwd).

(** [data[:max_bytes]] unless [max_bytes is None]; the default is 10000. *)
Definition ReadFileTool_slice (max_bytes : option json) (data : string) : M string :=
  match max_bytes with
  | None => mret (slice_to 10000 data)
  | Some JNull => mret data
  | Some (JNum n) => mret (slice_to n data)
  | Some (JBool b) => mret (slice_to (if b then 1 else 0) data)
  | Some _ => raise (TypeError "slice indices must be integers or None or have an __index__ method")
  end.

Definition ReadFileTool_run (kw : dict) : M json :=
  path ← required "ReadFileTool" "path" kw;
  match path with
  | JStr s =>
      let file_path := joinpath WORKSPACE_ROOT (Path s) in
      there ← Path_exists file_path;
      if negb there then
        mret (error_result ("File '" +:+ s +:+ "' does not exist at '" +:+ path_str file_path +:+ "'."))
      else
        try_except
          (f ← get_fs;
           data ← os_call file_path (os_read getcwd f file_path);
           data' ← ReadFileTool_slice (dict_get "max_bytes" kw) data;
           mret (JObj [("contents", JStr (decode_replace data'))]))
          (λ e, mret (error_result (exn_str e)))
  | _ => raise (TypeError "unsupported operand type(s) for /: 'PosixPath'")
  end.

(** *** [ToolRegistry] *)
Context `{ReadOnlyTools}.

Abbreviation tool := (dict → M json).

Definition read_only (t : dict → filesystem → exn + json) : tool :=
  λ kw st, (t kw (fs st), st).

(** [ToolRegistry.register]: [cls._registry[tool_cls.name] = tool_cls] *)
Definition register (name : string) (t : tool) (registry : gmap string tool)
  : gmap string tool := <[name := t]> registry.

(** The registry after [cli.py] has imported the tool modules. *)
Definition ToolRegistry : gmap string tool :=
  register "web_search" (read_only web_search_run)
  (register "edit" EditTool_run
  (register "read_many_files" (read_only read_many_files_run)
  (register "glob" (read_only glob_run)
  (register "ls" (read_only ls_run)
  (register "grep" (read_only grep_run)
  (register "shell" ShellTool_run
  (register "write_file" WriteFileTool_run
  (register "read_file" ReadFileTool_run ∅)))))))).

(** [ToolRegistry.run(name, **kwargs)]: [cls._registry[name]] raises
    [KeyError] for a name that was never registered. *)
Definition ToolRegistry_run (name : string) (kw : dict) : M json :=
  match ToolRegistry !! name with
  | None => raise (KeyError name)
  | Some t => emit (ToolRun name kw);; t kw
  end.

(** [ToolRegistry.run(tool_name, **tool_args)] where [tool_args] is any
    value: [**] needs a mapping. *)
Definition ToolRegistry_run_splat (name : string) (tool_args : json) : M json :=
  match tool_args with
  | JObj kw => ToolRegistry_run name kw
  | _ => raise (TypeError "argument after ** must be a mapping")
  end.
End Tools.

Arguments shell_command {_} _ : simpl never.
Arguments about_to_replace {_} _ _ _ : simpl never.
Arguments already_exists {_} _ : simpl never.

(** ** [Agent] *)

Definition DANGEROUS_TOOLS : list string := ["shell"; "write_file"; "edit"].

Definition default_max_turns : Z := 25.
Definition default_stream_max_turns : Z := 10.

Definition turn_limit_error : string := "Error: Agent exceeded maximum turns.".

(** How one iteration of the [for] loop of [execute] ends: [continue], or
    [return v]. *)
Inductive control : Type :=
| Continue
| Return (v : pystr).

(** How one iteration of the [for] loop of [execute_stream] ends. *)
Inductive stream_control : Type :=
| NextTurn
| Stop.

(** [for x in l: ys.append(f(x))] *)
Fixpoint for_each {A B : Type} (f : A → M B) (l : list A) : M (list B) :=
  match l with
  | [] => mret []
  | x :: l' => y ← f x; ys ← for_each f l'; mret (y :: ys)
  end.

(** [for x in l: acc = f(acc, x)] *)
Fixpoint for_fold {A B : Type} (f : A → B → M A) (acc : A) (l : list B) : M A :=
  match l with
  | [] => mret acc
  | x :: l' => acc' ← f acc x; for_fold f acc' l'
  end.

Section Agent.
Context `{Host} `{ReadOnlyTools} `{Backend}.

(** [self._yolo] *)
Variable yolo : bool.

Definition rejected (tool_name : string) : json :=
  error_result ("Tool call for '" +:+ tool_name +:+ "' was rejected by the user.").

(** [self._llm.generate(self._history, tools=tools, system_prompt=...)] *)
Definition llm_generate : M llm_response :=
  emit ModelCall;;
  h ← get_history;
  match generate h with
  | inr r => mret r
  | inl e => raise e
  end.

(** The diff preview for [edit]: what is read and printed inside the
    [try], and the handler, which prints the exception. *)
Definition show_diff (tool_args : json) : M unit :=
  try_except
    (path ← lift (get_method tool_args "path" JNull);
     new_content ← lift (get_method tool_args "new_content" (JStr ""));
     file_path ← to_Path path;
     original_content ← read_text file_path;
     match new_content with
     | JStr new => rich_print (unified_diff original_content new (py_str path))
     | _ =>
         raise (AttributeError ("'" +:+ type_name new_content
                                +:+ "' object has no attribute 'splitlines'"))
     end)
    (λ e, rich_print ("[bold red]Could not generate diff: " +:+ exn_str e
                      +:+ "[/bold red]")).

(** The text printed before the approval question. *)
Definition tool_call_text (tool_name : string) (tool_args : json) : string :=
  "Tool call: [bold yellow]" +:+ tool_name +:+ "[/bold yellow] with args: [bold yellow]"
  +:+ py_str tool_args +:+ "[/bold yellow]".

(** The text printed in yolo mode and for a tool that is not dangerous. *)
Definition executing_text (tool_name : string) (tool_args : json) : string :=
  "Executing tool: " +:+ tool_name +:+ " with args: " +:+ py_str tool_args.

(** What [execute] prints before its approval question. *)
Definition announce (tool_name : string) (tool_args : json) : M unit :=
  (if String.eqb tool_name "edit" then show_diff tool_args else mret tt);;
  rich_print (tool_call_text tool_name tool_args).

(** The approval check of [execute] and the call of the tool. *)
Definition approve_and_run (tool_name : string) (tool_args : json) : M json :=
  if bool_decide (tool_name ∈ DANGEROUS_TOOLS) && negb yolo then
    announce tool_name tool_args;;
    a ← Prompt_ask "Approve this tool call?";
    if negb (String.eqb a "y") then mret (rejected tool_name)
    else
      rich_print ("Executing tool: " +:+ tool_name +:+ "...");;
      ToolRegistry_run_splat tool_name tool_args
  else
    rich_print (executing_text tool_name tool_args);;
    ToolRegistry_run_splat tool_name tool_args.

(** The body of the loop of [execute], after the reply has arrived. *)
Definition handle_response (llm_response : llm_response) : M control :=
  match function_call llm_response with
  | Some fc =>
      history_append (ModelParts llm_response);;
      let tool_name := fc_name fc in
      let tool_args := default (JObj []) (fc_args fc) in
      tool_result ← approve_and_run tool_name tool_args;
      history_append (FunctionParts tool_name tool_result);;
      mret Continue
  | None =>
      match text llm_response with
      | Some final_response =>
          history_append (ModelParts (Response None (Some final_response) None));;
          mret (Return final_response)
      | None =>
          mret (Return (Some ("Error: Invalid response from LLM: "
                              +:+ repr_response llm_response)))
      end
  end.

Definition execute_turn : M control :=
  llm_response ← llm_generate;
  handle_response llm_response.

(** [for _ in range(max_turns): ...] followed by the final [return]. *)
Fixpoint execute_loop (turns : nat) : M pystr :=
  match turns with
  | O => mret (Some turn_limit_error)
  | S turns' =>
      c ← execute_turn;
      match c with
      | Continue => execute_loop turns'
      | Return v => mret v
      end
  end.

Definition execute (prompt : string) (max_turns : Z) : M pystr :=
  history_append (UserParts prompt);;
  execute_loop (Z.to_nat max_turns).

(** *** Streaming *)

(** One [tc_chunk] of [delta.tool_calls] merged into the list. *)
Definition merge_tc (tool_calls : list tool_call) (tc_chunk : tc_delta)
  : exn + list tool_call :=
  let started :=
    if bool_decide (length tool_calls ≤ tcd_index tc_chunk)%nat then
      match tcd_function tc_chunk with
      | Some f => inr (tool_calls ++ [ToolCall (tcd_id tc_chunk) (fn_name f) ""])%list
      | None => inl (AttributeError "'NoneType' object has no attribute 'name'")
      end
    else inr tool_calls in
  match started with
  | inl e => inl e
  | inr tcs =>
      match tcd_function tc_chunk with
      | Some (FnDelta _ (Some a)) =>
          if String.eqb a "" then inr tcs
          else match tcs !! tcd_index tc_chunk with
               | Some c =>
                   inr (<[tcd_index tc_chunk :=
                            ToolCall (tc_id c) (tc_name c) (tc_arguments c +:+ a)]> tcs)
               | None => inl (IndexError "list index out of range")
               end
      | _ => inr tcs
      end
  end.

Fixpoint merge_tcs (tool_calls : list tool_call) (tcs : list tc_delta)
  : exn + list tool_call :=
  match tcs with
  | [] => inr tool_calls
  | tc_chunk :: tcs' =>
      match merge_tc tool_calls tc_chunk with
      | inr tool_calls' => merge_tcs tool_calls' tcs'
      | inl e => inl e
      end
  end.

(** The body of [for chunk in stream]; the accumulator is
    [(full_response_content, tool_calls)]. *)
Definition process_chunk (acc : string * list tool_call) (c : chunk)
  : M (string * list tool_call) :=
  match choices c with
  | [] => raise (IndexError "list index out of range")
  | d :: _ =>
      full ← match d_content d with
             | Some s =>
                 if String.eqb s "" then mret (fst acc)
                 else yield (YieldText s);; mret (fst acc +:+ s)
             | None => mret (fst acc)
             end;
      match merge_tcs (snd acc) (default [] (d_tool_calls d)) with
      | inr tool_calls => mret (full, tool_calls)
      | inl e => raise e
      end
  end.

Definition run_caught (tool_name : pystr) (tool_args : json) : M json :=
  try_except
    match tool_args, tool_name with
    | JObj kw, Some name => ToolRegistry_run name kw
    | JObj _, None => raise (Exn "KeyError" "None")
    | _, _ => raise (TypeError "argument after ** must be a mapping")
    end
    (λ e, mret (error_result ("Error executing tool " +:+ fmt tool_name
                              +:+ ": " +:+ exn_str e))).

Definition is_dangerous (tool_name : pystr) : bool :=
  match tool_name with
  | Some name => bool_decide (name ∈ DANGEROUS_TOOLS)
  | None => false
  end.

Definition _execute_tool (tool_name : pystr) (tool_args : json) : M json :=
  if is_dangerous tool_name && negb yolo then
    rich_print (tool_call_text (fmt tool_name) tool_args);;
    a ← Prompt_ask "Approve this tool call?";
    if negb (String.eqb a "y") then mret (rejected (fmt tool_name))
    else run_caught tool_name tool_args
  else run_caught tool_name tool_args.

Definition invalid_json_message (tc : tool_call) : string :=
  "Error: Invalid JSON arguments for tool " +:+ fmt (tc_name tc) +:+ ": "
  +:+ tc_arguments tc.

(** The body of [for tool_call in tool_calls]; the result is the entry
    appended to [tool_outputs]. *)
Definition handle_tool_call (tc : tool_call) : M turn :=
  match json_loads (tc_arguments tc) with
  | Some tool_args =>
      yield (YieldTool (tc_name tc) tool_args);;
      tool_output_content ← _execute_tool (tc_name tc) tool_args;
      mret (ToolMessage (tc_id tc) (tc_name tc) (json_dumps tool_output_content))
  | None =>
      yield (YieldText (invalid_json_message tc));;
      mret (ToolMessage (tc_id tc) (tc_name tc) (invalid_json_message tc))
  end.

(** What follows the stream in a turn of [execute_stream]. *)
Definition after_stream (acc : string * list tool_call) : M stream_control :=
  match snd acc with
  | [] =>
      history_append (AssistantMessage (fst acc) None);;
      mret Stop
  | tool_calls =>
      history_append (AssistantMessage (fst acc) (Some tool_calls));;
      tool_outputs ← for_each handle_tool_call tool_calls;
      history_extend tool_outputs;;
      mret NextTurn
  end.

Definition execute_stream_turn : M stream_control :=
  h ← get_history;
  match generate_stream h with
  | inl e => raise e
  | inr stream =>
      emit ModelCall;;
      acc ← for_fold process_chunk ("", []) stream;
      after_stream acc
  end.

(** The generator returns nothing, neither when the model is done nor
    when the turns are used up. *)
Fixpoint execute_stream_loop (turns : nat) : M unit :=
  match turns with
  | O => mret tt
  | S turns' =>
      c ← execute_stream_turn;
      match c with
      | NextTurn => execute_stream_loop turns'
      | Stop => mret tt
      end
  end.

Definition execute_stream (prompt : string) (max_turns : Z) : M unit :=
  history_append (UserMessage prompt);;
  execute_stream_loop (Z.to_nat max_turns).
End Agent.

Arguments tool_call_text {_} _ _ : simpl never.
Arguments executing_text {_} _ _ : simpl never.

(** ** [GroqLLMEndpoint] *)

Record api_tool_call : Type := ApiToolCall {
  atc_name : string;
  atc_arguments : string
}.

(** [chat_completion.choices[i].message] *)
Record api_message : Type := ApiMessage {
  msg_content : pystr;
  msg_tool_calls : option (list api_tool_call)
}.

(** The messages sent to the service. *)
Inductive message : Type :=
| SystemMsg (content : string)
| UserMsg (content : string)
| AssistantMsg (content : string) (tool_calls : option (list tool_call))
| ToolMsg (tool_call_id : pystr) (content : string).

(** The body of the loop of [_prepare_messages]: the messages a turn
    adds.  A turn with the role ["user"] must have the key ["content"];
    the turns [execute] appends have the key ["parts"] and the roles
    ["user"], ["model"] and ["function"], of which the last two match no
    branch. *)
Definition prepare_turn (t : turn) : exn + list message :=
  match t with
  | UserParts _ => inl (KeyError "content")
  | ModelParts _ => inr []
  | FunctionParts _ _ => inr []
  | UserMessage c => inr [UserMsg c]
  | AssistantMessage c tcs => inr [AssistantMsg c tcs]
  | ToolMessage id _ c => inr [ToolMsg id c]
  end.

Fixpoint prepare_turns (h : list turn) : exn + list message :=
  match h with
  | [] => inr []
  | t :: h' =>
      match prepare_turn t with
      | inl e => inl e
      | inr ms =>
          match prepare_turns h' with
          | inl e => inl e
          | inr ms' => inr (ms ++ ms')
          end
      end
  end.

(** [GroqLLMEndpoint._prepare_messages].  Every message built has a
    content, so the final filter keeps them all. *)
Definition _prepare_messages (h : list turn) (system_prompt : pystr)
  : exn + list message :=
  match prepare_turns h with
  | inl e => inl e
  | inr ms =>
      match system_prompt with
      | Some p => if String.eqb p "" then inr ms else inr (SystemMsg p :: ms)
      | None => inr ms
      end
  end.

(** What [generate] makes of the outcome of
    [self._client.chat.completions.create] on the request: the list of
    the messages of its choices, or the exception it raised.  Whatever is
    raised inside the [try] becomes [{"error": str(e)}]. *)
Definition groq_reply `{Host} (completion : exn + list api_message) : llm_response :=
  match completion with
  | inl e => Response None None (Some (exn_str e))
  | inr [] => Response None None (Some "list index out of range")
  | inr (response_message :: _) =>
      match msg_tool_calls response_message with
      | Some (tool_call :: _) =>
          match json_loads (atc_arguments tool_call) with
          | Some args =>
              Response (Some (FCall (atc_name tool_call) (Some args))) None None
          | None => Response None None (Some (json_error (atc_arguments tool_call)))
          end
      | _ => Response None (Some (msg_content response_message)) None
      end
  end.

Section Groq.
Context `{Host}.

(** The system prompt the agent passes with every call. *)
Variable system_prompt : pystr.

(** The service: what it answers to a list of messages, at once and as a
    stream. *)
Variable create : list message → exn + list api_message.
Variable create_stream : list message → list chunk.

(** [GroqLLMEndpoint.generate]: the messages are prepared before the
    [try], so what [_prepare_messages] raises leaves [generate]. *)
Definition groq_generate (h : list turn) : exn + llm_response :=
  match _prepare_messages h system_prompt with
  | inl e => inl e
  | inr messages => inr (groq_reply (create messages))
  end.

(** [_prepare_messages] and [GroqLLMEndpoint.generate_stream], as
    [execute_stream] calls them. *)
Definition groq_generate_stream (h : list turn) : exn + list chunk :=
  match _prepare_messages h system_prompt with
  | inl e => inl e
  | inr messages => inr (create_stream messages)
  end.

Definition GroqLLMEndpoint : Backend :=
  {| generate := groq_generate; generate_stream := groq_generate_stream |}.
End Groq.

(** ** A host to run examples on *)

(** A reader for the JSON texts without escapes, fractions and exponents,
    and the matching printer. *)
Module ExampleJson.
Inductive token : Type :=
| TLBrace | TRBrace | TLBrack | TRBrack | TColon | TComma
| TString (s : string) | TNum (n : Z) | TTrue | TFalse | TNull.

Definition dquote : ascii := ascii_of_nat 34.
Definition backslash : ascii := ascii_of_nat 92.

Definition digit (a : ascii) : option Z :=
  let n := Z.of_nat (nat_of_ascii a) in
  if (48 <=? n) && (n <=? 57) then Some (n - 48) else None.

Definition is_space (a : ascii) : bool :=
  let n := nat_of_ascii a in
  bool_decide (n = 32 ∨ n = 9 ∨ n = 10 ∨ n = 13)%nat.

(** The characters of a string literal up to the closing quote. *)
Fixpoint read_string (s : string) : option (string * string) :=
  match s with
  | EmptyString => None
  | String a s' =>
      if Ascii.eqb a dquote then Some (EmptyString, s')
      else if Ascii.eqb a backslash then None
      else '(lit, rest) ← read_string s'; Some (String a lit, rest)
  end.

Fixpoint read_digits (acc : Z) (s : string) : Z * string :=
  match s with
  | String a s' =>
      match digit a with
      | Some d => read_digits (10 * acc + d) s'
      | None => (acc, s)
      end
  | EmptyString => (acc, s)
  end.

Fixpoint tokens (fuel : nat) (s : string) : option (list token) :=
  match fuel with
  | O => None
  | S fuel' =>
      match s with
      | EmptyString => Some []
      | String a s' =>
          if is_space a then tokens fuel' s'
          else if Ascii.eqb a "{"%char then cons TLBrace <$> tokens fuel' s'
          else if Ascii.eqb a "}"%char then cons TRBrace <$> tokens fuel' s'
          else if Ascii.eqb a "["%char then cons TLBrack <$> tokens fuel' s'
          else if Ascii.eqb a "]"%char then cons TRBrack <$> tokens fuel' s'
          else if Ascii.eqb a ":"%char then cons TColon <$> tokens fuel' s'
          else if Ascii.eqb a ","%char then cons TComma <$> tokens fuel' s'
          else if Ascii.eqb a dquote then
            '(lit, rest) ← read_string s'; cons (TString lit) <$> tokens fuel' rest
          else if Ascii.eqb a "-"%char then
            match s' with
            | String b _ =>
                match digit b with
                | Some _ =>
                    let '(n, rest) := read_digits 0 s' in
                    cons (TNum (- n)) <$> tokens fuel' rest
                | None => None
                end
            | EmptyString => None
            end
          else if bool_decide (is_Some (digit a)) then
            let '(n, rest) := read_digits 0 s in
            cons (TNum n) <$> tokens fuel' rest
          else if String.prefix "true" s then
            cons TTrue <$> tokens fuel' (drop_string 4 s)
          else if String.prefix "false" s then
            cons TFalse <$> tokens fuel' (drop_string 5 s)
          else if String.prefix "null" s then
            cons TNull <$> tokens fuel' (drop_string 4 s)
          else None
      end
  end.

(** [d[k] = v] *)
Fixpoint dict_set (k : string) (v : json) (d : dict) : dict :=
  match d with
  | [] => [(k, v)]
  | (k', v') :: d' =>
      if String.eqb k k' then (k, v) :: d' else (k', v') :: dict_set k v d'
  end.

Inductive mode : Type :=
| MValue
| MElements (acc : list json)
| MMembers (acc : dict).

Fixpoint parse (fuel : nat) (m : mode) (ts : list token) : option (json * list token) :=
  match fuel with
  | O => None
  | S fuel' =>
      match m, ts with
      | MValue, TString s :: r => Some (JStr s, r)
      | MValue, TNum n :: r => Some (JNum n, r)
      | MValue, TTrue :: r => Some (JBool true, r)
      | MValue, TFalse :: r => Some (JBool false, r)
      | MValue, TNull :: r => Some (JNull, r)
      | MValue, TLBrack :: TRBrack :: r => Some (JArr [], r)
      | MValue, TLBrack :: r => parse fuel' (MElements []) r
      | MValue, TLBrace :: TRBrace :: r => Some (JObj [], r)
      | MValue, TLBrace :: r => parse fuel' (MMembers []) r
      | MElements acc, _ =>
          '(v, r) ← parse fuel' MValue ts;
          match r with
          | TComma :: r' => parse fuel' (MElements (acc ++ [v])) r'
          | TRBrack :: r' => Some (JArr (acc ++ [v]), r')
          | _ => None
          end
      | MMembers acc, TString k :: TColon :: r =>
          '(v, r') ← parse fuel' MValue r;
          match r' with
          | TComma :: r'' => parse fuel' (MMembers (dict_set k v acc)) r''
          | TRBrace :: r'' => Some (JObj (dict_set k v acc), r'')
          | _ => None
          end
      | _, _ => None
      end
  end.

Definition loads (s : string) : option json :=
  ts ← tokens (S (String.length s)) s;
  match parse (S (length ts)) MValue ts with
  | Some (v, []) => Some v
  | _ => None
  end.

Definition quote (s : string) : string :=
  String dquote s +:+ String dquote EmptyString.

Fixpoint dumps (v : json) : string :=
  match v with
  | JNull => "null"
  | JBool true => "true"
  | JBool false => "false"
  | JNum n => pretty n
  | JStr s => quote s
  | JArr l => "[" +:+ String.concat ", " (List.map dumps l) +:+ "]"
  | JObj o =>
      "{" +:+ String.concat ", "
                (List.map (λ kv, quote (fst kv) +:+ ": " +:+ dumps (snd kv)) o)
      +:+ "}"
  end.

(** [repr] of the same values. *)
Definition squote (s : string) : string := "'" +:+ s +:+ "'".

Fixpoint repr (v : json) : string :=
  match v with
  | JNull => "None"
  | JBool true => "True"
  | JBool false => "False"
  | JNum n => pretty n
  | JStr s => squote s
  | JArr l => "[" +:+ String.concat ", " (List.map repr l) +:+ "]"
  | JObj o =>
      "{" +:+ String.concat ", "
                (List.map (λ kv, squote (fst kv) +:+ ": " +:+ repr (snd kv)) o)
      +:+ "}"
  end.
End ExampleJson.

(** A user who gives the same answer to every question, in the directory
    [/home/user/project], with shell commands that print nothing and leave
    the files alone.  Files hold ASCII text, which decodes to itself, and
    of the closing tags only [[/x]], which the examples never open, is one
    the console refuses. *)
Definition example_host (answer : bool) : Host :=
  {| getcwd := ["home"; "user"; "project"];
     answers := λ _, answer;
     json_loads := ExampleJson.loads;
     json_error := λ _, "Expecting value";
     json_dumps := ExampleJson.dumps;
     repr_response := λ _, "{...}";
     py_repr := ExampleJson.repr;
     markup_error := λ text,
       if occurs "[/x]" text
       then Some "closing tag '[/x]' doesn't match any open tag"
       else None;
     decode_text := inr;
     decode_replace := λ bytes, bytes;
     unified_diff := λ a b path,
       "--- a/" +:+ path +:+ " +++ b/" +:+ path +:+ " -" +:+ a +:+ " +" +:+ b;
     subprocess_run := λ _ f, (f, Completed "" "") |}.

Definition example_tools : ReadOnlyTools :=
  {| grep_run := λ _ _, inr (JObj [("matches", JArr [])]);
     ls_run := λ _ _, inr (JObj [("entries", JArr [])]);
     glob_run := λ _ _, inr (JObj [("matches", JArr [])]);
     read_many_files_run := λ _ _, inr (JObj [("files", JObj [])]);
     web_search_run := λ _ _, inr (JObj [("result", JStr "")]) |}.

(** A backend whose every reply is the same. *)
Definition constant_backend (r : llm_response) (stream : list chunk) : Backend :=
  {| generate := λ _, inr r; generate_stream := λ _, inr stream |}.

Definition empty_state (f : filesystem) : state := State f [] 0 [] [].

(** ** Vocabulary of the properties *)

Definition is_model_call (e : event) : bool :=
  match e with ModelCall => true | _ => false end.

Definition is_tool_run (e : event) : bool :=
  match e with ToolRun _ _ => true | _ => false end.

(** Number of calls of the model recorded in a log. *)
Definition model_calls (l : list event) : nat :=
  length (filter (λ e, is_model_call e = true) l).

(** Number of calls of [ToolRegistry.run] that reached a tool. *)
Definition tool_runs (l : list event) : nat :=
  length (filter (λ e, is_tool_run e = true) l).

(** [frame k m]: [m] leaves the history and the yielded items alone, does
    not call the model, and goes through [ToolRegistry.run] at most [k]
    times.  [quiet m] is [frame 0 m]. *)
Definition frame (k : nat) {A : Type} (m : M A) : Prop :=
  ∀ st, history (m st).2 = history st
        ∧ yielded (m st).2 = yielded st
        ∧ ∃ l, log (m st).2 = log st ++ l
               ∧ model_calls l = 0%nat ∧ (tool_runs l ≤ k)%nat.

Abbreviation quiet := (frame 0).

(** [calm m]: [m] leaves the history alone and does not call the model. *)
Definition calm {A : Type} (m : M A) : Prop :=
  ∀ st, history (m st).2 = history st
        ∧ ∃ l, log (m st).2 = log st ++ l ∧ model_calls l = 0%nat.

(** [returns m]: [m] raises nothing. *)
Definition returns {A : Type} (m : M A) : Prop :=
  ∀ st, ∃ a st', m st = (inr a, st').

(** The names the registry knows. *)
Definition registered : list string :=
  ["read_file"; "write_file"; "shell"; "grep"; "ls"; "glob";
   "read_many_files"; "edit"; "web_search"].

(** Whether a tool gets past its own question: its argument [yolo] is
    set, or the [text] before the question can be printed and the
    question is answered "y". *)
Definition goes_ahead `{Host} (kw : dict) (text : string) (st : state) : bool :=
  kw_yolo kw
  || (negb (from_option truthy false (dict_get "console" kw))
      && bool_decide (markup_error text = None)
      && answers (asked st)).

(** A path short enough for the system calls: fewer than [PATH_MAX]
    bytes, no name longer than [NAME_MAX]. *)
Definition fits (p : pypath) : bool :=
  (String.length (path_str p) <? PATH_MAX)%nat
  && forallb (λ c, (String.length c <=? NAME_MAX)%nat) (parts p).

(** [f'] has what [f] has and, where [f] had nothing, maybe a directory. *)
Definition adds_dirs (f f' : filesystem) : Prop :=
  ∀ a, f' !! a = f !! a ∨ (f !! a = None ∧ f' !! a = Some Dir).

(** The argument text one fragment carries. *)
Definition fragment_arguments (fr : tc_delta) : string :=
  match tcd_function fr with
  | Some (FnDelta _ (Some a)) => a
  | _ => ""
  end.



(** All the fragments of a stream, in the order of arrival. *)
Definition stream_fragments (stream : list chunk) : list tc_delta :=
  flat_map (λ c, match choices c with
                 | d :: _ => default [] (d_tool_calls d)
                 | [] => []
                 end) stream.


Definition is_text (x : item) : bool :=
  match x with YieldText _ => true | YieldTool _ _ => false end.

Definition is_tool_message (t : turn) : bool :=
  match t with ToolMessage _ _ _ => true | _ => false end.


(** What [_execute_tool] prints before its question can be printed.  In
    yolo mode and for a tool outside [DANGEROUS_TOOLS] it prints
    nothing. *)
Definition call_renders `{Host} (yolo : bool) (tool_name : pystr) (tool_args : json)
  : bool :=
  negb (is_dangerous tool_name && negb yolo)
  || bool_decide (markup_error (tool_call_text (fmt tool_name) tool_args) = None).

(** The same for an assembled call, once its arguments are parsed. *)
Definition renders `{Host} (yolo : bool) (tc : tool_call) : bool :=
  match json_loads (tc_arguments tc) with
  | Some tool_args => call_renders yolo (tc_name tc) tool_args
  | None => true
  end.

(** A stream that ends with at least one tool call assembled. *)
Definition requests_tools (stream : list chunk) : Prop :=
  Forall (λ c, choices c ≠ []) stream
  ∧ ∃ c cs, merge_tcs [] (stream_fragments stream) = inr (c :: cs).

(** A backend that answers every history with such a stream. *)
Definition keeps_requesting_tools `{Backend} : Prop :=
  ∀ h, ∃ stream, generate_stream h = inr stream ∧ requests_tools stream.

(** A backend whose calls can all be printed before the question. *)
Definition calls_render `{Host} `{Backend} (yolo : bool) : Prop :=
  ∀ h stream calls,
    generate_stream h = inr stream →
    merge_tcs [] (stream_fragments stream) = inr calls →
    Forall (λ tc, renders yolo tc = true) calls.

Section StreamTurns.
Context `{Host} `{ReadOnlyTools} `{Backend}.
Variable yolo : bool.

(** [n] turns of [execute_stream], each ending with [continue]. *)
Inductive stream_turns : nat → state → state → Prop :=
| stream_turns_O st : stream_turns O st st
| stream_turns_S n st st1 st2 :
    execute_stream_turn yolo st = (inr NextTurn, st1) →
    stream_turns n st1 st2 →
    stream_turns (S n) st st2.
End StreamTurns.

(** ** Example data *)

Definition summary_reply : llm_response :=
  Response None (Some (Some "A command-line agent with nine tools.")) None.

Definition shell_call : llm_response :=
  Response (Some (FCall "shell" (Some (JObj [("command", JStr "rm -rf build")]))))
           None None.

Definition unknown_call : llm_response :=
  Response (Some (FCall "search_code" (Some (JObj [("query", JStr "main")]))))
           None None.

Definition list_call : llm_response :=
  Response (Some (FCall "shell" (Some (JObj [("command", JStr "ls")])))) None None.

(** A service that answers with two tool calls. *)
Definition two_calls (first_arguments : string)
  : list message → exn + list api_message :=
  λ _, inr [ApiMessage None
              (Some [ApiToolCall "ls" first_arguments; ApiToolCall "glob" "{}"])].


(** The project directory with one file in it. *)
Definition example_files : filesystem :=
  <[ ["home"; "user"; "project"; "notes.txt"] := File "hello world hello" ]>
  (<[ ["home"; "user"; "project"] := Dir ]>
  (<[ ["home"; "user"] := Dir ]>
  (<[ ["home"] := Dir ]> ∅))).


Definition example_write : dict :=
  [("path", JStr "out.txt"); ("contents", JStr "data")].

(** The text of a JSON object that is still open. *)
Definition open_a : string := "{" +:+ ExampleJson.quote "a" +:+ ":1".

(** Three calls; the text of call 0 arrives in two fragments, the other
    fragment arriving in between belongs to call 1, whose text is not
    valid JSON. *)
Definition example_stream : list chunk :=
  [Chunk [Delta (Some "Looking. ")
            (Some [TcDelta 0 (Some "call_a")
                     (Some (FnDelta (Some "grep") (Some open_a)))])];
   Chunk [Delta None
            (Some [TcDelta 1 (Some "call_b")
                     (Some (FnDelta (Some "ls") (Some "{oops")));
                   TcDelta 0 None (Some (FnDelta None (Some "}")))])];
   Chunk [Delta None
            (Some [TcDelta 2 (Some "call_c")
                     (Some (FnDelta (Some "glob") (Some "{}")))])]].

Definition tool_stream : list chunk :=
  [Chunk [Delta None
            (Some [TcDelta 0 (Some "call_0")
                     (Some (FnDelta (Some "ls") (Some "{}")))])]].

(** ** Vocabulary of the further properties *)

(** [grows k m]: [m] only appends to the history, to the yielded items
    and to the log, and calls the model at most [k] times. *)
Definition grows (k : nat) {A : Type} (m : M A) : Prop :=
  ∀ st, ∃ hs ys l,
    history (m st).2 = history st ++ hs
    ∧ yielded (m st).2 = yielded st ++ ys
    ∧ log (m st).2 = log st ++ l
    ∧ (model_calls l ≤ k)%nat.

(** A run of tool calls of the model, each followed by its result. *)
Inductive answered : list turn → Prop :=
| answered_nil : answered []
| answered_cons r fc res l :
    function_call r = Some fc →
    answered l →
    answered (ModelParts r :: FunctionParts (fc_name fc) res :: l).

(** The text a chunk makes [execute_stream] yield, if any. *)
Definition chunk_text (c : chunk) : option string :=
  match choices c with
  | d :: _ =>
      match d_content d with
      | Some s => if String.eqb s "" then None else Some s
      | None => None
      end
  | [] => None
  end.

(** The texts of a stream, in the order of arrival. *)
Definition stream_texts (stream : list chunk) : list string :=
  omap chunk_text stream.

(** The texts put together. *)
Definition join_texts (texts : list string) : string :=
  foldr String.append "" texts.

(** The turns [execute_stream] appends, which [_prepare_messages]
    converts. *)
Definition is_chat_turn (t : turn) : bool :=
  match t with
  | UserMessage _ | AssistantMessage _ _ | ToolMessage _ _ _ => true
  | _ => false
  end.

(** The tool message that answers a call. *)
Definition answers_call (tc : tool_call) (out : turn) : Prop :=
  ∃ content, out = ToolMessage (tc_id tc) (tc_name tc) content.

(** Writing over [notes.txt] without being asked. *)
Definition overwrite_notes : dict :=
  [("path", JStr "notes.txt"); ("contents", JStr "data"); ("yolo", JBool true)].

(** A stream of text with an empty piece and an empty list of fragments
    in between. *)
Definition text_stream : list chunk :=
  [Chunk [Delta (Some "Nine ") None]; Chunk [Delta (Some "") None];
   Chunk [Delta None (Some [])]; Chunk [Delta (Some "tools.") None]].

(** The example files with a second [notes.txt], one directory up, where
    [read_file] looks. *)
Definition files_above : filesystem :=
  <[ ["home"; "user"; "notes.txt"] := File "hello world" ]> example_files.

(** The message [_prepare_messages] puts first. *)
Definition system_messages (system_prompt : pystr) : list message :=
  match system_prompt with
  | Some p => if String.eqb p "" then [] else [SystemMsg p]
  | None => []
  end.

(** A turn in the chat format and the message made of it. *)
Definition converts (t : turn) (m : message) : Prop :=
  match t, m with
  | UserMessage c, UserMsg c' => c' = c
  | AssistantMessage c tcs, AssistantMsg c' tcs' => c' = c ∧ tcs' = tcs
  | ToolMessage id _ c, ToolMsg id' c' => id' = id ∧ c' = c
  | _, _ => False
  end.

(** The user turn of [execute]. *)
Definition is_user_parts (t : turn) : bool :=
  match t with UserParts _ => true | _ => false end.

(** ** [GeminiClient.generate_content] *)

(** [response_data['response']['candidates'][0]['content']['parts'][0]] *)
Definition first_part (response_data : json) : exn + json :=
  and_then (getitem response_data "response") (λ response,
  and_then (getitem response "candidates") (λ candidates,
  and_then (getitem0 candidates) (λ candidate,
  and_then (getitem candidate "content") (λ content,
  and_then (getitem content "parts") getitem0)))).

(** The body of the [try] after that line. *)
Definition reply_of_part (part : json) : exn + json :=
  and_then (get_method part "functionCall" JNull) (λ function_call,
    if truthy function_call then inr (JObj [("function_call", function_call)])
    else and_then (getitem part "text") (λ t, inr (JObj [("text", t)]))).

Section Gemini.
(** [f"{response_data}"] *)
Variable repr : json → string.

(** [generate_content] from the point where [_api_request] has returned
    [response_data]: the [try] with its [except (KeyError, IndexError)].
    What [_api_request] raises leaves [generate_content] as it is. *)
Definition generate_content (response_data : json) : exn + json :=
  match and_then (first_part response_data) reply_of_part with
  | inr reply => inr reply
  | inl e =>
      if catches ["KeyError"; "IndexError"] e then
        inl (Exn "Exception"
               ("Failed to parse response from Gemini: " +:+ repr response_data))
      else inl e
  end.
End Gemini.

(** ** [GeminiLLMEndpoint] *)

Section GeminiEndpoint.
(** [GeminiLLMEndpoint.generate], which [execute] calls. *)
Variable gemini_generate : list turn → exn + llm_response.

(** The class has the method [generate] and no other:
    [self._llm._prepare_messages], the first thing a turn of
    [execute_stream] asks of its endpoint, raises [AttributeError]. *)
Definition GeminiLLMEndpoint : Backend :=
  {| generate := gemini_generate;
     generate_stream := λ _,
       inl (AttributeError
              "'GeminiLLMEndpoint' object has no attribute '_prepare_messages'") |}.
End GeminiEndpoint.


(** ** The cache of the project id *)

(** [try: m except (c1, c2, ...): h] *)
Definition try_except_of {A : Type} (classes : list string) (m : M A) (h : M A)
  : M A := λ st,
  match m st with
  | (inl e, st') => if catches classes e then h st' else (inl e, st')
  | r => r
  end.

Section ProjectIdCache.
Context `{Host}.

(** [Path.home()], as the list of its components. *)
Variable home : list string.

Definition CREDENTIALS_DIR : pypath :=
  joinpath (joinpath (PyPath true home) (Path ".config")) (Path "mycli").

Definition PROJECT_ID_CACHE_PATH : pypath :=
  joinpath CREDENTIALS_DIR (Path "project_id.json").

Definition _load_cached_project_id : M json :=
  try_except_of ["JSONDecodeError"; "FileNotFoundError"; "KeyError"]
    (there ← Path_exists PROJECT_ID_CACHE_PATH;
     if (there : bool) then
       (* [json.load(f)] is [json.loads(f.read())] on a file opened as text *)
       text ← read_text PROJECT_ID_CACHE_PATH;
       match json_loads text with
       | None => raise (Exn "JSONDecodeError" (json_error text))
       | Some data => lift (get_method data "project_id" JNull)
       end
     else mret JNull)
    (mret JNull).

Definition _save_project_id (project_id : json) : M unit :=
  try_except
    (f ← get_fs;
     f1 ← os_call CREDENTIALS_DIR (mkdir_p getcwd f CREDENTIALS_DIR);
     put_fs f1;;
     f2 ← os_call PROJECT_ID_CACHE_PATH (os_write getcwd f1 PROJECT_ID_CACHE_PATH "");
     put_fs f2;;
     f3 ← os_call PROJECT_ID_CACHE_PATH
            (os_write getcwd f2 PROJECT_ID_CACHE_PATH
               (json_dumps (JObj [("project_id", project_id)])));
     put_fs f3)
    (λ e, mret tt).
End ProjectIdCache.

(** ** [ReadManyFilesTool.run] and [GrepTool.run] on arguments of the
    declared types *)

(** [d[k] = v] on a [dict]: the key keeps its place when it is there. *)
Fixpoint dict_set (k : string) (v : json) (d : dict) : dict :=
  match d with
  | [] => [(k, v)]
  | (k', v') :: d' =>
      if String.eqb k k' then (k, v) :: d' else (k', v') :: dict_set k v d'
  end.

(** Path resolution for a path given as text: as [walk], and ["."]
    names the directory reached, which must be one. *)
Fixpoint walk_text (fs : filesystem) (cur : list string) (ps : list string)
  : errno + list string :=
  match ps with
  | [] => inr cur
  | c :: ps' =>
      match node_at fs cur with
      | None => inl ENOENT
      | Some (File _) => inl ENOTDIR
      | Some Dir =>
          if String.eqb c ".." then walk_text fs (removelast cur) ps'
          else if String.eqb c "." then walk_text fs cur ps'
          else if (String.length c <=? NAME_MAX)%nat then walk_text fs (cur ++ [c]) ps'
          else inl ENAMETOOLONG
      end
  end.

Definition ends_with_slash (s : string) : bool :=
  match last (split_slash "" s) with
  | Some c => String.eqb c ""
  | None => false
  end.

(** [open(path_str, 'r')] followed by reading all of it, before the bytes
    are decoded.  The empty text names no file; a slash at the end asks
    for a directory. *)
Definition open_read (wd : list string) (fs : filesystem) (path_str : string)
  : errno + string :=
  if String.eqb path_str "" then inl ENOENT
  else if (PATH_MAX <=? String.length path_str)%nat then inl ENAMETOOLONG
  else
    let components :=
      filter (λ c, c ≠ "") (split_slash "" path_str)
      ++ (if ends_with_slash path_str then ["."] else []) in
    match walk_text fs (if String.prefix "/" path_str then [] else wd) components with
    | inl e => inl e
    | inr a =>
        match node_at fs a with
        | None => inl ENOENT
        | Some Dir => inl EISDIR
        | Some (File c) => inr c
        end
    end.

(** The [OSError] for a path given as text. *)
Definition OSError_text (e : errno) (path_str : string) : exn :=
  OSError e (PyPath false [path_str]).

Section ListTools.
Context `{Host}.

(** Decoding the bytes of a file opened as text with the default
    encoding; it may raise [UnicodeDecodeError]. *)
Variable decode : string → exn + string.

(** The body of the loop of [ReadManyFilesTool.run]: the entry for a
    path. *)
Definition read_entry (fs : filesystem) (path_str : string) : json :=
  match open_read getcwd fs path_str with
  | inl e => error_result (exn_str (OSError_text e path_str))
  | inr bytes =>
      match decode bytes with
      | inl e => error_result (exn_str e)
      | inr text => JStr text
      end
  end.

(** [ReadManyFilesTool.run(paths=paths)] for a list of strings. *)
Definition ReadManyFilesTool_run (paths : list string) (fs : filesystem) : json :=
  JObj (foldl (λ results path_str, dict_set path_str (read_entry fs path_str) results)
              [] paths).

(** [re.search(query, line, flags) is not None], where [flags] is 0 when
    [case_sensitive] and [re.IGNORECASE] otherwise; it raises [re.error]
    for a pattern that does not compile. *)
Variable re_search : string → string → bool → exn + bool.

(** The lines that iterating over a file opened with [encoding='utf-8',
    errors='ignore'] gives for its bytes. *)
Variable text_lines : string → list string.

(** [str.strip] *)
Variable strip : string → string.

(** [for i, line in enumerate(f, i): ...], giving [matches]. *)
Fixpoint grep_lines (query : string) (case_sensitive : bool) (i : nat)
    (lines : list string) : exn + list json :=
  match lines with
  | [] => inr []
  | line :: lines' =>
      match re_search query line case_sensitive with
      | inl e => inl e
      | inr found =>
          match grep_lines query case_sensitive (S i) lines' with
          | inl e => inl e
          | inr matches =>
              inr (if found then JStr (pretty i +:+ ": " +:+ strip line) :: matches
                   else matches)
          end
      end
  end.

(** [for path_str in paths: ...] inside the [try]. *)
Fixpoint grep_paths (query : string) (case_sensitive : bool) (fs : filesystem)
    (paths : list string) (results : dict) : exn + dict :=
  match paths with
  | [] => inr results
  | path_str :: paths' =>
      let path := Path path_str in
      match is_file getcwd fs path with
      | inl e => inl (OSError e path)
      | inr false =>
          grep_paths query case_sensitive fs paths'
            (dict_set path_str (error_result "Path is not a valid file.") results)
      | inr true =>
          match os_read getcwd fs path with
          | inl e => inl (OSError e path)
          | inr bytes =>
              match grep_lines query case_sensitive 1 (text_lines bytes) with
              | inl e => inl e
              | inr matches =>
                  grep_paths query case_sensitive fs paths'
                    (dict_set path_str
                       (match matches with
                        | [] => JStr "No matches found."
                        | _ => JArr matches
                        end) results)
              end
          end
      end
  end.

(** [GrepTool.run(query=query, paths=paths, case_sensitive=...)] for a
    string and a list of strings. *)
Definition GrepTool_run (query : string) (paths : list string)
    (case_sensitive : bool) (fs : filesystem) : json :=
  match grep_paths query case_sensitive fs paths [] with
  | inr results => JObj results
  | inl e => error_result (exn_str e)
  end.
End ListTools.

(** The example files after the directory of the cache has been made
    below the home directory [/home/user]. *)
Definition files_with_config : filesystem :=
  <[ ["home"; "user"; ".config"; "mycli"] := Dir ]>
  (<[ ["home"; "user"; ".config"] := Dir ]> example_files).

(** The example files with the line ends of Windows in [notes.txt]. *)
Definition crlf_files : filesystem :=
  <[ ["home"; "user"; "project"; "notes.txt"] :=
       File ("one" +:+ String CR (String LF "two two")) ]> example_files.

(** Arguments of [edit] that replace a text in [notes.txt] by ["2"]
    without asking. *)
Definition edit_two (search_text : string) : dict :=
  [("path", JStr "notes.txt"); ("search_text", JStr search_text);
   ("replace_text", JStr "2"); ("yolo", JBool true)].

(** A file name of 256 characters, one more than [NAME_MAX]. *)
Definition long_name : string :=
  string_of_list_ascii (replicate 256 "a"%char).

(** What [GrepTool.run] stores for a path when the search of its lines
    goes through. *)
Definition grep_entry `{Host} (re_search : string → string → bool → exn + bool)
    (text_lines : string → list string) (strip : string → string)
    (query : string) (case_sensitive : bool) (fs : filesystem)
    (path_str : string) : json :=
  match os_read getcwd fs (Path path_str) with
  | inr bytes =>
      match grep_lines re_search strip query case_sensitive 1 (text_lines bytes) with
      | inr (m :: matches) => JArr (m :: matches)
      | _ => JStr "No matches found."
      end
  | inl _ => error_result "Path is not a valid file."
  end.

(** Stand-ins for the text layer in examples: the file is one line,
    nothing is stripped, every byte decodes, and a pattern is searched
    as a literal. *)
Definition one_line (s : string) : list string := [s].
Definition literal_search (query line : string) (case_sensitive : bool)
  : exn + bool := inr (occurs query line).
Definition bad_pattern (query line : string) (case_sensitive : bool)
  : exn + bool := inl (Exn "error" "unterminated character set at position 0").

(** [still m]: [m] leaves the state as it found it, whether it returns
    or raises. *)
Definition still {A : Type} (m : M A) : Prop := ∀ st, (m st).2 = st.

(** [preserved R m]: the state [m] ends in is related by [R] to the
    state it started from, whether it returns or raises. *)
Definition preserved (R : state → state → Prop) {A : Type} (m : M A) : Prop :=
  ∀ st, R st (m st).2.

(** In a log: every run of a tool of [DANGEROUS_TOOLS] comes directly
    after the approval question of the agent. *)
Definition gated (l : list event) : Prop :=
  ∀ i name kw,
    l !! i = Some (ToolRun name kw) →
    name ∈ DANGEROUS_TOOLS →
    ∃ j, i = S j ∧ l !! j = Some (Asked "Approve this tool call?").

(** In a log: no tool of [DANGEROUS_TOOLS] was run. *)
Definition harmless (l : list event) : Prop :=
  ∀ name kw, ToolRun name kw ∈ l → name ∉ DANGEROUS_TOOLS.

(** From one state to a later one: the log has grown by a gated part. *)
Definition asked_first (st st' : state) : Prop :=
  ∃ l, log st' = log st ++ l ∧ gated l.

(** From one state to a later one: the files are the same and the log
    has grown by a harmless part. *)
Definition untouched (st st' : state) : Prop :=
  fs st' = fs st ∧ ∃ l, log st' = log st ++ l ∧ harmless l.

(** * Properties *)

(** ** Running monadic code *)

Lemma bind_inr {A B : Type} (m : M A) (f : A → M B) st a st' :
  m st = (inr a, st') → (m ≫= f) st = f a st'.
Proof. intros Hm. unfold mbind, M_bind. by rewrite Hm. Qed.

Lemma bind_inl {A B : Type} (m : M A) (f : A → M B) st e st' :
  m st = (inl e, st') → (m ≫= f) st = (inl e, st').
Proof. intros Hm. unfold mbind, M_bind. by rewrite Hm. Qed.

Lemma state_eta st :
  State (fs st) (history st) (asked st) (log st) (yielded st) = st.
Proof. by destruct st. Qed.

Ltac run := unfold mbind, M_bind, mret, M_ret; simpl.

Lemma model_calls_app l1 l2 :
  model_calls (l1 ++ l2) = (model_calls l1 + model_calls l2)%nat.
Proof. unfold model_calls. by rewrite filter_app, length_app. Qed.

Lemma model_calls_call l : model_calls (ModelCall :: l) = S (model_calls l).
Proof. unfold model_calls. by rewrite filter_cons_True. Qed.

Section AgentFacts.
Context `{Host} `{ReadOnlyTools} `{Backend}.
Variable yolo : bool.

Lemma execute_loop_S n st :
  execute_loop yolo (S n) st =
  match execute_turn yolo st with
  | (inr Continue, st') => execute_loop yolo n st'
  | (inr (Return v), st') => (inr v, st')
  | (inl e, st') => (inl e, st')
  end.
Proof.
  simpl. unfold mbind at 1, M_bind at 1.
  destruct (execute_turn yolo st) as [[e|[|v]] st']; reflexivity.
Qed.

Lemma llm_generate_inr st r :
  generate (history st) = inr r →
  llm_generate st =
    (inr r, State (fs st) (history st) (asked st) (log st ++ [ModelCall]) (yielded st)).
Proof. intros Hg. unfold llm_generate, emit, get_history. run. by rewrite Hg. Qed.

Lemma execute_turn_inr st r :
  generate (history st) = inr r →
  execute_turn yolo st =
    handle_response yolo r
      (State (fs st) (history st) (asked st) (log st ++ [ModelCall]) (yielded st)).
Proof.
  intros Hg. unfold execute_turn.
  by rewrite (bind_inr _ _ _ _ _ (llm_generate_inr st r Hg)).
Qed.
End AgentFacts.

(** ** What a tool can touch

    A tool asks the user and changes files; it does not call the model,
    and it leaves the history and the yielded items alone. *)

Lemma tool_runs_app l1 l2 :
  tool_runs (l1 ++ l2) = (tool_runs l1 + tool_runs l2)%nat.
Proof. unfold tool_runs. by rewrite filter_app, length_app. Qed.

Lemma frame_mono (k k' : nat) {A : Type} (m : M A) :
  (k ≤ k')%nat → frame k m → frame k' m.
Proof.
  intros Hk Hm st. destruct (Hm st) as (Hh & Hy & l & Hl & Hc & Ht).
  repeat split; try done. exists l. repeat split; try done. lia.
Qed.

Lemma quiet_same {A : Type} (m : M A) :
  (∀ st, ∃ r f, m st = (r, State f (history st) (asked st) (log st) (yielded st))) →
  quiet m.
Proof.
  intros Hm st. destruct (Hm st) as (r & f & ->). simpl.
  repeat split; try done. exists []. by rewrite app_nil_r.
Qed.

Lemma quiet_ret {A : Type} (a : A) : quiet (mret a).
Proof.
  apply quiet_same. intros st. exists (inr a), (fs st). by rewrite state_eta.
Qed.

Lemma quiet_raise {A : Type} (e : exn) : quiet (@raise A e).
Proof.
  apply quiet_same. intros st. exists (inl e), (fs st). by rewrite state_eta.
Qed.

Lemma frame_bind (k1 k2 : nat) {A B : Type} (m : M A) (f : A → M B) :
  frame k1 m → (∀ a, frame k2 (f a)) → frame (k1 + k2) (m ≫= f).
Proof.
  intros Hm Hf st. unfold mbind, M_bind.
  destruct (Hm st) as (Hh & Hy & l & Hl & Hc & Ht).
  destruct (m st) as [[e|a] st1]; simpl in *.
  - repeat split; try done. exists l. repeat split; try done. lia.
  - destruct (Hf a st1) as (Hh' & Hy' & l' & Hl' & Hc' & Ht').
    rewrite Hh', Hy', Hl'. repeat split; try done.
    exists (l ++ l'). rewrite Hl, <- app_assoc. split; [done|].
    rewrite model_calls_app, tool_runs_app. lia.
Qed.

Lemma quiet_bind {A B : Type} (m : M A) (f : A → M B) :
  quiet m → (∀ a, quiet (f a)) → quiet (m ≫= f).
Proof. apply (frame_bind 0 0). Qed.

Lemma frame_try (k1 k2 : nat) {A : Type} (m : M A) (h : exn → M A) :
  frame k1 m → (∀ e, frame k2 (h e)) → frame (k1 + k2) (try_except m h).
Proof.
  intros Hm Hh st. unfold try_except.
  destruct (Hm st) as (Hh1 & Hy & l & Hl & Hc & Ht).
  destruct (m st) as [[e|a] st1]; simpl in *.
  - destruct (Hh e st1) as (Hh' & Hy' & l' & Hl' & Hc' & Ht').
    rewrite Hh', Hy', Hl'. repeat split; try done.
    exists (l ++ l'). rewrite Hl, <- app_assoc. split; [done|].
    rewrite model_calls_app, tool_runs_app. lia.
  - repeat split; try done. exists l. repeat split; try done. lia.
Qed.

Lemma quiet_try {A : Type} (m : M A) (h : exn → M A) :
  quiet m → (∀ e, quiet (h e)) → quiet (try_except m h).
Proof. apply (frame_try 0 0). Qed.

Lemma quiet_get_fs : quiet get_fs.
Proof.
  apply quiet_same. intros st. exists (inr (fs st)), (fs st). by rewrite state_eta.
Qed.

Lemma quiet_put_fs f : quiet (put_fs f).
Proof. apply quiet_same. intros st. by exists (inr tt), f. Qed.

Lemma quiet_os_call {A : Type} p (r : errno + A) : quiet (os_call p r).
Proof. destruct r; [apply quiet_raise | apply quiet_ret]. Qed.

Lemma frame_tool_run name kw : frame 1 (emit (ToolRun name kw)).
Proof.
  intros st. simpl. repeat split; try done. exists [ToolRun name kw].
  repeat split; done.
Qed.

Lemma quiet_read_only t kw : quiet (read_only t kw).
Proof.
  apply quiet_same. intros st. exists (t kw (fs st)), (fs st).
  unfold read_only. by rewrite state_eta.
Qed.

Create HintDb quiet.
#[global] Hint Resolve quiet_ret quiet_raise quiet_get_fs quiet_put_fs
  quiet_os_call quiet_read_only : quiet.

(** Splits a goal [quiet m] along the shape of [m]. *)
Ltac quiet_step :=
  match goal with
  | |- quiet (_ ≫= _) => apply quiet_bind; [|intros ?]
  | |- quiet (try_except _ _) => apply quiet_try; [|intros ?]
  | |- quiet (match ?x with _ => _ end) => destruct x
  | |- quiet (let '(_, _) := ?x in _) => destruct x
  | |- quiet _ => solve [eauto with quiet]
  end.

Ltac quiet_tac := repeat quiet_step.

Section ToolFacts.
Context `{Host} `{ReadOnlyTools}.

Lemma quiet_Prompt_ask q : quiet (Prompt_ask q).
Proof.
  intros st. simpl. repeat split; try done. exists [Asked q].
  repeat split; done.
Qed.

Lemma quiet_rich_print text : quiet (rich_print text).
Proof. unfold rich_print. quiet_tac. Qed.

Lemma quiet_console_print c text : quiet (console_print c text).
Proof. unfold console_print. pose proof quiet_rich_print. quiet_tac. Qed.

Lemma quiet_required t a kw : quiet (required t a kw).
Proof. unfold required. quiet_tac. Qed.

Lemma quiet_to_Path p : quiet (to_Path p).
Proof. unfold to_Path. quiet_tac. Qed.

Lemma quiet_lift {A : Type} (r : exn + A) : quiet (lift r).
Proof. unfold lift. quiet_tac. Qed.

Lemma quiet_Path_exists p : quiet (Path_exists p).
Proof. unfold Path_exists. quiet_tac. Qed.

Lemma quiet_Path_is_file p : quiet (Path_is_file p).
Proof. unfold Path_is_file. quiet_tac. Qed.

Lemma quiet_read_text p : quiet (read_text p).
Proof. unfold read_text. pose proof @quiet_lift. quiet_tac. Qed.

Hint Resolve quiet_Prompt_ask quiet_rich_print quiet_console_print quiet_required
  quiet_to_Path quiet_lift quiet_Path_exists quiet_Path_is_file quiet_read_text : quiet.

Lemma quiet_show_diff tool_args : quiet (show_diff tool_args).
Proof. unfold show_diff. quiet_tac. Qed.

Lemma quiet_announce name args : quiet (announce name args).
Proof. unfold announce. pose proof quiet_show_diff. quiet_tac. Qed.

(** A print leaves the state as it is, also when it raises. *)
Lemma rich_print_state text st : (rich_print text st).2 = st.
Proof. unfold rich_print. by destruct (markup_error text). Qed.

Lemma rich_print_inr text st :
  markup_error text = None → rich_print text st = (inr tt, st).
Proof. intros Hm. unfold rich_print. by rewrite Hm. Qed.


(** On a console argument that is absent or falsy, a print is rich's. *)
Lemma console_print_rich kw text :
  from_option truthy false (dict_get "console" kw) = false →
  console_print (dict_get "console" kw) text = rich_print text.
Proof.
  intros Hcon. unfold console_print.
  destruct (dict_get "console" kw) as [c|]; [|done]. simpl in Hcon. by rewrite Hcon.
Qed.

Lemma quiet_ShellTool_run kw : quiet (ShellTool_run kw).
Proof. unfold ShellTool_run, ShellTool_exec. quiet_tac. Qed.

Lemma quiet_EditTool_run kw : quiet (EditTool_run kw).
Proof. unfold EditTool_run, EditTool_body, EditTool_replace. quiet_tac. Qed.

Lemma quiet_WriteFileTool_run kw : quiet (WriteFileTool_run kw).
Proof.
  unfold WriteFileTool_run, WriteFileTool_try, WriteFileTool_body. quiet_tac.
Qed.

Lemma quiet_ReadFileTool_run kw : quiet (ReadFileTool_run kw).
Proof. unfold ReadFileTool_run, ReadFileTool_slice. quiet_tac. Qed.

Hint Resolve quiet_ShellTool_run quiet_EditTool_run quiet_WriteFileTool_run
  quiet_ReadFileTool_run : quiet.

Lemma dangerous_registered name :
  name ∈ DANGEROUS_TOOLS → name ∈ registered.
Proof.
  unfold DANGEROUS_TOOLS, registered. rewrite !elem_of_cons, elem_of_nil.
  intros [->|[->|[->|[]]]]; tauto.
Qed.

Lemma ToolRegistry_None name :
  name ∉ registered → ToolRegistry !! name = None.
Proof.
  intros Hn. unfold ToolRegistry, register.
  repeat (rewrite lookup_insert_ne;
          [|intros <-; apply Hn; unfold registered; rewrite !elem_of_cons;
            tauto]).
  apply lookup_empty.
Qed.

Lemma quiet_registered name t kw :
  ToolRegistry !! name = Some t → quiet (t kw).
Proof.
  unfold ToolRegistry, register. rewrite !lookup_insert.
  repeat case_decide; intros [= <-]; eauto with quiet.
Qed.

Lemma frame_ToolRegistry_run name kw : frame 1 (ToolRegistry_run name kw).
Proof.
  unfold ToolRegistry_run.
  destruct (ToolRegistry !! name) as [t|] eqn:Ht;
    [|apply (frame_mono 0); [lia | apply quiet_raise]].
  apply (frame_bind 1 0); [apply frame_tool_run|]. intros _.
  by apply (quiet_registered name).
Qed.

Lemma frame_ToolRegistry_run_splat name args :
  frame 1 (ToolRegistry_run_splat name args).
Proof.
  unfold ToolRegistry_run_splat.
  destruct args; try (apply (frame_mono 0); [lia | apply quiet_raise]).
  apply frame_ToolRegistry_run.
Qed.
End ToolFacts.

#[global] Hint Resolve quiet_Prompt_ask : quiet.

(** ** One turn of [execute] *)

Section TurnFacts.
Context `{Host} `{ReadOnlyTools} `{Backend}.
Variable yolo : bool.

Lemma frame_approve_and_run name args :
  frame 1 (approve_and_run yolo name args).
Proof.
  unfold approve_and_run.
  destruct (bool_decide (name ∈ DANGEROUS_TOOLS) && negb yolo).
  - apply (frame_bind 0 1); [apply quiet_announce|]. intros _.
    apply (frame_bind 0 1); [apply quiet_Prompt_ask|]. intros a.
    destruct (negb (String.eqb a "y")); [apply (frame_mono 0); [lia | apply quiet_ret]|].
    apply (frame_bind 0 1); [apply quiet_rich_print|]. intros _.
    apply frame_ToolRegistry_run_splat.
  - apply (frame_bind 0 1); [apply quiet_rich_print|]. intros _.
    apply frame_ToolRegistry_run_splat.
Qed.

(** A reply with a tool call: the call is appended, the approval check
    and the tool run, and their result is appended. *)
Lemma handle_response_call st r fc :
  function_call r = Some fc →
  handle_response yolo r st =
    match approve_and_run yolo (fc_name fc) (default (JObj []) (fc_args fc))
            (State (fs st) (history st ++ [ModelParts r]) (asked st) (log st)
                   (yielded st)) with
    | (inr res, st') =>
        (inr Continue,
         State (fs st') (history st' ++ [FunctionParts (fc_name fc) res])
               (asked st') (log st') (yielded st'))
    | (inl e, st') => (inl e, st')
    end.
Proof.
  intros Hfc. unfold handle_response. rewrite Hfc.
  unfold history_append, history_extend. run.
  by destruct (approve_and_run _ _ _ _) as [[e|res] st'].
Qed.

(** What a turn with a tool call does to the state. *)
Lemma execute_turn_call st r fc :
  generate (history st) = inr r →
  function_call r = Some fc →
  ∃ out st' l,
    execute_turn yolo st = (out, st')
    ∧ log st' = log st ++ ModelCall :: l
    ∧ model_calls l = 0%nat ∧ (tool_runs l ≤ 1)%nat
    ∧ yielded st' = yielded st
    ∧ match out with
      | inr c =>
          c = Continue
          ∧ ∃ res, history st' =
                   history st ++ [ModelParts r; FunctionParts (fc_name fc) res]
      | inl _ => history st' = history st ++ [ModelParts r]
      end.
Proof.
  intros Hg Hfc. rewrite (execute_turn_inr yolo st r Hg).
  rewrite (handle_response_call _ r fc Hfc). simpl.
  set (st1 := State _ _ _ _ _).
  destruct (frame_approve_and_run (fc_name fc) (default (JObj []) (fc_args fc)) st1)
    as (Hh & Hy & l & Hl & Hc & Ht).
  destruct (approve_and_run _ _ _ _) as [[e|res] st2]; simpl in *.
  - exists (inl e), st2, l. rewrite Hl, Hh, Hy. simpl.
    rewrite <- app_assoc. by repeat split.
  - eexists (inr Continue), _, l. split; [reflexivity|]. simpl.
    rewrite Hl, Hh, Hy. simpl. rewrite <- !app_assoc. repeat split; try done.
    by exists res.
Qed.

(** The agent's own question, printed and answered "n": the tool is not
    run. *)
Lemma approve_and_run_rejected name args st :
  name ∈ DANGEROUS_TOOLS →
  yolo = false →
  announce name args st = (inr tt, st) →
  answers (asked st) = false →
  approve_and_run yolo name args st =
    (inr (rejected name),
     State (fs st) (history st) (S (asked st))
           (log st ++ [Asked "Approve this tool call?"]) (yielded st)).
Proof.
  intros Hd -> Hprint Hans. unfold approve_and_run.
  rewrite bool_decide_true by done. simpl.
  rewrite (bind_inr _ _ _ _ _ Hprint).
  unfold Prompt_ask. run. by rewrite Hans.
Qed.

Lemma _execute_tool_rejected name args st :
  name ∈ DANGEROUS_TOOLS →
  yolo = false →
  markup_error (tool_call_text name args) = None →
  answers (asked st) = false →
  _execute_tool yolo (Some name) args st =
    (inr (rejected name),
     State (fs st) (history st) (S (asked st))
           (log st ++ [Asked "Approve this tool call?"]) (yielded st)).
Proof.
  intros Hd -> Hprint Hans. unfold _execute_tool, is_dangerous.
  rewrite bool_decide_true by done. simpl.
  rewrite (bind_inr _ _ _ _ _ (rich_print_inr _ st Hprint)).
  unfold Prompt_ask. run. by rewrite Hans.
Qed.

(** A tool that is not registered: [ToolRegistry.run] raises. *)
Lemma approve_and_run_unknown name kw st :
  name ∉ registered →
  markup_error (executing_text name (JObj kw)) = None →
  approve_and_run yolo name (JObj kw) st = (inl (KeyError name), st).
Proof.
  intros Hn Hprint. unfold approve_and_run.
  assert (name ∉ DANGEROUS_TOOLS) as Hd by (intros Hd; by apply Hn, dangerous_registered).
  rewrite bool_decide_false by done. simpl.
  rewrite (bind_inr _ _ _ _ _ (rich_print_inr _ st Hprint)).
  unfold ToolRegistry_run_splat, ToolRegistry_run. by rewrite ToolRegistry_None.
Qed.

Lemma _execute_tool_unknown name kw st :
  name ∉ registered →
  _execute_tool yolo (Some name) (JObj kw) st =
    (inr (error_result ("Error executing tool " +:+ name +:+ ": "
                        +:+ exn_str (KeyError name))), st).
Proof.
  intros Hn. unfold _execute_tool, is_dangerous.
  assert (name ∉ DANGEROUS_TOOLS) as Hd by (intros Hd; by apply Hn, dangerous_registered).
  rewrite bool_decide_false by done. simpl.
  unfold run_caught, try_except, ToolRegistry_run.
  by rewrite ToolRegistry_None.
Qed.
End TurnFacts.

(** ** The loop of [execute] *)

Section LoopFacts.
Context `{Host} `{ReadOnlyTools} `{Backend}.
Variable yolo : bool.

(** Every turn starts with one call of the model. *)
Lemma execute_turn_log st :
  ∃ l, log (execute_turn yolo st).2 = log st ++ ModelCall :: l
       ∧ model_calls l = 0%nat.
Proof.
  destruct (generate (history st)) as [e|r] eqn:Hg.
  - exists []. unfold execute_turn, llm_generate, emit, get_history. run.
    by rewrite Hg.
  - destruct (function_call r) as [fc|] eqn:Hfc.
    + destruct (execute_turn_call yolo st r fc Hg Hfc)
        as (out & st' & l & -> & Hl & Hc & _). by exists l.
    + exists []. rewrite (execute_turn_inr yolo st r Hg).
      unfold handle_response. rewrite Hfc.
      by destruct (text r).
Qed.

Lemma execute_loop_log n st :
  ∃ l, log (execute_loop yolo n st).2 = log st ++ l
       ∧ (n = O → l = [])
       ∧ (n ≠ O → 1 ≤ model_calls l)%nat.
Proof.
  revert st. induction n as [|n IH]; intros st.
  - exists []. simpl. by rewrite app_nil_r.
  - rewrite execute_loop_S.
    destruct (execute_turn_log st) as (l & Hl & _).
    destruct (execute_turn yolo st) as [[e|[|v]] st']; simpl in *.
    + exists (ModelCall :: l). repeat split; try done.
      intros _. rewrite model_calls_call. lia.
    + destruct (IH st') as (l' & Hl' & _). rewrite Hl', Hl.
      exists (ModelCall :: l ++ l'). rewrite <- app_assoc. repeat split; try done.
      intros _. rewrite model_calls_call. lia.
    + exists (ModelCall :: l). repeat split; try done.
      intros _. rewrite model_calls_call. lia.
Qed.

(** When every reply is a tool call and every turn comes back, the
    loop calls the model once per turn and then gives the turn-limit
    error. *)
Lemma execute_loop_exhausted n st :
  (∀ h, ∃ r fc, generate h = inr r ∧ function_call r = Some fc) →
  (∀ st0, ∃ c st1, execute_turn yolo st0 = (inr c, st1)) →
  ∃ st', execute_loop yolo n st = (inr (Some turn_limit_error), st')
         ∧ model_calls (log st') = (model_calls (log st) + n)%nat.
Proof.
  intros Hcall Hback. revert st. induction n as [|n IH]; intros st.
  - exists st. simpl. split; [done|lia].
  - rewrite execute_loop_S.
    destruct (Hcall (history st)) as (r & fc & Hg & Hfc).
    destruct (execute_turn_call yolo st r fc Hg Hfc)
      as (out & st1 & l & Hturn & Hl & Hc & _ & _ & Hout).
    destruct (Hback st) as (c & st1' & Hturn').
    rewrite Hturn in Hturn'. injection Hturn' as -> <-.
    rewrite Hturn. destruct Hout as [-> _].
    destruct (IH st1) as (st' & Hloop & Hcalls).
    exists st'. split; [done|]. rewrite Hcalls, Hl.
    rewrite model_calls_app, model_calls_call. lia.
Qed.
End LoopFacts.

(** The two error strings of [execute] differ whatever the reply was. *)
Lemma turn_limit_not_invalid (s : string) :
  turn_limit_error ≠ "Error: Invalid response from LLM: " +:+ s.
Proof. unfold turn_limit_error. simpl. discriminate. Qed.

(** ** Blocking mode: text replies, rejected calls, unknown tools *)

(** A reply with final text and no tool call ends [execute] at once. *)
Lemma execute_text `{Host} `{ReadOnlyTools} `{Backend}
    (yolo : bool) prompt max_turns st r t :
  0 < max_turns →
  generate (history st ++ [UserParts prompt]) = inr r →
  function_call r = None →
  text r = Some t →
  execute yolo prompt max_turns st =
    (inr t,
     State (fs st)
           (history st ++ [UserParts prompt; ModelParts (Response None (Some t) None)])
           (asked st) (log st ++ [ModelCall]) (yielded st)).
Proof.
  intros Hpos Hg Hfc Htext. unfold execute, history_append, history_extend.
  destruct (Z.to_nat max_turns) as [|n] eqn:Hn; [lia|].
  unfold mbind at 1, M_bind at 1. rewrite execute_loop_S.
  rewrite (execute_turn_inr _ _ r) by exact Hg.
  unfold handle_response. rewrite Hfc, Htext.
  unfold history_append, history_extend. run.
  by rewrite <- app_assoc.
Qed.

(** C7.  For every prompt, when the first reply of the backend is
    [{"text": t}], [execute] returns [t] as it is.  The log gains one call
    of the model and nothing else (no tool is run, nothing is asked), the
    files are untouched, and the history ends with the prompt followed by
    the text as the model's turn. *)
Theorem execute_returns_first_text `{Host} `{ReadOnlyTools} `{Backend}
    (yolo : bool) (prompt : string) (max_turns : Z) (st : state) (t : pystr) :
  0 < max_turns →
  generate (history st ++ [UserParts prompt]) = inr (Response None (Some t) None) →
  execute yolo prompt max_turns st =
    (inr t,
     State (fs st)
           (history st ++ [UserParts prompt; ModelParts (Response None (Some t) None)])
           (asked st) (log st ++ [ModelCall]) (yielded st)).
Proof.
  intros Hpos Hg.
  by apply (execute_text yolo prompt max_turns st (Response None (Some t) None) t).
Qed.

Lemma execute_returns_first_text_witness :
  0 < default_max_turns
  ∧ @execute (example_host false) example_tools (constant_backend summary_reply [])
      false "summarize this repo" default_max_turns (empty_state ∅)
    = (inr (Some "A command-line agent with nine tools."),
       State ∅ [UserParts "summarize this repo"; ModelParts summary_reply]
             0 [ModelCall] []).
Proof.
  split; [reflexivity|].
  apply (@execute_returns_first_text (example_host false) example_tools
           (constant_backend summary_reply []) false "summarize this repo"
           default_max_turns (empty_state ∅)); reflexivity.
Defined.

(** C2.  A dangerous tool call whose approval question is answered "n"
    (the agent not being in yolo mode; the question is reached when what
    is printed before it raises nothing): the turn asks once and goes
    through [ToolRegistry.run] not at all, so the files are as before; the
    result appended to the history after the model's call is the
    [{"error": ...}] of the rejection; the turn ends with [continue], so
    the loop goes on from that history, and with a turn left the model is
    called again.  In the streaming mode the call is announced, the same
    question is asked, and the tool message of the call holds the same
    error, the tool not being run. *)
Theorem rejected_tool_call_not_run `{Host} `{ReadOnlyTools} `{Backend}
    (st : state) (r : llm_response) (fc : fcall) :
  generate (history st) = inr r →
  function_call r = Some fc →
  fc_name fc ∈ DANGEROUS_TOOLS →
  (∀ s, fs s = fs st →
        announce (fc_name fc) (default (JObj []) (fc_args fc)) s = (inr tt, s)) →
  answers (asked st) = false →
  let st' :=
    State (fs st)
          (history st ++ [ModelParts r;
                          FunctionParts (fc_name fc) (rejected (fc_name fc))])
          (S (asked st))
          (log st ++ [ModelCall; Asked "Approve this tool call?"])
          (yielded st) in
  execute_turn false st = (inr Continue, st')
  ∧ is_error (rejected (fc_name fc)) = true
  ∧ tool_runs (log st') = tool_runs (log st)
  ∧ (∀ n, execute_loop false (S n) st = execute_loop false n st')
  ∧ (∀ n, model_calls (log st) + 2
          ≤ model_calls (log (execute_loop false (S (S n)) st).2))%nat
  ∧ (∀ tc args st0,
       tc_name tc = Some (fc_name fc) →
       json_loads (tc_arguments tc) = Some args →
       markup_error (tool_call_text (fc_name fc) args) = None →
       answers (asked st0) = false →
       handle_tool_call false tc st0 =
         (inr (ToolMessage (tc_id tc) (tc_name tc)
                 (json_dumps (rejected (fc_name fc)))),
          State (fs st0) (history st0) (S (asked st0))
                (log st0 ++ [Asked "Approve this tool call?"])
                (yielded st0 ++ [YieldTool (tc_name tc) args]))).
Proof.
  intros Hg Hfc Hd Hprint Hans st'.
  assert (execute_turn false st = (inr Continue, st')) as Hturn.
  { rewrite (execute_turn_inr false st r Hg), (handle_response_call false _ r fc Hfc).
    rewrite approve_and_run_rejected by (done || by apply Hprint). simpl.
    unfold st'. by rewrite <- !app_assoc. }
  assert (∀ n, execute_loop false (S n) st = execute_loop false n st') as Hloop.
  { intros n. by rewrite execute_loop_S, Hturn. }
  repeat split.
  - exact Hturn.
  - unfold st'. simpl. rewrite tool_runs_app.
    change (tool_runs [ModelCall; Asked "Approve this tool call?"]) with 0%nat.
    lia.
  - exact Hloop.
  - intros n. rewrite Hloop.
    destruct (execute_loop_log false (S n) st') as (l & -> & _ & Hl).
    unfold st'. simpl. rewrite !model_calls_app.
    specialize (Hl ltac:(done)).
    change (model_calls [ModelCall; Asked "Approve this tool call?"]) with 1%nat.
    lia.
  - intros tc args st0 Hname Hargs Hprint0 Hans0. unfold handle_tool_call.
    rewrite Hargs, Hname.
    rewrite (bind_inr (yield _) _ st0 tt _ eq_refl).
    by rewrite (bind_inr _ _ _ _ _
                  (_execute_tool_rejected false (fc_name fc) args
                     (State (fs st0) (history st0) (asked st0) (log st0)
                            (yielded st0 ++ [YieldTool (Some (fc_name fc)) args]))
                     Hd eq_refl Hprint0 Hans0)).
Qed.

Lemma rejected_tool_call_not_run_witness :
  @execute_turn (example_host false) example_tools (constant_backend shell_call [])
    false (empty_state ∅)
  = (inr Continue,
     State ∅ [ModelParts shell_call; FunctionParts "shell" (rejected "shell")]
           1 [ModelCall; Asked "Approve this tool call?"] []).
Proof.
  apply (@rejected_tool_call_not_run (example_host false) example_tools
           (constant_backend shell_call []) (empty_state ∅) shell_call
           (FCall "shell" (Some (JObj [("command", JStr "rm -rf build")])))).
  - reflexivity.
  - reflexivity.
  - unfold DANGEROUS_TOOLS. simpl. apply list_elem_of_here.
  - intros s _. reflexivity.
  - reflexivity.
Defined.

(** A reply asking for a tool that is not registered: the [KeyError] of
    [ToolRegistry.get] leaves [execute]; the call is in the history, a
    result for it is not. *)
Lemma execute_turn_unknown_tool `{Host} `{ReadOnlyTools} `{Backend}
    (yolo : bool) st r name kw :
  generate (history st) = inr r →
  function_call r = Some (FCall name (Some (JObj kw))) →
  name ∉ registered →
  markup_error (executing_text name (JObj kw)) = None →
  execute_turn yolo st =
    (inl (KeyError name),
     State (fs st) (history st ++ [ModelParts r]) (asked st)
           (log st ++ [ModelCall]) (yielded st)).
Proof.
  intros Hg Hfc Hn Hprint.
  rewrite (execute_turn_inr yolo st r Hg), (handle_response_call yolo _ r _ Hfc).
  simpl. by rewrite approve_and_run_unknown.
Qed.

(** C5.  At a reply asking for the tool ["search_code"], which is not
    registered, [execute] does not turn the failure into a tool result:
    the [KeyError] leaves [execute] after the first call of the model, and
    the history has the model's call without a result.  [_execute_tool],
    the path of the streaming mode, does return an [{"error": ...}] for
    the same call. *)
Theorem unknown_tool_escapes_execute :
  @execute (example_host true) example_tools (constant_backend unknown_call [])
    false "find main" default_max_turns (empty_state ∅)
  = (inl (KeyError "search_code"),
     State ∅ [UserParts "find main"; ModelParts unknown_call] 0 [ModelCall] [])
  ∧ @_execute_tool (example_host true) example_tools false (Some "search_code")
      (JObj [("query", JStr "main")]) (empty_state ∅)
    = (inr (error_result "Error executing tool search_code: 'search_code'"),
       empty_state ∅).
Proof. split; reflexivity. Qed.

(** C3.  With [max_turns = 2] and a backend whose every reply asks for the
    unregistered tool ["search_code"], [execute] calls the model once, not
    twice, and ends with the [KeyError] instead of the turn-limit error. *)
Theorem unknown_tool_cuts_turns_short :
  let out := @execute (example_host true) example_tools
               (constant_backend unknown_call []) false "find main" 2
               (empty_state ∅) in
  out.1 = inl (KeyError "search_code")
  ∧ out.1 ≠ inr (Some turn_limit_error)
  ∧ model_calls (log out.2) = 1%nat.
Proof. split; [reflexivity|]. split; [discriminate | reflexivity]. Qed.

(** In yolo mode the agent itself asks nothing. *)
Lemma yolo_agent_asks_nothing `{Host} `{ReadOnlyTools} name args :
  approve_and_run true name args
  = (rich_print (executing_text name args);;
     ToolRegistry_run_splat name args)
  ∧ ∀ tool_name, _execute_tool true tool_name args = run_caught tool_name args.
Proof.
  split.
  - unfold approve_and_run. by rewrite andb_false_r.
  - intros tool_name. unfold _execute_tool. by rewrite andb_false_r.
Qed.

(** The shell tool asks on its own unless its argument [yolo] is set, and
    the agent passes only the arguments the model gave. *)
Lemma ShellTool_run_asks `{Host} (kw : dict) (command : json) st :
  dict_get "command" kw = Some command →
  dict_get "yolo" kw = None →
  dict_get "console" kw = None →
  markup_error (shell_command command) = None →
  ∃ res f,
    ShellTool_run kw st =
      (inr res, State f (history st) (S (asked st))
                      (log st ++ [Asked "Approve this command?"]) (yielded st))
    ∧ (answers (asked st) = false →
       f = fs st ∧ res = error_result "User rejected the shell command.").
Proof.
  intros Hc Hy Hcon Hprint. unfold ShellTool_run, required, kw_yolo, console_print.
  rewrite Hc, Hy, Hcon. run. unfold rich_print. rewrite Hprint.
  unfold Prompt_ask. run.
  destruct (answers (asked st)); simpl.
  - unfold ShellTool_exec, get_fs, put_fs. run.
    destruct (subprocess_run command (fs st)) as [f' [out err|rc out err|e]];
      simpl; eexists _, f'; split; (reflexivity || discriminate).
  - eexists _, (fs st). split; [reflexivity|done].
Qed.

(** C1.  The agent in yolo mode, a reply asking for [shell] with the
    command ["ls"]: the agent asks nothing, the tool itself asks "Approve
    this command?"; the user answering "n", the command is not run and the
    result is the tool's rejection. *)
Theorem yolo_shell_call_still_asks :
  @execute_turn (example_host false) example_tools (constant_backend list_call [])
    true (empty_state ∅)
  = (inr Continue,
     State ∅
       [ModelParts list_call;
        FunctionParts "shell" (error_result "User rejected the shell command.")]
       1
       [ModelCall; ToolRun "shell" [("command", JStr "ls")];
        Asked "Approve this command?"]
       []).
Proof. reflexivity. Qed.

(** ** The Groq endpoint in blocking mode *)

(** With several tool calls in the reply, [generate] looks at the first
    only. *)
Lemma groq_reply_first `{Host} content first rest others :
  groq_reply (inr (ApiMessage content (Some (first :: rest)) :: others))
  = groq_reply (inr [ApiMessage content (Some [first])]).
Proof. reflexivity. Qed.

(** [_prepare_messages] cannot convert the user turn [execute] appends. *)
Lemma prepare_turns_UserParts (h : list turn) (prompt : string) :
  prepare_turns (h ++ [UserParts prompt]) = inl (KeyError "content").
Proof.
  induction h as [|t h IH]; [done|]. simpl. rewrite IH.
  by destruct t.
Qed.

(** So [execute] over the Groq endpoint ends in its first turn with the
    [KeyError] of [_prepare_messages], before any request is sent. *)
Lemma execute_groq_raises `{Host} `{ReadOnlyTools} system_prompt create create_stream
    (yolo : bool) (prompt : string) (max_turns : Z) (st : state) :
  0 < max_turns →
  @execute _ _ (GroqLLMEndpoint system_prompt create create_stream)
    yolo prompt max_turns st
  = (inl (KeyError "content"),
     State (fs st) (history st ++ [UserParts prompt]) (asked st)
           (log st ++ [ModelCall]) (yielded st)).
Proof.
  intros Hpos. unfold execute.
  rewrite (bind_inr (history_append _) _ st tt _ eq_refl).
  destruct (Z.to_nat max_turns) as [|n] eqn:Hn; [lia|].
  rewrite execute_loop_S. unfold execute_turn, llm_generate, emit, get_history.
  run. unfold groq_generate, _prepare_messages.
  by rewrite prepare_turns_UserParts.
Qed.

(** C9.  [execute] over the Groq endpoint, the service answering every
    request with two tool calls: the [KeyError] of [_prepare_messages]
    leaves [execute] in the first turn, so the agent gets no call at all
    and the history has the prompt and no tool result.  On the same
    prompt as [execute_stream] appends it, [generate] does return the
    first of the two calls and drops the other. *)
Theorem groq_blocking_turn_gets_no_call :
  @execute (example_host true) example_tools
    (@GroqLLMEndpoint (example_host true) None (two_calls "{}") (λ _, []))
    false "list the files" default_max_turns (empty_state ∅)
  = (inl (KeyError "content"),
     State ∅ [UserParts "list the files"] 0 [ModelCall] [])
  ∧ two_calls "{}" [UserMsg "list the files"]
    = inr [ApiMessage None (Some [ApiToolCall "ls" "{}"; ApiToolCall "glob" "{}"])]
  ∧ @generate (@GroqLLMEndpoint (example_host true) None (two_calls "{}") (λ _, []))
      [UserMessage "list the files"]
    = inr (Response (Some (FCall "ls" (Some (JObj [])))) None None).
Proof. repeat split; reflexivity. Qed.

(** ** Strings: the first occurrence *)

Lemma append_String a s t : String a s +:+ t = String a (s +:+ t).
Proof. reflexivity. Qed.

Lemma append_Empty t : "" +:+ t = t.
Proof. reflexivity. Qed.

Lemma prefix_true old s :
  String.prefix old s = true → s = old +:+ drop_string (String.length old) s.
Proof.
  revert s. induction old as [|a old IH]; intros s Hp; [done|].
  destruct s as [|b s]; simpl in Hp; [done|].
  destruct (ascii_dec a b) as [<-|]; [|done].
  simpl. rewrite append_String. f_equal. by apply IH.
Qed.

Lemma prefix_app old post : String.prefix old (old +:+ post) = true.
Proof.
  induction old as [|a old IH]; [by destruct post|].
  rewrite append_String. simpl. by destruct (ascii_dec a a).
Qed.

(** [replace_first] takes the leftmost place where [old] starts. *)
Lemma replace_first_Some old new s s' :
  replace_first old new s = Some s' →
  ∃ pre post,
    s = pre +:+ old +:+ post
    ∧ s' = pre +:+ new +:+ post
    ∧ ∀ pre2 post2, s = pre2 +:+ old +:+ post2 →
        (String.length pre ≤ String.length pre2)%nat.
Proof.
  revert s'. induction s as [|a s IH]; intros s'.
  - cbn [replace_first]. destruct (String.prefix old "") eqn:Hp; [|done].
    intros [= <-]. exists "", (drop_string (String.length old) "").
    rewrite !append_Empty.
    repeat split; [by apply prefix_true | simpl; lia].
  - cbn [replace_first]. destruct (String.prefix old (String a s)) eqn:Hp.
    + intros [= <-]. exists "", (drop_string (String.length old) (String a s)).
      rewrite !append_Empty.
      repeat split; [by apply prefix_true | simpl; lia].
    + destruct (replace_first old new s) as [t|] eqn:Ht; [|done].
      intros [= <-]. destruct (IH t eq_refl) as (pre & post & Hs & Ht' & Hmin).
      exists (String a pre), post. rewrite !append_String, <- Hs, <- Ht'.
      repeat split. intros [|b pre2] post2 Heq.
      * rewrite append_Empty in Heq. rewrite Heq, prefix_app in Hp. done.
      * rewrite append_String in Heq. injection Heq as <- Heq.
        specialize (Hmin _ _ Heq). simpl. lia.
Qed.

Lemma replace_first_None old new s :
  replace_first old new s = None →
  ∀ pre post, s ≠ pre +:+ old +:+ post.
Proof.
  induction s as [|a s IH]; cbn [replace_first].
  - destruct (String.prefix old "") eqn:Hp; [done|].
    intros _ [|b pre] post Heq; [|by rewrite append_String in Heq].
    rewrite append_Empty in Heq. rewrite Heq, prefix_app in Hp. done.
  - destruct (String.prefix old (String a s)) eqn:Hp; [done|].
    destruct (replace_first old new s) eqn:Ht; [done|].
    intros _ [|b pre] post Heq.
    + rewrite append_Empty in Heq. rewrite Heq, prefix_app in Hp. done.
    + rewrite append_String in Heq. injection Heq as <- Heq.
      by apply (IH eq_refl pre post).
Qed.

Lemma replace_first_is_Some old new new' s :
  is_Some (replace_first old new s) → is_Some (replace_first old new' s).
Proof.
  induction s as [|a s IH]; cbn [replace_first];
    destruct (String.prefix old _); try done.
  rewrite !fmap_is_Some. exact IH.
Qed.

Lemma occurs_true old new s :
  occurs old s = true → is_Some (replace_first old new s).
Proof.
  unfold occurs. intros Ho. apply bool_decide_eq_true in Ho.
  by apply (replace_first_is_Some old "").
Qed.

(** [occurs] is Python's [in]. *)
Lemma occurs_spec old s :
  occurs old s = true ↔ ∃ pre post, s = pre +:+ old +:+ post.
Proof.
  split.
  - intros Ho. destruct (occurs_true old "" s Ho) as [s' Hs'].
    destruct (replace_first_Some _ _ _ _ Hs') as (pre & post & Hs & _).
    by exists pre, post.
  - intros (pre & post & Hs). unfold occurs. apply bool_decide_eq_true.
    destruct (replace_first old "" s) eqn:Hr; [done|].
    by destruct (replace_first_None _ _ _ Hr pre post).
Qed.

(** ** The edit tool *)


Lemma is_file_inr_true (wd : list string) (f : filesystem) (p : pypath) :
  is_file wd f p = inr true →
  ∃ a c, locate wd f p = inr a ∧ node_at f a = Some (File c)
         ∧ os_read wd f p = inr c.
Proof.
  unfold is_file, stat_test, stat, os_read.
  destruct (locate wd f p) as [e|a]; [by destruct e|].
  destruct (node_at f a) as [[c|]|] eqn:Hn; try done.
  intros _. by exists a, c.
Qed.

Lemma stat_test_os_read (test : node → bool) (wd : list string) (f : filesystem)
    (p : pypath) c :
  os_read wd f p = inr c → stat_test test wd f p = inr (test (File c)).
Proof.
  unfold stat_test, stat, os_read.
  destruct (locate wd f p) as [e|a]; [done|].
  destruct (node_at f a) as [[c'|]|]; try done. by intros [= ->].
Qed.

Lemma is_file_os_read (wd : list string) (f : filesystem) (p : pypath) c :
  os_read wd f p = inr c → is_file wd f p = inr true.
Proof. apply stat_test_os_read. Qed.

Lemma os_write_file (wd : list string) (f : filesystem) (p : pypath) a c c' :
  locate wd f p = inr a →
  node_at f a = Some (File c) →
  os_write wd f p c' = inr (<[a := File c']> f).
Proof. intros Hl Hn. unfold os_write. by rewrite Hl, Hn. Qed.

(** What [EditTool.run] returns and does to the files. *)
Lemma EditTool_run_spec `{Host}
    (kw : dict) (path old : string) (r : json) (st : state) :
  dict_get "path" kw = Some (JStr path) →
  dict_get "search_text" kw = Some (JStr old) →
  dict_get "replace_text" kw = Some r →
  match is_file getcwd (fs st) (Path path) with
  | inl e => EditTool_run kw st = (inl (OSError e (Path path)), st)
  | inr false =>
      EditTool_run kw st = (inr (error_result ("File not found at " +:+ path)), st)
  | inr true =>
      ∃ res st',
        EditTool_run kw st = (inr res, st')
        ∧ match text_of (fs st) (Path path) with
          | inl e => res = error_result (exn_str e) ∧ st' = st
          | inr original =>
              if occurs old original then
                match r with
                | JStr new =>
                    if goes_ahead kw (about_to_replace path old r) st then
                      ∃ a pre post,
                        locate getcwd (fs st) (Path path) = inr a
                        ∧ original = pre +:+ old +:+ post
                        ∧ (∀ pre2 post2, original = pre2 +:+ old +:+ post2 →
                             (String.length pre ≤ String.length pre2)%nat)
                        ∧ fs st' = <[a := File (pre +:+ new +:+ post)]> (fs st)
                        ∧ res = JObj [("success", JBool true);
                                      ("path", JStr (path_str (Path path)))]
                    else is_error res = true ∧ fs st' = fs st
                | _ => is_error res = true ∧ fs st' = fs st
                end
              else
                res = error_result
                        "Search text not found in file. Use `read_file` to see the exact content."
                ∧ st' = st
          end
  end.
Proof.
  intros Hpath Hold Hr. unfold EditTool_run, required.
  rewrite Hpath, Hold, Hr. unfold Path_is_file, get_fs. run.
  destruct (is_file getcwd (fs st) (Path path)) as [e|[|]] eqn:Hfile; simpl;
    [done| |done].
  destruct (is_file_inr_true _ _ _ Hfile) as (a & c & Hloc & Hnode & Hread).
  unfold try_except, EditTool_body, read_text, get_fs. run.
  destruct (text_of (fs st) (Path path)) as [e|original] eqn:Htext; simpl.
  { eexists _, st. by repeat split. }
  destruct (occurs old original) eqn:Hocc; simpl;
    [|eexists _, st; by repeat split].
  assert (∀ new st0, fs st0 = fs st →
            ∃ pre post,
              original = pre +:+ old +:+ post
              ∧ (∀ pre2 post2, original = pre2 +:+ old +:+ post2 →
                   (String.length pre ≤ String.length pre2)%nat)
              ∧ EditTool_replace (Path path) original old (JStr new) st0
                = (inr (JObj [("success", JBool true);
                              ("path", JStr (path_str (Path path)))]),
                   State (<[a := File (pre +:+ new +:+ post)]> (fs st))
                         (history st0) (asked st0) (log st0) (yielded st0)))
    as Hreplace.
  { intros new st0 Hfs. destruct (occurs_true old new original Hocc) as [s' Hs'].
    destruct (replace_first_Some _ _ _ _ Hs') as (pre & post & Ho & -> & Hmin).
    exists pre, post. repeat split; try done.
    unfold EditTool_replace, get_fs, put_fs, os_call. run.
    rewrite Hs', Hfs. simpl. by rewrite (os_write_file _ _ _ a c). }
  unfold goes_ahead. destruct (kw_yolo kw); simpl.
  - destruct r as [| | |new| |];
      try (unfold EditTool_replace, raise; simpl; eexists _, st; by repeat split).
    destruct (Hreplace new st eq_refl) as (pre & post & Ho & Hmin & ->).
    eexists _, _. split; [reflexivity|]. by exists a, pre, post.
  - unfold console_print.
    destruct (dict_get "console" kw) as [cn|]; simpl;
      [destruct (truthy cn); simpl;
       [unfold raise; simpl; eexists _, st; split; [reflexivity|]; by destruct r|]|];
      unfold rich_print;
      (destruct (markup_error (about_to_replace path old r)) as [msg|]; simpl;
       [try rewrite bool_decide_false by done; unfold raise; simpl; eexists _, st;
        split; [reflexivity|]; by destruct r|]);
      try rewrite bool_decide_true by done;
      unfold Prompt_ask; run; (destruct (answers (asked st)); simpl;
       [|eexists _, _; split; [reflexivity|]; by destruct r]);
      (destruct r as [| | |new| |];
       try (unfold EditTool_replace, raise; simpl; eexists _, _; by repeat split));
      match goal with
      | |- context [EditTool_replace _ _ _ _ ?s0] =>
          destruct (Hreplace new s0 eq_refl) as (pre & post & Ho & Hmin & ->)
      end;
      (eexists _, _; split; [reflexivity|]; by exists a, pre, post).
Qed.

(** C6.  [EditTool.run] on a file whose bytes are ["one\r\ntwo two"],
    replacing ["two"] by ["2"]: the file becomes ["one\n2 two"], so
    besides the first occurrence the line end has changed.  Asked to
    replace ["\r\ntwo"], which does occur in the bytes of the file, the
    tool reports the search text as not found and replaces nothing.
    Asked to replace ["one\ntwo"], which does not occur in the bytes,
    it reports success and rewrites the file. *)
Theorem edit_rewrites_line_ends :
  @EditTool_run (example_host true) (edit_two "two") (empty_state crlf_files)
  = (inr (JObj [("success", JBool true); ("path", JStr "notes.txt")]),
     empty_state
       (<[ ["home"; "user"; "project"; "notes.txt"] :=
             File ("one" +:+ String LF "2 two") ]> crlf_files))
  ∧ occurs (String CR (String LF "two")) ("one" +:+ String CR (String LF "two two"))
    = true
  ∧ @EditTool_run (example_host true) (edit_two (String CR (String LF "two")))
      (empty_state crlf_files)
    = (inr (error_result
              "Search text not found in file. Use `read_file` to see the exact content."),
       empty_state crlf_files)
  ∧ occurs ("one" +:+ String LF "two") ("one" +:+ String CR (String LF "two two"))
    = false
  ∧ @EditTool_run (example_host true) (edit_two ("one" +:+ String LF "two"))
      (empty_state crlf_files)
    = (inr (JObj [("success", JBool true); ("path", JStr "notes.txt")]),
       empty_state
         (<[ ["home"; "user"; "project"; "notes.txt"] := File "2 two" ]>
            crlf_files)).
Proof. repeat split; reflexivity. Qed.

(** ** Where the file tools look *)

(** Without [".."] the operating system resolves a path to the components
    appended to the starting directory. *)
Lemma walk_plain (f : filesystem) (cur ps a : list string) :
  ".." ∉ ps → walk f cur ps = inr a → a = cur ++ ps.
Proof.
  revert cur. induction ps as [|c ps IH]; intros cur Hplain; simpl.
  - intros [= <-]. by rewrite app_nil_r.
  - destruct (node_at f cur) as [[?|]|]; try done.
    apply not_elem_of_cons in Hplain as [Hc Hps].
    destruct (String.eqb c "..") eqn:Heq.
    + apply String.eqb_eq in Heq. by subst.
    + destruct (String.length c <=? NAME_MAX)%nat; [|done].
      intros Hw. rewrite (IH _ Hps Hw). by rewrite <- app_assoc.
Qed.

(** A path that fits is not refused for its length. *)
Lemma walk_fits (f : filesystem) (cur ps : list string) :
  forallb (λ c, (String.length c <=? NAME_MAX)%nat) ps = true →
  walk f cur ps ≠ inl ENAMETOOLONG.
Proof.
  revert cur. induction ps as [|c ps IH]; intros cur Hfit; simpl; [done|].
  simpl in Hfit. apply andb_true_iff in Hfit as [Hc Hps].
  destruct (node_at f cur) as [[?|]|]; try done.
  destruct (String.eqb c ".."); [by apply IH|].
  rewrite Hc. by apply IH.
Qed.

Lemma locate_fits (wd : list string) (f : filesystem) (p : pypath) :
  fits p = true → locate wd f p ≠ inl ENAMETOOLONG.
Proof.
  unfold fits, locate. intros [Hlen Hparts]%andb_true_iff.
  apply Nat.ltb_lt in Hlen.
  destruct (PATH_MAX <=? String.length (path_str p))%nat eqn:Hmax;
    [apply Nat.leb_le in Hmax; lia|].
  by apply walk_fits.
Qed.

(** The errors of path resolution. *)
Lemma walk_errno (f : filesystem) (cur ps : list string) (e : errno) :
  walk f cur ps = inl e → ignore_error e = true ∨ e = ENAMETOOLONG.
Proof.
  revert cur. induction ps as [|c ps IH]; intros cur; simpl; [done|].
  destruct (node_at f cur) as [[?|]|]; try (intros [= <-]; by left).
  destruct (String.eqb c ".."); [apply IH|].
  destruct (String.length c <=? NAME_MAX)%nat; [apply IH|].
  intros [= <-]. by right.
Qed.

Lemma locate_errno (wd : list string) (f : filesystem) (p : pypath) (e : errno) :
  locate wd f p = inl e → ignore_error e = true ∨ e = ENAMETOOLONG.
Proof.
  unfold locate. destruct (PATH_MAX <=? _)%nat; [intros [= <-]; by right|].
  apply walk_errno.
Qed.

(** Then [exists], [is_file] and [is_dir] give an answer. *)
Lemma stat_test_fits (test : node → bool) (wd : list string) (f : filesystem)
    (p : pypath) :
  fits p = true →
  stat_test test wd f p
  = inr match stat wd f p with
        | inr n => test n
        | inl _ => false
        end.
Proof.
  intros Hfit. pose proof (locate_fits wd f p Hfit) as Hloc.
  unfold stat_test, stat.
  destruct (locate wd f p) as [e|a] eqn:Hl.
  - destruct (locate_errno _ _ _ _ Hl) as [->| ->]; done.
  - by destruct (node_at f a) as [[c|]|].
Qed.

(** What the walk went through fits. *)
Lemma walk_short (f : filesystem) (cur ps a : list string) :
  ".." ∉ ps → walk f cur ps = inr a →
  forallb (λ c, (String.length c <=? NAME_MAX)%nat) ps = true.
Proof.
  revert cur. induction ps as [|c ps IH]; intros cur Hplain; simpl; [done|].
  destruct (node_at f cur) as [[?|]|]; try done.
  apply not_elem_of_cons in Hplain as [Hc Hps].
  destruct (String.eqb c "..") eqn:Heq.
  - apply String.eqb_eq in Heq. by subst.
  - destruct (String.length c <=? NAME_MAX)%nat; [|done].
    intros Hw. by apply (IH _ Hps Hw).
Qed.

Lemma adds_dirs_refl f : adds_dirs f f.
Proof. intros a. by left. Qed.

Lemma adds_dirs_trans f1 f2 f3 :
  adds_dirs f1 f2 → adds_dirs f2 f3 → adds_dirs f1 f3.
Proof.
  intros H12 H23 a. destruct (H12 a) as [He|[Hn Hd]], (H23 a) as [He'|[Hn' Hd']].
  - left. congruence.
  - right. split; congruence.
  - right. split; congruence.
  - congruence.
Qed.

Lemma adds_dirs_file f f' a c :
  adds_dirs f f' → f' !! a = Some (File c) → f !! a = Some (File c).
Proof. intros Hadd Hf. destruct (Hadd a) as [He|[Hn Hd]]; congruence. Qed.

Lemma os_mkdir_adds (wd : list string) (f f' : filesystem) (p : pypath) :
  os_mkdir wd f p = inr f' → adds_dirs f f'.
Proof.
  unfold os_mkdir. destruct (locate wd f p) as [e|a]; [done|].
  destruct (node_at f a) eqn:Hn; [done|]. intros [= <-] b.
  destruct (decide (a = b)) as [<-|Hne].
  - right. rewrite lookup_insert_eq. split; [|done].
    by destruct a.
  - left. by rewrite lookup_insert_ne.
Qed.

Lemma mkdir_exist_ok_adds (wd : list string) (f f' : filesystem) (p : pypath) :
  mkdir_exist_ok wd f p = inr f' → adds_dirs f f'.
Proof.
  unfold mkdir_exist_ok. destruct (os_mkdir wd f p) as [e|f1] eqn:Hm.
  - destruct e; try done; unfold unless_is_dir;
      destruct (is_dir wd f p) as [?|[|]]; try done;
      intros [= <-]; apply adds_dirs_refl.
  - intros [= <-]. by apply (os_mkdir_adds wd _ _ p).
Qed.

Lemma length_removelast_cons {A : Type} (c : A) (ps : list A) :
  length (removelast (c :: ps)) = length ps.
Proof.
  revert c. induction ps as [|c' ps IH]; intros c; [done|].
  change (removelast (c :: c' :: ps)) with (c :: removelast (c' :: ps)).
  simpl. f_equal. apply IH.
Qed.

(** More fuel than the path has components changes nothing. *)
Lemma mkdir_parents_fuel (n m : nat) (wd : list string) (f : filesystem) (p : pypath) :
  (length (parts p) < n)%nat → (length (parts p) < m)%nat →
  mkdir_parents n wd f p = mkdir_parents m wd f p.
Proof.
  revert m f p. induction n as [|n IH]; intros m f p Hn Hm; [lia|].
  destruct m as [|m]; [lia|]. simpl.
  destruct (os_mkdir wd f p) as [[| | | |]|f1]; try done.
  destruct (parts p) as [|c ps] eqn:Hp; [done|].
  assert (length (parts (parent p)) = length ps) as Hlen
    by (unfold parent; simpl; rewrite Hp; apply length_removelast_cons).
  simpl in Hn, Hm. rewrite (IH m f (parent p)) by lia. done.
Qed.

Lemma mkdir_parents_adds (fuel : nat) (wd : list string) (f f' : filesystem) (p : pypath) :
  mkdir_parents fuel wd f p = inr f' → adds_dirs f f'.
Proof.
  revert f f' p. induction fuel as [|fuel IH]; intros f f' p; simpl.
  - destruct (os_mkdir wd f p) as [e|f1] eqn:Hm.
    + destruct e; try done; unfold unless_is_dir;
        destruct (is_dir wd f p) as [?|[|]]; try done;
        intros [= <-]; apply adds_dirs_refl.
    + intros [= <-]. by apply (os_mkdir_adds wd _ _ p).
  - destruct (os_mkdir wd f p) as [e|f1] eqn:Hm.
    + destruct e; try (unfold unless_is_dir;
                       destruct (is_dir wd f p) as [?|[|]]; try done;
                       intros [= <-]; apply adds_dirs_refl).
      destruct (parts p); [done|].
      destruct (mkdir_parents fuel wd f (parent p)) as [e|f1] eqn:Hp; [done|].
      intros Hok. apply (adds_dirs_trans _ f1).
      * by apply (IH _ _ (parent p)).
      * by apply (mkdir_exist_ok_adds wd _ _ p).
    + intros [= <-]. by apply (os_mkdir_adds wd _ _ p).
Qed.

Section FileTools.
Context `{Host}.

(** [read_file] looks below the parent of the working directory. *)
Lemma read_file_location (f : filesystem) (s : string) (a : list string) :
  anchored (Path s) = false →
  ".." ∉ getcwd → ".." ∉ parts (Path s) →
  locate getcwd f (joinpath WORKSPACE_ROOT (Path s)) = inr a →
  a = removelast getcwd ++ parts (Path s).
Proof.
  intros Hrel Hcwd Hplain. unfold locate.
  destruct (PATH_MAX <=? _)%nat; [done|].
  unfold joinpath, WORKSPACE_ROOT, parent.
  rewrite Hrel. simpl. intros Hw. apply walk_plain in Hw; [done|].
  rewrite not_elem_of_app. split; [|done].
  intros Hin. apply Hcwd. clear -Hin.
  induction getcwd as [|c l IH]; [done|].
  destruct l as [|c' l]; [by apply elem_of_nil in Hin|].
  change (removelast (c :: c' :: l)) with (c :: removelast (c' :: l)) in Hin.
  apply elem_of_cons in Hin as [->|Hin]; [left|right; by apply IH].
Qed.

(** [write_file] and [edit] look below the working directory. *)
Lemma write_file_location (f : filesystem) (s : string) (a : list string) :
  anchored (Path s) = false →
  ".." ∉ parts (Path s) →
  locate getcwd f (Path s) = inr a →
  a = getcwd ++ parts (Path s).
Proof.
  intros Hrel Hplain. unfold locate. destruct (PATH_MAX <=? _)%nat; [done|].
  rewrite Hrel. by apply walk_plain.
Qed.

Lemma locations_differ (ps : list string) :
  getcwd ≠ [] → removelast getcwd ++ ps ≠ getcwd ++ ps.
Proof.
  intros Hne Heq. apply (f_equal length) in Heq.
  rewrite !length_app in Heq.
  destruct (exists_last Hne) as (l & c & Hl). rewrite Hl in Heq.
  rewrite removelast_last, length_app in Heq. simpl in Heq. lia.
Qed.
End FileTools.

Section ReadAfterWrite.
Context `{Host}.

Lemma is_error_error_result msg : is_error (error_result msg) = true.
Proof. reflexivity. Qed.

(** A write that succeeded made directories, then put the contents where
    the path led. *)
Lemma WriteFileTool_try_success p contents st res st' :
  WriteFileTool_try p contents st = (inr res, st') →
  is_error res = false →
  ∃ f1 a a' c,
    contents = JStr c
    ∧ adds_dirs (fs st) f1
    ∧ locate getcwd f1 p = inr a
    ∧ locate getcwd (<[a := File ""]> f1) p = inr a'
    ∧ fs st' = <[a' := File c]> (<[a := File ""]> f1).
Proof.
  unfold WriteFileTool_try, try_except, WriteFileTool_body, get_fs, put_fs, os_call.
  run.
  destruct (mkdir_p getcwd (fs st) (parent p)) as [e|f1] eqn:Hmk; simpl;
    [intros [= <- <-]; by rewrite is_error_error_result|].
  apply mkdir_parents_adds in Hmk.
  unfold os_write at 1.
  destruct (locate getcwd f1 p) as [e|a] eqn:Hloc; simpl;
    [intros [= <- <-]; by rewrite is_error_error_result|].
  destruct (node_at f1 a) as [[c0|]|] eqn:Hn; simpl;
    try (intros [= <- <-]; by rewrite is_error_error_result).
  - destruct contents as [| | |c| |]; simpl;
      try (intros [= <- <-]; by rewrite is_error_error_result).
    unfold os_write.
    destruct (locate getcwd (<[a:=File ""]> f1) p) as [e|a'] eqn:Hloc'; simpl;
      [intros [= <- <-]; by rewrite is_error_error_result|].
    destruct (node_at (<[a:=File ""]> f1) a') as [[c1|]|]; simpl;
      try (intros [= <- <-]; by rewrite is_error_error_result);
      intros [= <- <-] _; by exists f1, a, a', c.
  - destruct contents as [| | |c| |]; simpl;
      try (intros [= <- <-]; by rewrite is_error_error_result).
    unfold os_write.
    destruct (locate getcwd (<[a:=File ""]> f1) p) as [e|a'] eqn:Hloc'; simpl;
      [intros [= <- <-]; by rewrite is_error_error_result|].
    destruct (node_at (<[a:=File ""]> f1) a') as [[c1|]|]; simpl;
      try (intros [= <- <-]; by rewrite is_error_error_result);
      intros [= <- <-] _; by exists f1, a, a', c.
Qed.

Lemma WriteFileTool_run_success kw s st res st' :
  dict_get "path" kw = Some (JStr s) →
  WriteFileTool_run kw st = (inr res, st') →
  is_error res = false →
  ∃ contents st0,
    dict_get "contents" kw = Some contents
    ∧ fs st0 = fs st
    ∧ WriteFileTool_try (Path s) contents st0 = (inr res, st').
Proof.
  intros Hpath. unfold WriteFileTool_run, required. rewrite Hpath.
  destruct (dict_get "contents" kw) as [contents|]; [|done].
  unfold to_Path, Path_exists, get_fs. run.
  destruct (path_exists getcwd (fs st) (Path s)) as [e|there]; simpl; [done|].
  destruct (there && negb (kw_yolo kw)); simpl;
    [|intros Hrun Herr; by exists contents, st].
  unfold console_print.
  destruct (dict_get "console" kw) as [c|]; simpl;
    [destruct (truthy c); simpl; [done|]|];
    unfold rich_print; (destruct (markup_error _); simpl; [done|]);
    unfold Prompt_ask; run;
    (destruct (answers (asked st)); simpl;
     [intros Hrun Herr; eexists contents, _;
      split; [done|]; split; [|exact Hrun]; done
     |intros [= <- <-]; by rewrite is_error_error_result]).
Qed.

(** [read_file] with a path changes nothing.  It raises when [exists]
    does; otherwise it returns an error, or the decoded slice of the
    file below [WORKSPACE_ROOT]. *)
Lemma ReadFileTool_run_spec kw s st :
  dict_get "path" kw = Some (JStr s) →
  let p := joinpath WORKSPACE_ROOT (Path s) in
  ReadFileTool_run kw st =
    match path_exists getcwd (fs st) p with
    | inl e => (inl (OSError e p), st)
    | inr false =>
        (inr (error_result ("File '" +:+ s +:+ "' does not exist at '"
                            +:+ path_str p +:+ "'.")), st)
    | inr true =>
        (inr match os_read getcwd (fs st) p with
             | inl e => error_result (exn_str (OSError e p))
             | inr data =>
                 match (ReadFileTool_slice (dict_get "max_bytes" kw) data st).1 with
                 | inr d => JObj [("contents", JStr (decode_replace d))]
                 | inl e => error_result (exn_str e)
                 end
             end, st)
    end.
Proof.
  intros Hpath p. unfold ReadFileTool_run, required. rewrite Hpath.
  unfold Path_exists, get_fs. run. fold p.
  destruct (path_exists getcwd (fs st) p) as [e|[|]]; simpl; try done.
  unfold try_except, get_fs, os_call. run.
  destruct (os_read getcwd (fs st) p) as [e|data] eqn:Hread; simpl; [done|].
  unfold ReadFileTool_slice.
  by destruct (dict_get "max_bytes" kw) as [[|b|n|?|?|?]|].
Qed.
End ReadAfterWrite.

(** What a write leaves. *)

Lemma node_at_insert_eq (f : filesystem) (a : list string) (n : node) :
  a ≠ [] → node_at (<[a := n]> f) a = Some n.
Proof. intros Ha. destruct a; [done|]. simpl. by rewrite lookup_insert_eq. Qed.

Lemma node_at_insert_ne (f : filesystem) (a b : list string) (n : node) :
  a ≠ b → node_at (<[a := n]> f) b = node_at f b.
Proof. intros Hab. destruct b; [done|]. simpl. by rewrite lookup_insert_ne. Qed.

Lemma node_at_not_root (f : filesystem) (a : list string) :
  node_at f a ≠ Some Dir → a ≠ [].
Proof. by intros Hn ->. Qed.

(** Putting a node where there was no directory leaves every path that
    resolved resolving to the same place. *)
Lemma walk_insert (f : filesystem) (a : list string) (n : node)
    (cur ps b : list string) :
  node_at f a ≠ Some Dir →
  walk f cur ps = inr b →
  walk (<[a := n]> f) cur ps = inr b.
Proof.
  intros Ha. revert cur. induction ps as [|c ps IH]; intros cur; simpl; [done|].
  destruct (node_at f cur) as [[?|]|] eqn:Hcur; try done.
  assert (a ≠ cur) as Hne by (intros ->; by rewrite Hcur in Ha).
  rewrite node_at_insert_ne, Hcur by done.
  destruct (String.eqb c ".."); [apply IH|].
  destruct (String.length c <=? NAME_MAX)%nat; [apply IH|done].
Qed.

Lemma locate_insert (wd : list string) (f : filesystem) (p : pypath)
    (a b : list string) (n : node) :
  node_at f a ≠ Some Dir →
  locate wd f p = inr b →
  locate wd (<[a := n]> f) p = inr b.
Proof.
  intros Ha. unfold locate. destruct (PATH_MAX <=? _)%nat; [done|].
  by apply walk_insert.
Qed.

Lemma os_write_inr (wd : list string) (f f' : filesystem) (p : pypath) c :
  os_write wd f p c = inr f' →
  ∃ a, locate wd f p = inr a ∧ node_at f a ≠ Some Dir
       ∧ f' = <[a := File c]> f.
Proof.
  unfold os_write. destruct (locate wd f p) as [e|a]; [done|].
  destruct (node_at f a) as [[c'|]|] eqn:Hn; try done;
    intros [= <-]; exists a; by rewrite Hn.
Qed.

(** What was written is what is read, by the same path. *)
Lemma os_write_read (wd : list string) (f f' : filesystem) (p : pypath) c :
  os_write wd f p c = inr f' → os_read wd f' p = inr c.
Proof.
  intros (a & Hloc & Hn & ->)%os_write_inr. unfold os_read.
  rewrite (locate_insert wd f p a a _ Hn Hloc).
  by rewrite node_at_insert_eq by by apply (node_at_not_root f).
Qed.

Lemma is_dir_insert_file (wd : list string) (f : filesystem) (q : pypath)
    (a : list string) c :
  node_at f a ≠ Some Dir →
  is_dir wd f q = inr true →
  is_dir wd (<[a := File c]> f) q = inr true.
Proof.
  intros Ha. unfold is_dir, stat_test, stat.
  destruct (locate wd f q) as [e|b] eqn:Hloc; [by destruct e|].
  rewrite (locate_insert wd f q a b _ Ha Hloc).
  destruct (node_at f b) as [[?|]|] eqn:Hb; try done.
  assert (a ≠ b) as Hne by (intros ->; by rewrite Hb in Ha).
  by rewrite node_at_insert_ne, Hb.
Qed.

Lemma os_mkdir_is_dir (wd : list string) (f f' : filesystem) (p : pypath) :
  os_mkdir wd f p = inr f' → is_dir wd f' p = inr true.
Proof.
  unfold os_mkdir. destruct (locate wd f p) as [e|a] eqn:Hloc; [done|].
  destruct (node_at f a) eqn:Hn; [done|]. intros [= <-].
  assert (node_at f a ≠ Some Dir) as Hnd by (by rewrite Hn).
  unfold is_dir, stat_test, stat. rewrite (locate_insert wd f p a a _ Hnd Hloc).
  by rewrite node_at_insert_eq by by apply (node_at_not_root f).
Qed.

Lemma unless_is_dir_inr (e : errno) (wd : list string) (f f' : filesystem)
    (p : pypath) :
  unless_is_dir e wd f p = inr f' → f' = f ∧ is_dir wd f p = inr true.
Proof.
  unfold unless_is_dir. destruct (is_dir wd f p) as [?|[|]]; try done.
  by intros [= <-].
Qed.

Lemma mkdir_exist_ok_is_dir (wd : list string) (f f' : filesystem) (p : pypath) :
  mkdir_exist_ok wd f p = inr f' → is_dir wd f' p = inr true.
Proof.
  unfold mkdir_exist_ok. destruct (os_mkdir wd f p) as [e|f1] eqn:Hm.
  - destruct e; try done; by intros [-> ?]%unless_is_dir_inr.
  - intros [= <-]. by apply (os_mkdir_is_dir wd f).
Qed.

(** After [mkdir(parents=True, exist_ok=True)] the directory is there. *)
Lemma mkdir_parents_is_dir (fuel : nat) (wd : list string) (f f' : filesystem)
    (p : pypath) :
  mkdir_parents fuel wd f p = inr f' → is_dir wd f' p = inr true.
Proof.
  destruct fuel as [|fuel]; simpl;
    (destruct (os_mkdir wd f p) as [e|f1] eqn:Hm;
     [|intros [= <-]; by apply (os_mkdir_is_dir wd f)]).
  - destruct e; try done; by intros [-> ?]%unless_is_dir_inr.
  - destruct e; try (by intros [-> ?]%unless_is_dir_inr).
    destruct (parts p); [done|].
    destruct (mkdir_parents fuel wd f (parent p)) as [e|f1]; [done|].
    apply mkdir_exist_ok_is_dir.
Qed.

Section WriteMore.
Context `{Host}.

(** A write that succeeded: the directories were made, and the contents
    put where the path led, which was no directory. *)
Lemma WriteFileTool_try_written p contents st res st' :
  WriteFileTool_try p contents st = (inr res, st') →
  is_error res = false →
  ∃ f1 a c,
    contents = JStr c
    ∧ mkdir_p getcwd (fs st) (parent p) = inr f1
    ∧ locate getcwd f1 p = inr a
    ∧ node_at f1 a ≠ Some Dir
    ∧ fs st' = <[a := File c]> f1.
Proof.
  unfold WriteFileTool_try, try_except, WriteFileTool_body, get_fs, put_fs, os_call.
  run.
  destruct (mkdir_p getcwd (fs st) (parent p)) as [e|f1] eqn:Hmk; simpl;
    [intros [= <- <-]; by rewrite is_error_error_result|].
  destruct (os_write getcwd f1 p "") as [e|f2] eqn:Hw1; simpl;
    [intros [= <- <-]; by rewrite is_error_error_result|].
  destruct contents as [| | |c| |]; simpl;
    try (intros [= <- <-]; by rewrite is_error_error_result).
  destruct (os_write getcwd f2 p c) as [e|f3] eqn:Hw2; simpl;
    [intros [= <- <-]; by rewrite is_error_error_result|].
  intros [= <- <-] _.
  apply os_write_inr in Hw1 as (a & Hloc & Hn & ->).
  apply os_write_inr in Hw2 as (a' & Hloc' & _ & ->).
  rewrite (locate_insert _ _ _ a a _ Hn Hloc) in Hloc'. injection Hloc' as <-.
  exists f1, a, c. simpl. by rewrite insert_insert_eq.
Qed.
End WriteMore.


(** An edit that succeeded changed the file where its path led, and
    nothing else. *)
Lemma EditTool_run_success `{Host} kw s st res st' :
  dict_get "path" kw = Some (JStr s) →
  EditTool_run kw st = (inr res, st') →
  is_error res = false →
  ∃ a c, locate getcwd (fs st) (Path s) = inr a
         ∧ fs st' = <[a := File c]> (fs st).
Proof.
  intros Hpath Hrun Herr.
  destruct (dict_get "search_text" kw) as [search|] eqn:Hs;
    [|unfold EditTool_run, required in Hrun; by rewrite Hpath, Hs in Hrun].
  destruct (dict_get "replace_text" kw) as [r|] eqn:Hr;
    [|unfold EditTool_run, required in Hrun; by rewrite Hpath, Hs, Hr in Hrun].
  destruct search as [| | |old| |];
    try (unfold EditTool_run, required in Hrun; rewrite Hpath, Hs, Hr in Hrun;
         unfold Path_is_file, get_fs in Hrun; revert Hrun; run;
         destruct (is_file getcwd (fs st) (Path s)) as [?|[|]]; simpl; [done| |];
         [|intros [= <- <-]; by rewrite is_error_error_result in Herr];
         unfold try_except, EditTool_body, read_text, get_fs; run;
         destruct (text_of (fs st) (Path s)); simpl;
         intros [= <- <-]; by rewrite is_error_error_result in Herr).
  pose proof (EditTool_run_spec kw s old r st Hpath Hs Hr) as Hspec.
  destruct (is_file getcwd (fs st) (Path s)) as [e|[|]].
  - congruence.
  - destruct Hspec as (res0 & st0 & Hrun0 & Hcase).
    rewrite Hrun in Hrun0. injection Hrun0 as <- <-.
    destruct (text_of (fs st) (Path s)) as [e|original];
      [destruct Hcase as [-> _]; by rewrite is_error_error_result in Herr|].
    destruct (occurs old original);
      [|destruct Hcase as [-> _]; by rewrite is_error_error_result in Herr].
    destruct r as [| | |new| |]; try (destruct Hcase; congruence).
    destruct (goes_ahead kw _ st); [|destruct Hcase; congruence].
    destruct Hcase as (a & pre & post & Hloc & _ & _ & Hfs & _).
    by exists a, (pre +:+ new +:+ post).
  - rewrite Hrun in Hspec. injection Hspec as -> _.
    by rewrite is_error_error_result in Herr.
Qed.

(** C8.  For a relative path without [".."], in a working directory that
    is not the root: [read_file] resolves the path below the parent of the
    working directory ([WORKSPACE_ROOT]), [write_file] and [edit] below
    the working directory itself, and the two places differ.  After a
    [write_file] that succeeded, the written contents are at the second
    place.  [read_file] of the same path then looks at the first place:
    when a file is there, it was there before the write and the result
    is its contents, cut to [max_bytes] and decoded, whatever was
    written; when none is there the result is an error. *)
Theorem read_file_misses_written_file `{Host}
    (s : string) (kw_w kw_r : dict) (st st1 : state) (res_w : json) :
  getcwd ≠ [] →
  ".." ∉ getcwd →
  anchored (Path s) = false →
  ".." ∉ parts (Path s) →
  fits (joinpath WORKSPACE_ROOT (Path s)) = true →
  dict_get "path" kw_w = Some (JStr s) →
  dict_get "path" kw_r = Some (JStr s) →
  WriteFileTool_run kw_w st = (inr res_w, st1) →
  is_error res_w = false →
  let read_at := removelast getcwd ++ parts (Path s) in
  let written_at := getcwd ++ parts (Path s) in
  read_at ≠ written_at
  ∧ (∀ f a, locate getcwd f (joinpath WORKSPACE_ROOT (Path s)) = inr a →
            a = read_at)
  ∧ (∀ f a, locate getcwd f (Path s) = inr a → a = written_at)
  ∧ (∃ c, dict_get "contents" kw_w = Some (JStr c)
          ∧ fs st1 !! written_at = Some (File c)
          ∧ os_read getcwd (fs st1) (Path s) = inr c)
  ∧ (∃ res_r,
       ReadFileTool_run kw_r st1 = (inr res_r, st1)
       ∧ match os_read getcwd (fs st1) (joinpath WORKSPACE_ROOT (Path s)) with
         | inr data =>
             fs st !! read_at = Some (File data)
             ∧ match (ReadFileTool_slice (dict_get "max_bytes" kw_r) data st1).1 with
               | inr d => res_r = JObj [("contents", JStr (decode_replace d))]
               | inl e => res_r = error_result (exn_str e)
               end
         | inl _ => is_error res_r = true
         end)
  ∧ (∀ kw_e st2 res_e st3,
       dict_get "path" kw_e = Some (JStr s) →
       EditTool_run kw_e st2 = (inr res_e, st3) →
       is_error res_e = false →
       ∃ c, fs st3 = <[written_at := File c]> (fs st2)).
Proof.
  intros Hcwd Hcwd_plain Hrel Hplain Hfit Hpw Hpr Hwrite Hok read_at written_at.
  assert (read_at ≠ written_at) as Hdiff by by apply locations_differ.
  destruct (WriteFileTool_run_success _ _ _ _ _ Hpw Hwrite Hok)
    as (contents & st0 & Hcontents & Hfs0 & Htry).
  destruct (WriteFileTool_try_written _ _ _ _ _ Htry Hok)
    as (f1 & a & c & -> & Hmk & Hloc & Hnd & Hfs1).
  pose proof (mkdir_parents_adds _ _ _ _ _ Hmk) as Hadds.
  pose proof (locate_insert _ _ _ a a (File c) Hnd Hloc) as Hloc1.
  rewrite <- Hfs1 in Hloc1.
  apply write_file_location in Hloc; [|done..].
  fold written_at in Hloc. subst a.
  assert (written_at ≠ []) as Hw by (unfold written_at; by destruct getcwd).
  split; [done|]. split; [intros f a; by apply read_file_location|].
  split; [intros f a; by apply write_file_location|].
  split.
  { exists c. split; [done|]. split; [by rewrite Hfs1, lookup_insert_eq|].
    unfold os_read. rewrite Hloc1, Hfs1. by rewrite node_at_insert_eq. }
  split.
  - pose proof (ReadFileTool_run_spec kw_r s st1 Hpr) as Hread. simpl in Hread.
    unfold path_exists in Hread. rewrite (stat_test_fits _ _ _ _ Hfit) in Hread.
    unfold stat in Hread. unfold os_read in Hread. unfold os_read.
    destruct (locate getcwd (fs st1) (joinpath WORKSPACE_ROOT (Path s)))
      as [e|a] eqn:Hloc_r.
    { eexists. split; [exact Hread|done]. }
    destruct (node_at (fs st1) a) as [[data|]|] eqn:Hnode;
      try (eexists; split; [exact Hread|done]).
    eexists. split; [exact Hread|].
    apply read_file_location in Hloc_r; [|done..].
    fold read_at in Hloc_r. subst a. split.
    + assert (fs st1 !! read_at = Some (File data)) as Hlook
        by (unfold node_at in Hnode; by destruct read_at).
      rewrite Hfs1, lookup_insert_ne in Hlook by done.
      rewrite <- Hfs0. by apply (adds_dirs_file _ f1).
    + by destruct (ReadFileTool_slice _ _ _).1.
  - intros kw_e st2 res_e st3 Hpe Hedit Hoke.
    destruct (EditTool_run_success _ _ _ _ _ Hpe Hedit Hoke) as (a & c' & Hloc & Hfs).
    apply write_file_location in Hloc; [|done..]. subst a. by exists c'.
Qed.

Lemma read_file_misses_written_file_witness :
  let st1 :=
    empty_state (<[ ["home"; "user"; "project"; "notes.txt"] := File "data" ]>
                   files_above) in
  @WriteFileTool_run (example_host true) overwrite_notes (empty_state files_above)
  = (inr (JObj [("success", JBool true); ("path", JStr "notes.txt")]), st1)
  ∧ ["home"; "user"; "notes.txt"] ≠ ["home"; "user"; "project"; "notes.txt"]
  ∧ os_read (@getcwd (example_host true)) (fs st1) (Path "notes.txt") = inr "data"
  ∧ @ReadFileTool_run (example_host true) [("path", JStr "notes.txt")] st1
    = (inr (JObj [("contents", JStr "hello world")]), st1).
Proof.
  intros st1.
  assert (@WriteFileTool_run (example_host true) overwrite_notes
            (empty_state files_above)
          = (inr (JObj [("success", JBool true); ("path", JStr "notes.txt")]), st1))
    as Hwrite by (vm_compute; reflexivity).
  split; [exact Hwrite|].
  pose proof (@read_file_misses_written_file (example_host true) "notes.txt"
                overwrite_notes [("path", JStr "notes.txt")]
                (empty_state files_above) _ _
                ltac:(discriminate)
                ltac:(apply (bool_decide_unpack _); vm_compute; exact I)
                eq_refl
                ltac:(apply (bool_decide_unpack _); vm_compute; exact I)
                eq_refl eq_refl eq_refl Hwrite eq_refl)
    as (Hdiff & _ & _ & (c & _ & _ & Hos) & (res_r & Hread & Hcase) & _).
  split; [exact Hdiff|].
  vm_compute in Hcase. destruct Hcase as [_ ->].
  split; [|exact Hread].
  vm_compute in Hos. vm_compute. exact eq_refl.
Defined.

Example read_after_write_example :
  (@ReadFileTool_run (example_host true) [("path", JStr "out.txt")]
     (empty_state (<[ ["home"; "user"; "project"; "out.txt"] := File "data" ]>
                     example_files))).1
  = inr (error_result "File 'out.txt' does not exist at '/home/user/out.txt'.").
Proof. vm_compute. reflexivity. Qed.

(** ** Streaming: merging the fragments of the tool calls *)

Lemma append_assoc_string (s t u : string) : (s +:+ t) +:+ u = s +:+ t +:+ u.
Proof.
  induction s as [|a s IH]; [done|]. rewrite !append_String. by f_equal.
Qed.

Lemma append_nil_r (s : string) : s +:+ "" = s.
Proof.
  induction s as [|a s IH]; [done|]. rewrite append_String. by f_equal.
Qed.





Lemma merge_tcs_app (tcs : list tool_call) (l1 l2 : list tc_delta) :
  merge_tcs tcs (l1 ++ l2) =
  match merge_tcs tcs l1 with
  | inr tcs1 => merge_tcs tcs1 l2
  | inl e => inl e
  end.
Proof.
  revert tcs. induction l1 as [|fr l1 IH]; intros tcs; simpl; [done|].
  destruct (merge_tc tcs fr); [done|]. apply IH.
Qed.

Lemma for_fold_cons {A B : Type} (f : A → B → M A) acc x l st :
  for_fold f acc (x :: l) st =
  match f acc x st with
  | (inr acc', st') => for_fold f acc' l st'
  | (inl e, st') => (inl e, st')
  end.
Proof. reflexivity. Qed.

(** The loop over the chunks: when every chunk has a choice and the
    fragments merge, the loop ends with the merged calls, having yielded
    text only and touched nothing else. *)
Lemma process_stream_merges (stream : list chunk) (full : string)
    (tcs tcs' : list tool_call) (st : state) :
  Forall (λ c, choices c ≠ []) stream →
  merge_tcs tcs (stream_fragments stream) = inr tcs' →
  ∃ full' ys,
    for_fold process_chunk (full, tcs) stream st =
      (inr (full', tcs'),
       State (fs st) (history st) (asked st) (log st) (yielded st ++ ys))
    ∧ Forall (λ y, is_text y = true) ys.
Proof.
  revert full tcs st. induction stream as [|c stream IH]; intros full tcs st Hch Hm.
  - simpl in Hm. injection Hm as <-. exists full, []. simpl.
    rewrite app_nil_r, state_eta. by split.
  - apply Forall_cons in Hch as [Hc Hch]. unfold stream_fragments in Hm.
    simpl in Hm. fold (stream_fragments stream) in Hm.
    destruct (choices c) as [|d ds] eqn:Hd; [done|].
    rewrite merge_tcs_app in Hm.
    destruct (merge_tcs tcs (default [] (d_tool_calls d))) as [e|tcs1] eqn:Hm1;
      [done|].
    setoid_rewrite for_fold_cons. unfold process_chunk at 1. rewrite Hd. simpl.
    destruct (d_content d) as [s|]; [destruct (String.eqb s "")|];
      unfold yield; run; rewrite Hm1; simpl.
    + apply (IH _ _ st Hch Hm).
    + destruct (IH (full +:+ s) tcs1
                  (State (fs st) (history st) (asked st) (log st)
                         (yielded st ++ [YieldText s])) Hch Hm)
        as (full' & ys & -> & Hys).
      exists full', (YieldText s :: ys). simpl. rewrite <- app_assoc.
      split; [done|]. by apply Forall_cons.
    + apply (IH _ _ st Hch Hm).
Qed.

(** ** Streaming: one call after the other *)

Lemma frame_calm (k : nat) {A : Type} (m : M A) : frame k m → calm m.
Proof.
  intros Hm st. destruct (Hm st) as (Hh & _ & l & Hl & Hc & _).
  split; [done|]. by exists l.
Qed.

Lemma calm_bind {A B : Type} (m : M A) (f : A → M B) :
  calm m → (∀ a, calm (f a)) → calm (m ≫= f).
Proof.
  intros Hm Hf st. unfold mbind, M_bind.
  destruct (Hm st) as (Hh & l & Hl & Hc).
  destruct (m st) as [[e|a] st1]; simpl in *.
  - split; [done|]. by exists l.
  - destruct (Hf a st1) as (Hh' & l' & Hl' & Hc').
    rewrite Hh', Hl'. split; [done|].
    exists (l ++ l'). rewrite Hl, <- app_assoc. split; [done|].
    rewrite model_calls_app. lia.
Qed.

Lemma calm_ret {A : Type} (a : A) : calm (mret a).
Proof. apply (frame_calm 0), quiet_ret. Qed.

Lemma calm_yield (x : item) : calm (yield x).
Proof.
  intros st. simpl. split; [done|]. exists []. by rewrite app_nil_r.
Qed.

Lemma returns_bind {A B : Type} (m : M A) (f : A → M B) :
  returns m → (∀ a, returns (f a)) → returns (m ≫= f).
Proof.
  intros Hm Hf st. destruct (Hm st) as (a & st1 & Hmst).
  rewrite (bind_inr _ _ _ _ _ Hmst). apply Hf.
Qed.

Lemma returns_ret {A : Type} (a : A) : returns (mret a).
Proof. intros st. by exists a, st. Qed.

Lemma returns_try {A : Type} (m : M A) (h : exn → M A) :
  (∀ e, returns (h e)) → returns (try_except m h).
Proof.
  intros Hh st. unfold try_except.
  destruct (m st) as [[e|a] st1]; [apply Hh|by exists a, st1].
Qed.

Section CallFacts.
Context `{Host} `{ReadOnlyTools}.
Variable yolo : bool.

Lemma frame_run_caught name args : frame 1 (run_caught name args).
Proof.
  unfold run_caught. apply (frame_try 1 0); [|intros e; apply quiet_ret].
  destruct args; try (apply (frame_mono 0); [lia | apply quiet_raise]).
  destruct name; [apply frame_ToolRegistry_run|].
  apply (frame_mono 0); [lia | apply quiet_raise].
Qed.

Lemma returns_run_caught name args : returns (run_caught name args).
Proof. unfold run_caught. apply returns_try. intros e. apply returns_ret. Qed.

Lemma frame__execute_tool name args : frame 1 (_execute_tool yolo name args).
Proof.
  unfold _execute_tool. destruct (is_dangerous name && negb yolo);
    [|apply frame_run_caught].
  apply (frame_bind 0 1); [apply quiet_rich_print|]. intros _.
  apply (frame_bind 0 1); [apply quiet_Prompt_ask|]. intros a.
  destruct (negb (String.eqb a "y")); [|apply frame_run_caught].
  apply (frame_mono 0); [lia | apply quiet_ret].
Qed.

(** Whatever the tool does, [_execute_tool] returns a result once it is
    past its print. *)
Lemma returns__execute_tool name args :
  call_renders yolo name args = true → returns (_execute_tool yolo name args).
Proof.
  unfold call_renders, _execute_tool. intros Hprint.
  destruct (is_dangerous name && negb yolo); [|apply returns_run_caught].
  simpl in Hprint. apply bool_decide_eq_true in Hprint.
  apply returns_bind; [intros st; rewrite rich_print_inr by done; by eexists _, _|].
  intros _.
  apply returns_bind; [intros st; by eexists _, _|]. intros a.
  destruct (negb (String.eqb a "y")); [apply returns_ret|apply returns_run_caught].
Qed.


Lemma calm_handle_tool_call tc : calm (handle_tool_call yolo tc).
Proof.
  unfold handle_tool_call. destruct (json_loads (tc_arguments tc)).
  - apply calm_bind; [apply calm_yield|]. intros _.
    apply calm_bind; [apply (frame_calm 1), frame__execute_tool|].
    intros r. apply calm_ret.
  - apply calm_bind; [apply calm_yield|]. intros _. apply calm_ret.
Qed.

(** Every call that can be printed gets a tool message with its id and
    name. *)
Lemma handle_tool_call_returns tc st :
  renders yolo tc = true →
  ∃ content st',
    handle_tool_call yolo tc st =
      (inr (ToolMessage (tc_id tc) (tc_name tc) content), st').
Proof.
  unfold renders, handle_tool_call.
  destruct (json_loads (tc_arguments tc)) as [args|]; intros Hprint.
  - unfold yield. run.
    match goal with
    | |- context [_execute_tool yolo ?n ?a ?s] =>
        destruct (returns__execute_tool n a Hprint s) as (r & st' & ->)
    end.
    by eexists _, _.
  - unfold yield. run. by eexists _, _.
Qed.


(** The loop over the calls: one tool message per call, in order. *)
Lemma for_each_handle_tool_call (cs : list tool_call) st :
  Forall (λ tc, renders yolo tc = true) cs →
  ∃ outs st',
    for_each (handle_tool_call yolo) cs st = (inr outs, st')
    ∧ Forall2 (λ tc out, ∃ content,
                 out = ToolMessage (tc_id tc) (tc_name tc) content) cs outs
    ∧ history st' = history st
    ∧ ∃ l, log st' = log st ++ l ∧ model_calls l = 0%nat.
Proof.
  revert st. induction cs as [|tc cs IH]; intros st Hprint; simpl.
  - exists [], st. run. repeat split; try done. exists []. by rewrite app_nil_r.
  - apply Forall_cons in Hprint as [Htc_print Hprint].
    destruct (handle_tool_call_returns tc st Htc_print) as (content & st1 & Htc).
    destruct (calm_handle_tool_call tc st) as (Hh & l & Hl & Hc).
    rewrite Htc in Hh, Hl. simpl in Hh, Hl.
    destruct (IH st1 Hprint) as (outs & st2 & Hcs & Hall & Hh' & l' & Hl' & Hc').
    run. rewrite Htc, Hcs. eexists _, st2. split; [reflexivity|].
    split; [apply Forall2_cons; split; [by exists content|done]|].
    split; [congruence|]. exists (l ++ l'). rewrite Hl', Hl, <- app_assoc.
    split; [done|]. rewrite model_calls_app. lia.
Qed.

(** Also when a call raises: the history is left alone, and what the
    loop collects when it comes back are the tool messages of the
    calls. *)
Lemma handle_tool_call_inr tc st out st' :
  handle_tool_call yolo tc st = (inr out, st') → answers_call tc out.
Proof.
  unfold handle_tool_call, answers_call.
  destruct (json_loads (tc_arguments tc)) as [args|]; unfold yield; run.
  - destruct (_execute_tool _ _ _ _) as [[e|r] s]; [done|].
    intros [= <- <-]. by eexists.
  - intros [= <- <-]. by eexists.
Qed.

Lemma for_each_handle_tool_call_any (cs : list tool_call) st :
  history (for_each (handle_tool_call yolo) cs st).2 = history st
  ∧ ∀ outs st', for_each (handle_tool_call yolo) cs st = (inr outs, st') →
                Forall2 answers_call cs outs.
Proof.
  revert st. induction cs as [|tc cs IH]; intros st; simpl.
  - split; [done|]. intros outs st' [= <- <-]. constructor.
  - run. destruct (calm_handle_tool_call tc st) as (Hh & _).
    destruct (handle_tool_call yolo tc st) as [[e|out] st1] eqn:Htc; [done|].
    simpl in Hh. destruct (IH st1) as [Hh' Hall].
    destruct (for_each (handle_tool_call yolo) cs st1) as [[e|outs] st2] eqn:Hcs;
      simpl in *; (split; [congruence|]); [done|].
    intros outs' st' [= <- <-]. constructor; [|by apply (Hall outs st2)].
    by apply (handle_tool_call_inr tc st out st1).
Qed.
End CallFacts.

(** ** Streaming: the turn and the loop *)

Section StreamFacts.
Context `{Host} `{ReadOnlyTools} `{Backend}.
Variable yolo : bool.

(** A turn whose stream assembled tool calls: the assistant message with
    the calls is appended, every call is handled, the tool messages are
    appended, and the loop continues. *)
Lemma execute_stream_turn_next st stream c cs :
  generate_stream (history st) = inr stream →
  Forall (λ c, choices c ≠ []) stream →
  merge_tcs [] (stream_fragments stream) = inr (c :: cs) →
  Forall (λ tc, renders yolo tc = true) (c :: cs) →
  ∃ full ys outs st1,
    Forall (λ y, is_text y = true) ys
    ∧ for_each (handle_tool_call yolo) (c :: cs)
        (State (fs st) (history st ++ [AssistantMessage full (Some (c :: cs))])
               (asked st) (log st ++ [ModelCall]) (yielded st ++ ys))
      = (inr outs, st1)
    ∧ execute_stream_turn yolo st =
        (inr NextTurn,
         State (fs st1) (history st1 ++ outs) (asked st1) (log st1) (yielded st1)).
Proof.
  intros Hgen Hch Hm Hprint.
  destruct (process_stream_merges _ "" [] (c :: cs)
              (State (fs st) (history st) (asked st) (log st ++ [ModelCall])
                     (yielded st)) Hch Hm) as (full & ys & Hfold & Hys).
  simpl in Hfold.
  destruct (for_each_handle_tool_call yolo (c :: cs)
              (State (fs st) (history st ++ [AssistantMessage full (Some (c :: cs))])
                     (asked st) (log st ++ [ModelCall]) (yielded st ++ ys)) Hprint)
    as (outs & st1 & Heach & _).
  exists full, ys, outs, st1. split; [done|]. split; [exact Heach|].
  unfold execute_stream_turn.
  rewrite (bind_inr get_history _ st (history st) _ eq_refl), Hgen.
  rewrite (bind_inr (emit ModelCall) _ st tt _ eq_refl).
  rewrite (bind_inr _ _ _ _ _ Hfold).
  unfold after_stream. cbn [snd fst].
  rewrite (bind_inr (history_append _) _ _ tt _ eq_refl).
  rewrite (bind_inr _ _ _ _ _ Heach).
  reflexivity.
Qed.

Lemma execute_stream_loop_S n st :
  execute_stream_loop yolo (S n) st =
  match execute_stream_turn yolo st with
  | (inr NextTurn, st') => execute_stream_loop yolo n st'
  | (inr Stop, st') => (inr tt, st')
  | (inl e, st') => (inl e, st')
  end.
Proof.
  simpl. unfold mbind at 1, M_bind at 1.
  by destruct (execute_stream_turn yolo st) as [[e|[|]] st'].
Qed.

(** What such a turn leaves behind. *)
Lemma execute_stream_turn_effect st stream :
  generate_stream (history st) = inr stream →
  requests_tools stream →
  calls_render yolo →
  ∃ st' l outs out,
    execute_stream_turn yolo st = (inr NextTurn, st')
    ∧ log st' = log st ++ ModelCall :: l
    ∧ model_calls l = 0%nat
    ∧ history st' = history st ++ outs ++ [out]
    ∧ is_tool_message out = true.
Proof.
  intros Hgen (Hch & c & cs & Hm) Hprint.
  specialize (Hprint _ _ _ Hgen Hm).
  destruct (execute_stream_turn_next st stream c cs Hgen Hch Hm Hprint)
    as (full & ys & outs & st1 & _ & Heach & Hturn).
  match type of Heach with
  | for_each _ _ ?s = _ =>
      destruct (for_each_handle_tool_call yolo (c :: cs) s Hprint)
        as (outs' & st1' & Heach' & Hall & Hh & l & Hl & Hc)
  end.
  rewrite Heach in Heach'. injection Heach' as <- <-. simpl in Hh, Hl.
  assert (∃ outs0 out, outs = outs0 ++ [out] ∧ is_tool_message out = true)
    as (outs0 & out & -> & Hout).
  { apply Forall2_length in Hall as Hlen. simpl in Hlen.
    destruct (decide (outs = [])) as [->|Hne]; [done|].
    destruct (exists_last Hne) as (outs0 & out & ->).
    exists outs0, out. split; [done|].
    apply Forall2_app_inv_r in Hall as (cs1 & cs2 & _ & Hlast & _).
    apply Forall2_cons_inv_r in Hlast as (tc & ? & (content & ->) & _ & _).
    done. }
  exists (State (fs st1) (history st1 ++ outs0 ++ [out]) (asked st1) (log st1)
                (yielded st1)), l,
         (AssistantMessage full (Some (c :: cs)) :: outs0), out.
  split; [exact Hturn|]. simpl. rewrite Hh, Hl, <- !app_assoc. by repeat split.
Qed.

(** With a backend that keeps asking for tools the loop runs all its
    turns and then just ends. *)
Lemma execute_stream_loop_exhausted n st :
  keeps_requesting_tools →
  calls_render yolo →
  ∃ st',
    execute_stream_loop yolo n st = (inr tt, st')
    ∧ stream_turns yolo n st st'
    ∧ model_calls (log st') = (model_calls (log st) + n)%nat
    ∧ (n ≠ O → ∃ earlier out,
         history st' = earlier ++ [out] ∧ is_tool_message out = true).
Proof.
  intros Hreq Hprint. revert st. induction n as [|n IH]; intros st.
  - exists st. simpl. repeat split; [constructor | lia | done].
  - destruct (Hreq (history st)) as (stream & Hgen & Hstream).
    destruct (execute_stream_turn_effect st stream Hgen Hstream Hprint)
      as (st1 & l & outs & out & Hturn & Hl & Hc & Hh & Hout).
    destruct (IH st1) as (st' & Hloop & Hturns & Hcalls & Hlast).
    exists st'. rewrite execute_stream_loop_S, Hturn.
    split; [done|]. split; [by apply (stream_turns_S yolo n st st1)|].
    split.
    { rewrite Hcalls, Hl, model_calls_app, model_calls_call. lia. }
    intros _. destruct n as [|n].
    + simpl in Hloop. injection Hloop as <-.
      exists (history st ++ outs), out. by rewrite Hh, app_assoc.
    + by apply Hlast.
Qed.
End StreamFacts.




(** The turn of [execute_stream] on that stream: the second call gets the
    error, the first and the third are run. *)
Example execute_stream_turn_example :
  let st := (@execute_stream_turn (example_host true) example_tools
               (constant_backend summary_reply example_stream) false
               (empty_state ∅)).2 in
  yielded st =
    [YieldText "Looking. ";
     YieldTool (Some "grep") (JObj [("a", JNum 1)]);
     YieldText "Error: Invalid JSON arguments for tool ls: {oops";
     YieldTool (Some "glob") (JObj [])]
  ∧ log st = [ModelCall; ToolRun "grep" [("a", JNum 1)]; ToolRun "glob" []]
  ∧ drop 2 (history st) =
      [ToolMessage (Some "call_b") (Some "ls")
         "Error: Invalid JSON arguments for tool ls: {oops";
       ToolMessage (Some "call_c") (Some "glob")
         (ExampleJson.dumps (JObj [("matches", JArr [])]))].
Proof. vm_compute. by repeat split. Qed.

(** C10.  [execute_stream] has 10 turns where [execute] has 25.  With a
    backend whose every stream ends with a tool call assembled (and
    whose calls can be printed where the agent prints them before it
    asks), the generator runs [max_turns] turns, calling the model once
    in each, and then ends: the state it ends in is the state the last
    turn left, so nothing is yielded and nothing appended for the limit,
    and the last entry of the history is the last tool message. *)
Theorem execute_stream_ends_silently `{Host} `{ReadOnlyTools} `{Backend}
    (yolo : bool) (prompt : string) (max_turns : Z) (st : state) :
  keeps_requesting_tools →
  calls_render yolo →
  default_stream_max_turns = 10
  ∧ default_max_turns = 25
  ∧ ∃ st',
      execute_stream yolo prompt max_turns st = (inr tt, st')
      ∧ stream_turns yolo (Z.to_nat max_turns)
          (State (fs st) (history st ++ [UserMessage prompt]) (asked st) (log st)
                 (yielded st)) st'
      ∧ model_calls (log st') = (model_calls (log st) + Z.to_nat max_turns)%nat
      ∧ (0 < max_turns →
         ∃ earlier out,
           history st' = earlier ++ [out] ∧ is_tool_message out = true).
Proof.
  intros Hreq Hprint. split; [done|]. split; [done|].
  destruct (execute_stream_loop_exhausted yolo (Z.to_nat max_turns)
              (State (fs st) (history st ++ [UserMessage prompt]) (asked st)
                     (log st) (yielded st)) Hreq Hprint)
    as (st' & Hloop & Hturns & Hcalls & Hlast).
  exists st'. split; [|split; [done|split; [done|]]].
  - unfold execute_stream.
    by rewrite (bind_inr (history_append _) _ st tt _ eq_refl).
  - intros Hpos. apply Hlast. lia.
Qed.

Lemma execute_stream_ends_silently_witness :
  @keeps_requesting_tools (constant_backend summary_reply tool_stream)
  ∧ @calls_render (example_host true) (constant_backend summary_reply tool_stream)
      false
  ∧ ∃ st',
      @execute_stream (example_host true) example_tools
        (constant_backend summary_reply tool_stream) false "list everything"
        default_stream_max_turns (empty_state ∅) = (inr tt, st')
      ∧ model_calls (log st') = (model_calls [] + Z.to_nat default_stream_max_turns)%nat
      ∧ (0 < default_stream_max_turns →
         ∃ earlier out,
           history st' = earlier ++ [out] ∧ is_tool_message out = true).
Proof.
  assert (@keeps_requesting_tools (constant_backend summary_reply tool_stream))
    as Hreq.
  { intros h. exists tool_stream. split; [reflexivity|].
    split; [repeat (constructor; [discriminate|]); constructor|].
    eexists _, _. reflexivity. }
  split; [exact Hreq|].
  assert (@calls_render (example_host true)
            (constant_backend summary_reply tool_stream) false) as Hprint.
  { intros h stream calls [= <-] Hm. vm_compute in Hm. injection Hm as <-.
    repeat (constructor; [reflexivity|]). constructor. }
  split; [exact Hprint|].
  destruct (@execute_stream_ends_silently (example_host true) example_tools
              (constant_backend summary_reply tool_stream) false "list everything"
              default_stream_max_turns (empty_state ∅) Hreq Hprint)
    as (_ & _ & st' & Hrun & _ & Hcalls & Hlast).
  exists st'. split; [exact Hrun|]. split; [exact Hcalls|exact Hlast].
Defined.

(** With tool calls that come back, two turns mean two calls of the model
    and then the turn-limit error. *)
Example execute_turn_limit_example :
  let out := @execute (example_host true) example_tools
               (constant_backend
                  (Response (Some (FCall "ls" (Some (JObj [])))) None None) [])
               false "list everything" 2 (empty_state ∅) in
  out.1 = inr (Some turn_limit_error)
  ∧ model_calls (log out.2) = 2%nat.
Proof. vm_compute. by split. Qed.

(** * Further properties *)

(** ** Everything only appends *)

Lemma grows_mono (k k' : nat) {A : Type} (m : M A) :
  (k ≤ k')%nat → grows k m → grows k' m.
Proof.
  intros Hk Hm st. destruct (Hm st) as (hs & ys & l & Hh & Hy & Hl & Hc).
  exists hs, ys, l. repeat split; try done. lia.
Qed.

Lemma grows_same {A : Type} (m : M A) :
  (∀ st, ∃ r f n, m st = (r, State f (history st) n (log st) (yielded st))) →
  grows 0 m.
Proof.
  intros Hm st. destruct (Hm st) as (r & f & n & ->). simpl.
  exists [], [], []. by rewrite !app_nil_r.
Qed.

Lemma grows_frame (k : nat) {A : Type} (m : M A) : frame k m → grows 0 m.
Proof.
  intros Hm st. destruct (Hm st) as (Hh & Hy & l & Hl & Hc & _).
  exists [], [], l. rewrite !app_nil_r. repeat split; try done. lia.
Qed.

Lemma grows_ret {A : Type} (a : A) : grows 0 (mret a).
Proof. apply (grows_frame 0), quiet_ret. Qed.

Lemma grows_raise {A : Type} (e : exn) : grows 0 (@raise A e).
Proof. apply (grows_frame 0), quiet_raise. Qed.

Lemma grows_bind (k1 k2 : nat) {A B : Type} (m : M A) (f : A → M B) :
  grows k1 m → (∀ a, grows k2 (f a)) → grows (k1 + k2) (m ≫= f).
Proof.
  intros Hm Hf st. unfold mbind, M_bind.
  destruct (Hm st) as (hs & ys & l & Hh & Hy & Hl & Hc).
  destruct (m st) as [[e|a] st1]; simpl in *.
  - exists hs, ys, l. repeat split; try done. lia.
  - destruct (Hf a st1) as (hs' & ys' & l' & Hh' & Hy' & Hl' & Hc').
    exists (hs ++ hs'), (ys ++ ys'), (l ++ l').
    rewrite Hh', Hy', Hl', Hh, Hy, Hl, <- !app_assoc, model_calls_app.
    repeat split; try done. lia.
Qed.

Lemma grows_yield (x : item) : grows 0 (yield x).
Proof.
  intros st. exists [], [x], []. simpl. by rewrite !app_nil_r.
Qed.

Lemma grows_history_extend (ts : list turn) : grows 0 (history_extend ts).
Proof.
  intros st. exists ts, [], []. simpl. by rewrite !app_nil_r.
Qed.

Lemma grows_get_history : grows 0 get_history.
Proof.
  apply grows_same. intros st. exists (inr (history st)), (fs st), (asked st).
  by rewrite state_eta.
Qed.

Lemma grows_model_call : grows 1 (emit ModelCall).
Proof.
  intros st. exists [], [], [ModelCall]. simpl. by rewrite !app_nil_r.
Qed.

Lemma grows_for_each {A B : Type} (f : A → M B) (l : list A) :
  (∀ x, grows 0 (f x)) → grows 0 (for_each f l).
Proof.
  intros Hf. induction l as [|x l IH]; simpl; [apply grows_ret|].
  apply (grows_bind 0 0); [apply Hf|]. intros y.
  apply (grows_bind 0 0); [apply IH|]. intros ys. apply grows_ret.
Qed.

Lemma grows_for_fold {A B : Type} (f : A → B → M A) (acc : A) (l : list B) :
  (∀ a x, grows 0 (f a x)) → grows 0 (for_fold f acc l).
Proof.
  intros Hf. revert acc. induction l as [|x l IH]; intros acc; simpl;
    [apply grows_ret|].
  apply (grows_bind 0 0); [apply Hf|]. intros acc'. apply IH.
Qed.

Section Growth.
Context `{Host} `{ReadOnlyTools} `{Backend}.
Variable yolo : bool.

Lemma grows_process_chunk acc c : grows 0 (process_chunk acc c).
Proof.
  unfold process_chunk. destruct (choices c) as [|d ds]; [apply grows_raise|].
  apply (grows_bind 0 0).
  - destruct (d_content d) as [s|]; [|apply grows_ret].
    destruct (String.eqb s ""); [apply grows_ret|].
    apply (grows_bind 0 0); [apply grows_yield|]. intros _. apply grows_ret.
  - intros full. destruct (merge_tcs _ _); [apply grows_raise|apply grows_ret].
Qed.

Lemma grows_handle_tool_call tc : grows 0 (handle_tool_call yolo tc).
Proof.
  unfold handle_tool_call. destruct (json_loads (tc_arguments tc)).
  - apply (grows_bind 0 0); [apply grows_yield|]. intros _.
    apply (grows_bind 0 0); [apply (grows_frame 1), frame__execute_tool|].
    intros r. apply grows_ret.
  - apply (grows_bind 0 0); [apply grows_yield|]. intros _. apply grows_ret.
Qed.

Lemma grows_execute_stream_turn : grows 1 (execute_stream_turn yolo).
Proof.
  unfold execute_stream_turn.
  apply (grows_bind 0 1); [apply grows_get_history|]. intros h.
  destruct (generate_stream h) as [e|stream];
    [apply (grows_mono 0); [lia|apply grows_raise]|].
  apply (grows_bind 1 0); [apply grows_model_call|]. intros _.
  apply (grows_bind 0 0);
    [apply grows_for_fold; intros; apply grows_process_chunk|].
  intros acc. unfold after_stream. destruct (acc.2) as [|c cs].
  - apply (grows_bind 0 0); [apply grows_history_extend|]. intros _.
    apply grows_ret.
  - apply (grows_bind 0 0); [apply grows_history_extend|]. intros _.
    apply (grows_bind 0 0);
      [apply grows_for_each; intros; apply grows_handle_tool_call|].
    intros outs. apply (grows_bind 0 0); [apply grows_history_extend|].
    intros _. apply grows_ret.
Qed.

Lemma grows_execute_stream_loop n : grows n (execute_stream_loop yolo n).
Proof.
  induction n as [|n IH]; simpl; [apply grows_ret|].
  apply (grows_bind 1 n); [apply grows_execute_stream_turn|].
  intros [|]; [exact IH|]. apply (grows_mono 0); [lia|apply grows_ret].
Qed.
End Growth.

(** ** Blocking mode: the budget of calls and the shape of the history *)

Lemma tool_runs_call l : tool_runs (ModelCall :: l) = tool_runs l.
Proof. unfold tool_runs. by rewrite filter_cons_False. Qed.

Section Budget.
Context `{Host} `{ReadOnlyTools} `{Backend}.
Variable yolo : bool.

Lemma execute_turn_budget st :
  ∃ hs l,
    history (execute_turn yolo st).2 = history st ++ hs
    ∧ yielded (execute_turn yolo st).2 = yielded st
    ∧ log (execute_turn yolo st).2 = log st ++ ModelCall :: l
    ∧ model_calls l = 0%nat ∧ (tool_runs l ≤ 1)%nat.
Proof.
  destruct (generate (history st)) as [e|r] eqn:Hg.
  - exists [], []. unfold execute_turn, llm_generate, emit, get_history. run.
    rewrite Hg. simpl. rewrite app_nil_r. repeat split; try done.
    unfold tool_runs. simpl. lia.
  - destruct (function_call r) as [fc|] eqn:Hfc.
    + destruct (execute_turn_call yolo st r fc Hg Hfc)
        as (out & st' & l & -> & Hl & Hc & Ht & Hy & Hout).
      simpl. destruct out as [e|c].
      * by exists [ModelParts r], l.
      * destruct Hout as (_ & res & Hh).
        by exists [ModelParts r; FunctionParts (fc_name fc) res], l.
    + rewrite (execute_turn_inr yolo st r Hg).
      unfold handle_response. rewrite Hfc.
      destruct (text r) as [t|]; run.
      * exists [ModelParts (Response None (Some t) None)], [].
        repeat split; try done. unfold tool_runs. simpl. lia.
      * exists [], []. rewrite app_nil_r.
        repeat split; try done. unfold tool_runs. simpl. lia.
Qed.

Lemma execute_loop_budget n st :
  ∃ hs l,
    history (execute_loop yolo n st).2 = history st ++ hs
    ∧ yielded (execute_loop yolo n st).2 = yielded st
    ∧ log (execute_loop yolo n st).2 = log st ++ l
    ∧ (model_calls l ≤ n)%nat ∧ (tool_runs l ≤ model_calls l)%nat.
Proof.
  revert st. induction n as [|n IH]; intros st.
  - exists [], []. simpl. rewrite !app_nil_r. repeat split; try done.
  - rewrite execute_loop_S.
    destruct (execute_turn_budget st) as (hs & l & Hh & Hy & Hl & Hc & Ht).
    assert (model_calls (ModelCall :: l) = 1%nat) as Hone
      by (rewrite model_calls_call; lia).
    assert (tool_runs (ModelCall :: l) ≤ 1)%nat as Hrun
      by (by rewrite tool_runs_call).
    destruct (execute_turn yolo st) as [[e|[|v]] st1]; simpl in *.
    + exists hs, (ModelCall :: l). repeat split; try done; lia.
    + destruct (IH st1) as (hs' & l' & Hh' & Hy' & Hl' & Hc' & Ht').
      exists (hs ++ hs'), ((ModelCall :: l) ++ l').
      rewrite Hh', Hy', Hl', Hh, Hy, Hl, !app_assoc.
      rewrite model_calls_app, tool_runs_app.
      repeat split; try done; lia.
    + exists hs, (ModelCall :: l). repeat split; try done; lia.
Qed.

Lemma execute_loop_shape n st :
  ∃ pairs rest,
    history (execute_loop yolo n st).2 = history st ++ pairs ++ rest
    ∧ answered pairs
    ∧ match (execute_loop yolo n st).1 with
      | inr v => rest = [] ∨ rest = [ModelParts (Response None (Some v) None)]
      | inl _ =>
          rest = [] ∨ ∃ r fc, function_call r = Some fc ∧ rest = [ModelParts r]
      end.
Proof.
  revert st. induction n as [|n IH]; intros st.
  - exists [], []. simpl. rewrite app_nil_r.
    repeat split; [constructor | by left].
  - rewrite execute_loop_S.
    destruct (generate (history st)) as [e|r] eqn:Hg.
    { exists [], []. unfold execute_turn, llm_generate, emit, get_history. run.
      rewrite Hg. simpl. rewrite app_nil_r.
      repeat split; [constructor | by left]. }
    destruct (function_call r) as [fc|] eqn:Hfc.
    + destruct (execute_turn_call yolo st r fc Hg Hfc)
        as (out & st1 & l & -> & _ & _ & _ & _ & Hout).
      destruct out as [e|c].
      * exists [], [ModelParts r]. simpl.
        repeat split; [done | constructor | right; by exists r, fc].
      * destruct Hout as (-> & res & Hh).
        destruct (IH st1) as (pairs & rest & Hh' & Hp & Hrest).
        exists (ModelParts r :: FunctionParts (fc_name fc) res :: pairs), rest.
        rewrite Hh', Hh, <- app_assoc. simpl.
        repeat split; [by constructor | exact Hrest].
    + rewrite (execute_turn_inr yolo st r Hg).
      unfold handle_response. rewrite Hfc.
      destruct (text r) as [t|]; run.
      * exists [], [ModelParts (Response None (Some t) None)]. simpl.
        repeat split; [constructor | by right].
      * exists [], []. simpl. rewrite app_nil_r.
        repeat split; [constructor | by left].
Qed.
End Budget.

(** X1.  [execute] only appends to the history, the prompt first; it
    yields nothing; it calls the model at most [max_turns] times (not at
    all when [max_turns] is zero or negative) and runs no more tools than
    it has called the model, whatever the backend answers and whether it
    returns or raises. *)
Theorem execute_stays_within_budget `{Host} `{ReadOnlyTools} `{Backend}
    (yolo : bool) (prompt : string) (max_turns : Z) (st : state) :
  ∃ hs l,
    history (execute yolo prompt max_turns st).2
      = history st ++ UserParts prompt :: hs
    ∧ yielded (execute yolo prompt max_turns st).2 = yielded st
    ∧ log (execute yolo prompt max_turns st).2 = log st ++ l
    ∧ (model_calls l ≤ Z.to_nat max_turns)%nat
    ∧ (tool_runs l ≤ model_calls l)%nat.
Proof.
  unfold execute.
  rewrite (bind_inr (history_append _) _ st tt _ eq_refl).
  match goal with
  | |- context [execute_loop yolo ?n ?s] =>
      destruct (execute_loop_budget yolo n s) as (hs & l & Hh & Hy & Hl & Hc & Ht)
  end.
  exists hs, l. rewrite Hh, Hy, Hl. simpl. rewrite <- app_assoc.
  by repeat split.
Qed.

(** X2.  What [execute] leaves in the history after the prompt: tool
    calls of the model, each followed by the result under the name of
    the tool called, and then at most one more turn.  When [execute]
    returns, that turn is the returned text as the model's turn, or there
    is none (the reply was invalid or the turns ran out); when it
    raises, that turn is a tool call left without a result, or there is
    none (the backend raised). *)
Theorem execute_pairs_calls_with_results `{Host} `{ReadOnlyTools} `{Backend}
    (yolo : bool) (prompt : string) (max_turns : Z) (st : state) :
  ∃ pairs rest,
    history (execute yolo prompt max_turns st).2
      = history st ++ UserParts prompt :: pairs ++ rest
    ∧ answered pairs
    ∧ match (execute yolo prompt max_turns st).1 with
      | inr v => rest = [] ∨ rest = [ModelParts (Response None (Some v) None)]
      | inl _ =>
          rest = [] ∨ ∃ r fc, function_call r = Some fc ∧ rest = [ModelParts r]
      end.
Proof.
  unfold execute.
  rewrite (bind_inr (history_append _) _ st tt _ eq_refl).
  match goal with
  | |- context [execute_loop yolo ?n ?s] =>
      destruct (execute_loop_shape yolo n s) as (pairs & rest & Hh & Hp & Hrest)
  end.
  exists pairs, rest. rewrite Hh. simpl. rewrite <- app_assoc.
  by repeat split.
Qed.

(** X3.  A reply with neither a tool call nor text, such as the
    [{"error": ...}] of the Groq endpoint, ends [execute] at once: the
    value returned is the message that quotes the reply; the model was
    called once, no tool was run, nothing was asked, and only the prompt
    was appended to the history. *)
Theorem invalid_reply_ends_execute `{Host} `{ReadOnlyTools} `{Backend}
    (yolo : bool) (prompt : string) (max_turns : Z) (st : state)
    (r : llm_response) :
  0 < max_turns →
  generate (history st ++ [UserParts prompt]) = inr r →
  function_call r = None →
  text r = None →
  execute yolo prompt max_turns st =
    (inr (Some ("Error: Invalid response from LLM: " +:+ repr_response r)),
     State (fs st) (history st ++ [UserParts prompt]) (asked st)
           (log st ++ [ModelCall]) (yielded st)).
Proof.
  intros Hpos Hg Hfc Htext. unfold execute, history_append, history_extend.
  destruct (Z.to_nat max_turns) as [|n] eqn:Hn; [lia|].
  unfold mbind at 1, M_bind at 1. rewrite execute_loop_S.
  rewrite (execute_turn_inr _ _ r) by exact Hg.
  unfold handle_response. by rewrite Hfc, Htext.
Qed.

Lemma invalid_reply_ends_execute_witness :
  0 < default_max_turns
  ∧ @execute (example_host true) example_tools
      (constant_backend (Response None None (Some "rate limit")) [])
      true "hello" default_max_turns (empty_state ∅)
    = (inr (Some "Error: Invalid response from LLM: {...}"),
       State ∅ [UserParts "hello"] 0 [ModelCall] []).
Proof.
  split; [reflexivity|].
  apply (@invalid_reply_ends_execute (example_host true) example_tools
           (constant_backend (Response None None (Some "rate limit")) [])
           true "hello" default_max_turns (empty_state ∅)
           (Response None None (Some "rate limit"))); reflexivity.
Defined.

(** ** Streaming mode: text replies, answered calls, growth *)

Section StreamMore.
Context `{Host} `{ReadOnlyTools} `{Backend}.
Variable yolo : bool.

(** The loop over the chunks, when it goes through: the text is yielded
    fragment by fragment and gathered. *)
Lemma process_stream_texts (stream : list chunk) (full : string)
    (tcs tcs' : list tool_call) (st : state) :
  Forall (λ c, choices c ≠ []) stream →
  merge_tcs tcs (stream_fragments stream) = inr tcs' →
  for_fold process_chunk (full, tcs) stream st =
    (inr (full +:+ join_texts (stream_texts stream), tcs'),
     State (fs st) (history st) (asked st) (log st)
           (yielded st ++ map YieldText (stream_texts stream))).
Proof.
  revert full tcs st. induction stream as [|c stream IH]; intros full tcs st Hch Hm.
  - simpl in Hm. injection Hm as <-. simpl.
    by rewrite append_nil_r, app_nil_r, state_eta.
  - apply Forall_cons in Hch as [Hc Hch]. unfold stream_fragments in Hm.
    simpl in Hm. fold (stream_fragments stream) in Hm.
    unfold stream_texts. cbn [omap list_omap]. fold (stream_texts stream).
    unfold chunk_text at 1 2.
    destruct (choices c) as [|d ds] eqn:Hd; [done|].
    rewrite merge_tcs_app in Hm.
    destruct (merge_tcs tcs (default [] (d_tool_calls d))) as [e|tcs1] eqn:Hm1;
      [done|].
    setoid_rewrite for_fold_cons. unfold process_chunk at 1. rewrite Hd. simpl.
    destruct (d_content d) as [s|]; [destruct (String.eqb s "")|];
      unfold yield; run; rewrite Hm1; simpl.
    + apply (IH _ _ st Hch Hm).
    + rewrite (IH (full +:+ s) tcs1 _ Hch Hm). simpl.
      by rewrite <- app_assoc, append_assoc_string.
    + apply (IH _ _ st Hch Hm).
Qed.

(** The loop over the chunks, whatever the stream: it yields text and
    touches nothing else, also when it raises. *)
Lemma process_stream_any (stream : list chunk) (acc : string * list tool_call)
    (st : state) :
  ∃ r ys,
    for_fold process_chunk acc stream st =
      (r, State (fs st) (history st) (asked st) (log st) (yielded st ++ ys))
    ∧ Forall (λ y, is_text y = true) ys.
Proof.
  revert acc st. induction stream as [|c stream IH]; intros acc st.
  - exists (inr acc), []. simpl. by rewrite app_nil_r, state_eta.
  - setoid_rewrite for_fold_cons. unfold process_chunk at 1.
    destruct (choices c) as [|d ds].
    { exists (inl (IndexError "list index out of range")), [].
      unfold raise. by rewrite app_nil_r, state_eta. }
    destruct (d_content d) as [s|]; [destruct (String.eqb s "")|];
      unfold yield, raise; run;
      destruct (merge_tcs acc.2 (default [] (d_tool_calls d))) as [e|tcs1];
      simpl.
    + exists (inl e), []. by rewrite app_nil_r, state_eta.
    + apply IH.
    + exists (inl e), [YieldText s]. split; [done|]. by constructor.
    + match goal with
      | |- context [for_fold process_chunk ?a stream ?s0] =>
          destruct (IH a s0) as (r & ys & -> & Hys)
      end.
      exists r, (YieldText s :: ys). simpl. rewrite <- app_assoc.
      split; [done|]. by constructor.
    + exists (inl e), []. by rewrite app_nil_r, state_eta.
    + apply IH.
Qed.

(** A turn appends turns in the chat format only. *)
Lemma execute_stream_turn_chat st :
  ∃ hs,
    history (execute_stream_turn yolo st).2 = history st ++ hs
    ∧ Forall (λ t, is_chat_turn t = true) hs.
Proof.
  unfold execute_stream_turn.
  rewrite (bind_inr get_history _ st (history st) _ eq_refl).
  destruct (generate_stream (history st)) as [e|stream].
  { exists []. simpl. by rewrite app_nil_r. }
  rewrite (bind_inr (emit ModelCall) _ st tt _ eq_refl).
  match goal with
  | |- context [(for_fold process_chunk ?a stream ≫= _) ?s0] =>
      destruct (process_stream_any stream a s0) as (r & ys & Hfold & _)
  end.
  destruct r as [e|acc].
  { exists []. unfold mbind, M_bind. rewrite Hfold. simpl.
    by rewrite app_nil_r. }
  rewrite (bind_inr _ _ _ _ _ Hfold). unfold after_stream.
  destruct (acc.2) as [|c cs].
  - exists [AssistantMessage acc.1 None]. run. split; [done|].
    by repeat constructor.
  - rewrite (bind_inr (history_append _) _ _ tt _ eq_refl).
    match goal with
    | |- context [(for_each (handle_tool_call yolo) ?l ≫= _) ?s0] =>
        destruct (for_each_handle_tool_call_any yolo l s0) as [Hh Hall];
        destruct (for_each (handle_tool_call yolo) l s0) as [[e|outs] st1] eqn:Heach
    end.
    { exists [AssistantMessage acc.1 (Some (c :: cs))].
      rewrite (bind_inl _ _ _ _ _ Heach). simpl in *. rewrite Hh.
      split; [done|]. by repeat constructor. }
    rewrite (bind_inr _ _ _ _ _ Heach). run. simpl in Hh.
    exists (AssistantMessage acc.1 (Some (c :: cs)) :: outs).
    rewrite Hh, <- app_assoc. split; [done|].
    constructor; [done|].
    specialize (Hall outs st1 eq_refl).
    clear -Hall. induction Hall as [|tc out l1 l2 (content & ->) _ IH];
      by constructor.
Qed.

Lemma execute_stream_loop_chat n st :
  ∃ hs,
    history (execute_stream_loop yolo n st).2 = history st ++ hs
    ∧ Forall (λ t, is_chat_turn t = true) hs.
Proof.
  revert st. induction n as [|n IH]; intros st.
  - exists []. simpl. by rewrite app_nil_r.
  - rewrite execute_stream_loop_S.
    destruct (execute_stream_turn_chat st) as (hs & Hh & Hhs).
    destruct (execute_stream_turn yolo st) as [[e|[|]] st1]; simpl in *;
      [by exists hs| |by exists hs].
    destruct (IH st1) as (hs' & Hh' & Hhs').
    exists (hs ++ hs'). rewrite Hh', Hh, <- app_assoc. split; [done|].
    by apply Forall_app.
Qed.
End StreamMore.

(** A stream without fragments of tool calls ends [execute_stream]. *)
Lemma execute_stream_text `{Host} `{ReadOnlyTools} `{Backend}
    (yolo : bool) (prompt : string) (max_turns : Z) (st : state)
    (stream : list chunk) :
  0 < max_turns →
  generate_stream (history st ++ [UserMessage prompt]) = inr stream →
  Forall (λ c, choices c ≠ []) stream →
  stream_fragments stream = [] →
  execute_stream yolo prompt max_turns st =
    (inr tt,
     State (fs st)
           (history st ++
              [UserMessage prompt;
               AssistantMessage (join_texts (stream_texts stream)) None])
           (asked st) (log st ++ [ModelCall])
           (yielded st ++ map YieldText (stream_texts stream))).
Proof.
  intros Hpos Hgen Hch Hfr. unfold execute_stream.
  rewrite (bind_inr (history_append _) _ st tt _ eq_refl).
  destruct (Z.to_nat max_turns) as [|n] eqn:Hn; [lia|].
  rewrite execute_stream_loop_S. unfold execute_stream_turn.
  match goal with
  | |- context [(get_history ≫= ?f) ?s0] =>
      rewrite (bind_inr get_history f s0 (history s0) s0 eq_refl)
  end.
  cbn [history]. rewrite Hgen.
  match goal with
  | |- context [(emit ModelCall ≫= ?f) ?s0] =>
      rewrite (bind_inr (emit ModelCall) f s0 tt _ eq_refl)
  end.
  assert (merge_tcs [] (stream_fragments stream) = inr []) as Hm
    by (by rewrite Hfr).
  rewrite (bind_inr _ _ _ _ _ (process_stream_texts stream "" [] [] _ Hch Hm)).
  unfold after_stream. cbn [snd fst]. run.
  by rewrite append_Empty, <- app_assoc.
Qed.


(** X4.  A stream that carries text and no fragment of a tool call ends
    [execute_stream]: every non-empty piece of text is yielded as it
    arrives, in order, and nothing else is; the assistant message
    appended after the prompt holds the pieces put together and has no
    tool calls; the model was called once, no tool was run and nothing
    was asked. *)
Theorem execute_stream_text_reply `{Host} `{ReadOnlyTools} `{Backend}
    (yolo : bool) (prompt : string) (max_turns : Z) (st : state)
    (stream : list chunk) :
  0 < max_turns →
  generate_stream (history st ++ [UserMessage prompt]) = inr stream →
  Forall (λ c, choices c ≠ []) stream →
  stream_fragments stream = [] →
  execute_stream yolo prompt max_turns st =
    (inr tt,
     State (fs st)
           (history st ++
              [UserMessage prompt;
               AssistantMessage (join_texts (stream_texts stream)) None])
           (asked st) (log st ++ [ModelCall])
           (yielded st ++ map YieldText (stream_texts stream))).
Proof. apply execute_stream_text. Qed.

Lemma execute_stream_text_reply_witness :
  0 < default_stream_max_turns
  ∧ @execute_stream (example_host true) example_tools
      (constant_backend summary_reply text_stream)
      false "how many tools?" default_stream_max_turns (empty_state ∅)
    = (inr tt,
       State ∅ [UserMessage "how many tools?";
                AssistantMessage "Nine tools." None]
             0 [ModelCall] [YieldText "Nine "; YieldText "tools."]).
Proof.
  split; [reflexivity|].
  apply (@execute_stream_text_reply (example_host true) example_tools
           (constant_backend summary_reply text_stream)
           false "how many tools?" default_stream_max_turns (empty_state ∅)
           text_stream);
    [reflexivity | reflexivity
    | repeat (constructor; [discriminate|]); constructor | reflexivity].
Defined.



(** X6.  [execute_stream] only appends: to the history the prompt and
    then turns in the chat format alone (assistant and tool messages),
    to the output, and to the log; and it calls the model at most
    [max_turns] times.  This holds for every backend and every stream,
    also one that makes the generator raise half-way. *)
Theorem execute_stream_only_appends `{Host} `{ReadOnlyTools} `{Backend}
    (yolo : bool) (prompt : string) (max_turns : Z) (st : state) :
  ∃ hs ys l,
    history (execute_stream yolo prompt max_turns st).2
      = history st ++ UserMessage prompt :: hs
    ∧ Forall (λ t, is_chat_turn t = true) hs
    ∧ yielded (execute_stream yolo prompt max_turns st).2 = yielded st ++ ys
    ∧ log (execute_stream yolo prompt max_turns st).2 = log st ++ l
    ∧ (model_calls l ≤ Z.to_nat max_turns)%nat.
Proof.
  unfold execute_stream.
  rewrite (bind_inr (history_append _) _ st tt _ eq_refl).
  match goal with
  | |- context [execute_stream_loop yolo ?n ?s] =>
      destruct (execute_stream_loop_chat yolo n s) as (hs & Hh & Hhs);
      destruct (grows_execute_stream_loop yolo n s)
        as (_ & ys & l & _ & Hy & Hl & Hc)
  end.
  exists hs, ys, l. rewrite Hh, Hy, Hl. simpl. rewrite <- app_assoc.
  by repeat split.
Qed.

(** X7.  When merging a fragment of a tool call raises: exactly when the
    fragment's index is not below the number of calls begun and either
    it has no [function] part, or its index lies beyond the next free
    position and it carries argument text. *)
Theorem merge_tc_raises_iff (tool_calls : list tool_call) (tc_chunk : tc_delta) :
  (∃ e, merge_tc tool_calls tc_chunk = inl e) ↔
  (length tool_calls ≤ tcd_index tc_chunk)%nat
  ∧ (tcd_function tc_chunk = None
     ∨ (length tool_calls < tcd_index tc_chunk)%nat
       ∧ fragment_arguments tc_chunk ≠ "").
Proof.
  unfold merge_tc, fragment_arguments.
  destruct (decide (length tool_calls ≤ tcd_index tc_chunk)%nat) as [Hle|Hgt].
  - rewrite bool_decide_true by done.
    destruct (tcd_function tc_chunk) as [[n [a|]]|].
    + destruct (String.eqb a "") eqn:Ha.
      * apply String.eqb_eq in Ha as ->. split; [by intros [e ?]|].
        intros [_ [?|[_ ?]]]; done.
      * apply String.eqb_neq in Ha.
        destruct (decide (tcd_index tc_chunk = length tool_calls)) as [Heq|Hne].
        -- rewrite Heq, lookup_app_r, Nat.sub_diag by lia. simpl.
           split; [by intros [e ?]|]. intros [_ [?|[? _]]]; [done|lia].
        -- rewrite lookup_ge_None_2 by (rewrite length_app; simpl; lia).
           split; [|by eexists]. intros _. split; [done|]. right. split; [lia|done].
    + split; [by intros [e ?]|]. intros [_ [?|[_ ?]]]; done.
    + split; [|by eexists]. intros _. split; [done|]. by left.
  - rewrite bool_decide_false by done.
    assert (is_Some (tool_calls !! tcd_index tc_chunk)) as [c Hc]
      by (apply lookup_lt_is_Some; lia).
    split; [|intros [? _]; lia].
    intros [e He]. exfalso.
    destruct (tcd_function tc_chunk) as [[n [a|]]|]; try done.
    rewrite Hc in He. by destruct (String.eqb a "").
Qed.


(** ** [write_file]: what it leaves, what it asks *)

(** A write that succeeded can be read back. *)
Lemma write_success_reads_back `{Host}
    (kw : dict) (s : string) (st st' : state) (res : json) :
  dict_get "path" kw = Some (JStr s) →
  WriteFileTool_run kw st = (inr res, st') →
  is_error res = false →
  ∃ c,
    dict_get "contents" kw = Some (JStr c)
    ∧ os_read getcwd (fs st') (Path s) = inr c
    ∧ is_dir getcwd (fs st') (parent (Path s)) = inr true.
Proof.
  intros Hpath Hrun Herr.
  destruct (WriteFileTool_run_success kw s st res st' Hpath Hrun Herr)
    as (contents & st0 & Hc & Hfs & Htry).
  destruct (WriteFileTool_try_written _ _ _ _ _ Htry Herr)
    as (f1 & a & c & -> & Hmk & Hloc & Hn & Hfs').
  exists c. split; [done|]. rewrite Hfs'. split.
  - unfold os_read. rewrite (locate_insert _ _ _ a a _ Hn Hloc).
    by rewrite node_at_insert_eq by by apply (node_at_not_root f1).
  - apply is_dir_insert_file; [done|]. by apply mkdir_parents_is_dir in Hmk.
Qed.

(** X9.  After a [write_file] that reported success, the contents given
    were a string, reading the same path from the same working directory
    gives exactly that string, and the parent of the path is a
    directory. *)
Theorem written_file_reads_back `{Host}
    (kw : dict) (s : string) (st st' : state) (res : json) :
  dict_get "path" kw = Some (JStr s) →
  WriteFileTool_run kw st = (inr res, st') →
  is_error res = false →
  ∃ c,
    dict_get "contents" kw = Some (JStr c)
    ∧ os_read getcwd (fs st') (Path s) = inr c
    ∧ is_dir getcwd (fs st') (parent (Path s)) = inr true.
Proof. apply write_success_reads_back. Qed.

Lemma written_file_reads_back_witness :
  ∃ c,
    dict_get "contents" example_write = Some (JStr c)
    ∧ os_read (@getcwd (example_host true))
        (fs (@WriteFileTool_run (example_host true) example_write
               (empty_state example_files)).2)
        (Path "out.txt") = inr c
    ∧ is_dir (@getcwd (example_host true))
        (fs (@WriteFileTool_run (example_host true) example_write
               (empty_state example_files)).2)
        (parent (Path "out.txt")) = inr true.
Proof.
  apply (@written_file_reads_back (example_host true) example_write "out.txt"
           (empty_state example_files) _
           (JObj [("success", JBool true); ("path", JStr "out.txt")]));
    reflexivity.
Defined.



(** X11.  [write_file] on an existing regular file, in an existing
    directory, allowed to go ahead (its [yolo] argument set, or the
    question printed and answered "y"), with contents that are not a
    string: the result is an error, and the file is left empty, because
    it is opened for writing before the contents are written. *)
Theorem write_file_bad_contents_empties_file `{Host}
    (kw : dict) (s : string) (contents : json) (st : state) :
  dict_get "path" kw = Some (JStr s) →
  dict_get "contents" kw = Some contents →
  (∀ c, contents ≠ JStr c) →
  is_file getcwd (fs st) (Path s) = inr true →
  is_dir getcwd (fs st) (parent (Path s)) = inr true →
  goes_ahead kw (already_exists (JStr s)) st = true →
  ∃ res st',
    WriteFileTool_run kw st = (inr res, st')
    ∧ is_error res = true
    ∧ os_read getcwd (fs st') (Path s) = inr "".
Proof.
  intros Hpath Hc Hbad Hfile Hdir Hgo.
  unfold WriteFileTool_run, required, to_Path.
  rewrite Hpath, Hc. unfold Path_exists, get_fs. run.
  assert (mkdir_p getcwd (fs st) (parent (Path s)) = inr (fs st)) as Hmk.
  { unfold mkdir_p. simpl. unfold unless_is_dir. rewrite Hdir. unfold os_mkdir.
    unfold is_dir, stat_test, stat in Hdir.
    destruct (locate getcwd (fs st) (parent (Path s))) as [e|b]; [by destruct e|].
    by destruct (node_at (fs st) b) as [[?|]|]. }
  destruct (is_file_inr_true _ _ _ Hfile) as (a & c0 & Hloc & Hnode & _).
  assert (∃ f2, os_write getcwd (fs st) (Path s) "" = inr f2) as [f2 Hw]
    by (unfold os_write; rewrite Hloc, Hnode; by eexists).
  assert (∀ st0, fs st0 = fs st →
            ∃ res,
              WriteFileTool_try (Path s) contents st0 =
                (inr res, State f2 (history st0) (asked st0) (log st0)
                                (yielded st0))
              ∧ is_error res = true) as Htry.
  { intros st0 Hfs.
    unfold WriteFileTool_try, try_except, WriteFileTool_body, get_fs, put_fs,
      os_call. run. rewrite Hfs, Hmk. simpl. rewrite Hw. simpl.
    destruct contents as [| | |c| |]; simpl; try (by eexists).
    by destruct (Hbad c). }
  pose proof (os_write_read _ _ _ _ _ Hw) as Hread.
  assert (path_exists getcwd (fs st) (Path s) = inr true) as ->.
  { unfold path_exists, stat_test, stat. by rewrite Hloc, Hnode. }
  unfold goes_ahead in Hgo. simpl. destruct (kw_yolo kw); simpl in *.
  - destruct (Htry st eq_refl) as (res & -> & Herr). by eexists _, _.
  - apply andb_true_iff in Hgo as [[Hcon Hprint]%andb_true_iff Hans].
    apply negb_true_iff in Hcon. apply bool_decide_eq_true in Hprint.
    rewrite (console_print_rich kw _ Hcon).
    rewrite (rich_print_inr _ st Hprint). simpl. rewrite Hans. simpl.
    match goal with
    | |- context [WriteFileTool_try _ _ ?s0] =>
        destruct (Htry s0 eq_refl) as (res & -> & Herr)
    end.
    by eexists _, _.
Qed.

Lemma write_file_bad_contents_empties_file_witness :
  ∃ res st',
    @WriteFileTool_run (example_host true)
      [("path", JStr "notes.txt"); ("contents", JObj [("a", JNum 1)])]
      (empty_state example_files) = (inr res, st')
    ∧ is_error res = true
    ∧ os_read (@getcwd (example_host true)) (fs st') (Path "notes.txt") = inr "".
Proof.
  apply (@write_file_bad_contents_empties_file (example_host true)
           [("path", JStr "notes.txt"); ("contents", JObj [("a", JNum 1)])]
           "notes.txt" (JObj [("a", JNum 1)]) (empty_state example_files));
    try reflexivity.
  intros c. discriminate.
Defined.

(** ** [edit]: one file at most; [write_file] followed by [edit] *)

(** X12.  Whatever its arguments, and whether it returns or raises,
    [EditTool.run] leaves the files as they were or changes the contents
    of one regular file that was there: it creates nothing, removes
    nothing and touches no directory. *)
Theorem edit_changes_one_file_at_most `{Host} (kw : dict) (st : state) :
  fs (EditTool_run kw st).2 = fs st
  ∨ ∃ a c c',
      fs st !! a = Some (File c)
      ∧ fs (EditTool_run kw st).2 = <[a := File c']> (fs st).
Proof.
  destruct (dict_get "path" kw) as [path|] eqn:Hpath;
    [|left; unfold EditTool_run, required; by rewrite Hpath].
  destruct (dict_get "search_text" kw) as [search|] eqn:Hs;
    [|left; unfold EditTool_run, required; by rewrite Hpath, Hs].
  destruct (dict_get "replace_text" kw) as [r|] eqn:Hr;
    [|left; unfold EditTool_run, required; by rewrite Hpath, Hs, Hr].
  destruct path as [| | |s| |];
    try (left; unfold EditTool_run, required; by rewrite Hpath, Hs, Hr).
  destruct search as [| | |old| |];
    try (left; unfold EditTool_run, required; rewrite Hpath, Hs, Hr;
         unfold Path_is_file, get_fs; run;
         destruct (is_file getcwd (fs st) (Path s)) as [?|[|]]; simpl; try done;
         unfold try_except, EditTool_body, read_text, get_fs; run;
         by destruct (text_of (fs st) (Path s))).
  pose proof (EditTool_run_spec kw s old r st Hpath Hs Hr) as Hspec.
  destruct (is_file getcwd (fs st) (Path s)) as [e|[|]] eqn:Hfile;
    [left; by rewrite Hspec| |left; by rewrite Hspec].
  destruct Hspec as (res & st' & -> & Hcase). simpl.
  destruct (is_file_inr_true _ _ _ Hfile) as (a' & c & Hloc' & Hnode & _).
  destruct (text_of (fs st) (Path s)) as [e|original];
    [left; by destruct Hcase as [_ ->]|].
  destruct (occurs old original); [|left; by destruct Hcase as [_ ->]].
  destruct r as [| | |new| |]; try (left; by destruct Hcase).
  destruct (goes_ahead kw _ st); [|left; by destruct Hcase].
  destruct Hcase as (a & pre & post & Hloc & _ & _ & Hfs & _).
  right. exists a, c, (pre +:+ new +:+ post). split; [|done].
  rewrite Hloc in Hloc'. injection Hloc' as <-.
  by destruct a.
Qed.





(** ** [shell]: failures are results *)



(** ** [read_file]: bounded and read-only *)

Lemma length_substring_0 (n : nat) (s : string) :
  String.length (String.substring 0 n s) = Nat.min n (String.length s).
Proof.
  revert s. induction n as [|n IH]; intros [|a s]; simpl; try done.
  by rewrite IH.
Qed.

Lemma prefix_substring_0 (n : nat) (s : string) :
  String.prefix (String.substring 0 n s) s = true.
Proof.
  revert s. induction n as [|n IH]; intros [|a s]; simpl; try done.
  destruct (ascii_dec a a); [apply IH|done].
Qed.

(** X16.  With a limit [max_bytes] that is not negative, 10000 when the
    argument is not given, what [read_file] returns as contents are the
    first bytes of the file, decoded with [errors="replace"]: the bytes
    decoded are a prefix of the data, of the length of the file or of
    the limit, whichever is smaller; the state is as before. *)
Theorem read_file_returns_bounded_prefix `{Host}
    (kw : dict) (s : string) (limit : Z) (st st' : state) (res : json) :
  dict_get "path" kw = Some (JStr s) →
  default (JNum 10000) (dict_get "max_bytes" kw) = JNum limit →
  0 ≤ limit →
  ReadFileTool_run kw st = (inr res, st') →
  is_error res = false →
  ∃ data d,
    os_read getcwd (fs st) (joinpath WORKSPACE_ROOT (Path s)) = inr data
    ∧ res = JObj [("contents", JStr (decode_replace d))]
    ∧ String.prefix d data = true
    ∧ String.length d = Nat.min (Z.to_nat limit) (String.length data)
    ∧ st' = st.
Proof.
  intros Hpath Hmax Hpos Hrun Herr.
  pose proof (ReadFileTool_run_spec kw s st Hpath) as Hspec. simpl in Hspec.
  rewrite Hrun in Hspec.
  destruct (path_exists getcwd (fs st) _) as [e|[|]]; [done| |];
    injection Hspec as -> ->; [|by rewrite is_error_error_result in Herr].
  destruct (os_read getcwd (fs st) _) as [e|data];
    [by rewrite is_error_error_result in Herr|].
  exists data, (slice_to limit data). split; [done|].
  assert ((ReadFileTool_slice (dict_get "max_bytes" kw) data st).1
          = inr (slice_to limit data)) as ->.
  { unfold ReadFileTool_slice.
    destruct (dict_get "max_bytes" kw) as [v|]; simpl in Hmax.
    - by subst v.
    - by injection Hmax as <-. }
  split; [done|].
  unfold slice_to. rewrite (proj2 (Z.leb_le 0 limit)) by done.
  by rewrite prefix_substring_0, length_substring_0.
Qed.

Lemma read_file_returns_bounded_prefix_witness :
  ∃ data d,
    os_read (@getcwd (example_host true)) (fs (empty_state files_above))
      (joinpath (@WORKSPACE_ROOT (example_host true)) (Path "notes.txt"))
    = inr data
    ∧ JObj [("contents", JStr "hello")]
      = JObj [("contents", JStr (@decode_replace (example_host true) d))]
    ∧ String.prefix d data = true
    ∧ String.length d = Nat.min (Z.to_nat 5) (String.length data)
    ∧ empty_state files_above = empty_state files_above.
Proof.
  apply (@read_file_returns_bounded_prefix (example_host true)
           [("path", JStr "notes.txt"); ("max_bytes", JNum 5)] "notes.txt" 5
           (empty_state files_above) (empty_state files_above)
           (JObj [("contents", JStr "hello")]));
    [reflexivity | reflexivity | lia | vm_compute; reflexivity | reflexivity].
Defined.

Lemma ReadFileTool_run_state `{Host} (kw : dict) (st : state) :
  (ReadFileTool_run kw st).2 = st.
Proof.
  destruct (dict_get "path" kw) as [path|] eqn:Hpath;
    [|unfold ReadFileTool_run, required; by rewrite Hpath].
  destruct path as [| | |s| |];
    try (unfold ReadFileTool_run, required; by rewrite Hpath).
  rewrite (ReadFileTool_run_spec kw s st Hpath). simpl.
  by destruct (path_exists getcwd (fs st) _) as [e|[|]].
Qed.

(** [read_file] is read-only: whatever its arguments, and whether
    it returns or raises, the state after it is the state before it (no
    file changed, nothing asked).  With a string as path it returns a
    result, unless [exists] raises (a name that is too long): then that
    [OSError] leaves the tool. *)
Theorem read_file_changes_nothing `{Host} (kw : dict) (st : state) :
  (ReadFileTool_run kw st).2 = st
  ∧ ∀ s, dict_get "path" kw = Some (JStr s) →
         match path_exists getcwd (fs st) (joinpath WORKSPACE_ROOT (Path s)) with
         | inl e =>
             ReadFileTool_run kw st
             = (inl (OSError e (joinpath WORKSPACE_ROOT (Path s))), st)
         | inr _ => ∃ res, ReadFileTool_run kw st = (inr res, st)
         end.
Proof.
  split; [apply ReadFileTool_run_state|].
  intros s Hpath. rewrite (ReadFileTool_run_spec kw s st Hpath). simpl.
  destruct (path_exists getcwd (fs st) _) as [e|[|]]; [done|by eexists..].
Qed.

(** ** The Groq endpoint: converting the history *)

Lemma prepare_turns_app (h1 h2 : list turn) :
  prepare_turns (h1 ++ h2) =
  match prepare_turns h1 with
  | inl e => inl e
  | inr ms1 =>
      match prepare_turns h2 with
      | inl e => inl e
      | inr ms2 => inr (ms1 ++ ms2)
      end
  end.
Proof.
  induction h1 as [|t h1 IH]; simpl.
  - by destruct (prepare_turns h2).
  - destruct (prepare_turn t) as [e|ms]; [done|]. rewrite IH.
    destruct (prepare_turns h1) as [e|ms1]; [done|].
    destruct (prepare_turns h2) as [e|ms2]; [done|].
    by rewrite app_assoc.
Qed.

Lemma prepare_turns_raises_iff (h : list turn) :
  (∃ e, prepare_turns h = inl e) ↔ Exists (λ t, is_user_parts t = true) h.
Proof.
  induction h as [|t h IH]; simpl.
  - split; [by intros [e ?]|]. by intros ?%Exists_nil.
  - rewrite Exists_cons. destruct t; simpl;
      try (split; [intros _; by left|intros _; by eexists]);
      (destruct (prepare_turns h) as [e|ms];
       [split; [intros _; right; apply IH; by eexists|by eexists]
       |split; [by intros [e ?]|intros [?|Hex]; [done|]];
        apply IH in Hex as [e ?]; done]).
Qed.

Lemma prepare_turns_KeyError (h : list turn) e :
  prepare_turns h = inl e → e = KeyError "content".
Proof.
  induction h as [|t h IH]; simpl; [done|].
  destruct t; simpl; try (by intros [= <-]);
    (destruct (prepare_turns h) as [e'|ms]; [|done]);
    intros [= <-]; by apply IH.
Qed.

Lemma prepare_turns_chat (h : list turn) :
  Forall (λ t, is_chat_turn t = true) h →
  ∃ ms, prepare_turns h = inr ms ∧ Forall2 converts h ms.
Proof.
  induction 1 as [|t h Ht _ (ms & Hms & Hall)]; simpl.
  - exists []. by split.
  - rewrite Hms. destruct t; try done; eexists; (split; [reflexivity|]);
      by constructor.
Qed.

(** X17.  [_prepare_messages] raises exactly when the history holds a
    user turn in the format of [execute], which has no ["content"]; what
    it raises is then [KeyError('content')], whatever the system prompt.
    So a history that [execute] has appended to is never converted
    again. *)
Theorem prepare_messages_raises_iff (h : list turn) (system_prompt : pystr) :
  (_prepare_messages h system_prompt = inl (KeyError "content")
   ↔ Exists (λ t, is_user_parts t = true) h)
  ∧ ∀ e, _prepare_messages h system_prompt = inl e → e = KeyError "content".
Proof.
  assert (∀ e, _prepare_messages h system_prompt = inl e →
               prepare_turns h = inl e) as Hinl.
  { intros e. unfold _prepare_messages.
    destruct (prepare_turns h) as [e'|ms]; [done|].
    destruct system_prompt as [p|]; [|done]. by destruct (String.eqb p ""). }
  split; [split|].
  - intros Hraise. apply prepare_turns_raises_iff. eexists. by apply Hinl.
  - intros [e He]%prepare_turns_raises_iff. unfold _prepare_messages.
    rewrite He. by rewrite (prepare_turns_KeyError h e He).
  - intros e He. by apply (prepare_turns_KeyError h), Hinl.
Qed.

(** X18.  On a history in the chat format, the one [execute_stream]
    keeps, [_prepare_messages] does not raise: it gives the system prompt
    first when there is one that is not empty, and then one message for
    every turn, in the order of the turns, with the turn's content, tool
    calls and tool call id; the name in a tool message is left out. *)
Theorem prepare_messages_converts_chat_history
    (h : list turn) (system_prompt : pystr) :
  Forall (λ t, is_chat_turn t = true) h →
  ∃ ms,
    _prepare_messages h system_prompt = inr (system_messages system_prompt ++ ms)
    ∧ Forall2 converts h ms.
Proof.
  intros (ms & Hms & Hall)%prepare_turns_chat. exists ms. split; [|done].
  unfold _prepare_messages, system_messages. rewrite Hms.
  destruct system_prompt as [p|]; [|done]. by destruct (String.eqb p "").
Qed.

Lemma prepare_messages_converts_chat_history_witness :
  ∃ ms,
    _prepare_messages
      [UserMessage "list the files";
       AssistantMessage "" (Some [ToolCall (Some "call_0") (Some "ls") "{}"]);
       ToolMessage (Some "call_0") (Some "ls") "{}"]
      (Some "You are Dune.")
    = inr (system_messages (Some "You are Dune.") ++ ms)
    ∧ Forall2 converts
        [UserMessage "list the files";
         AssistantMessage "" (Some [ToolCall (Some "call_0") (Some "ls") "{}"]);
         ToolMessage (Some "call_0") (Some "ls") "{}"] ms.
Proof.
  apply prepare_messages_converts_chat_history.
  repeat (constructor; [reflexivity|]). constructor.
Defined.

(** X19.  [execute] over the Groq endpoint, with a turn to spend: it
    raises the [KeyError('content')] of [_prepare_messages] in its first
    turn, whatever the history was and whatever the service would
    answer; the prompt has been appended, no tool was run and nothing was
    asked. *)
Theorem execute_over_groq_raises `{Host} `{ReadOnlyTools}
    (system_prompt : pystr)
    (create : list message → exn + list api_message)
    (create_stream : list message → list chunk)
    (yolo : bool) (prompt : string) (max_turns : Z) (st : state) :
  0 < max_turns →
  @execute _ _ (GroqLLMEndpoint system_prompt create create_stream)
    yolo prompt max_turns st
  = (inl (KeyError "content"),
     State (fs st) (history st ++ [UserParts prompt]) (asked st)
           (log st ++ [ModelCall]) (yielded st)).
Proof. apply execute_groq_raises. Qed.

Lemma execute_over_groq_raises_witness :
  0 < default_max_turns
  ∧ @execute (example_host true) example_tools
      (@GroqLLMEndpoint (example_host true) None (two_calls "{}") (λ _, []))
      true "list the files" default_max_turns (empty_state ∅)
    = (inl (KeyError "content"),
       State ∅ [UserParts "list the files"] 0 [ModelCall] []).
Proof.
  split; [reflexivity|].
  apply (@execute_over_groq_raises (example_host true) example_tools None
           (two_calls "{}") (λ _, []) true "list the files" default_max_turns
           (empty_state ∅)).
  reflexivity.
Defined.

(** X20.  The reply of [GroqLLMEndpoint.generate], once the messages are
    prepared, has exactly one of the keys ["function_call"], ["text"] and
    ["error"], whatever the service did; a function call always comes
    with its arguments; and there is an error exactly when the service
    raised, sent no choice, or sent a first tool call whose argument text
    is not JSON. *)
Theorem groq_reply_has_one_key `{Host} (completion : exn + list api_message) :
  match function_call (groq_reply completion), text (groq_reply completion),
        error (groq_reply completion) with
  | Some fc, None, None => is_Some (fc_args fc)
  | None, Some _, None => True
  | None, None, Some _ =>
      match completion with
      | inl _ | inr [] => True
      | inr (m :: _) =>
          ∃ tc tcs, msg_tool_calls m = Some (tc :: tcs)
                    ∧ json_loads (atc_arguments tc) = None
      end
  | _, _, _ => False
  end.
Proof.
  destruct completion as [e|[|m ms]]; simpl; try done.
  destruct (msg_tool_calls m) as [[|tc tcs]|] eqn:Htc; simpl; try done.
  destruct (json_loads (atc_arguments tc)) eqn:Hargs; simpl; [done|].
  by exists tc, tcs.
Qed.



(** ** The Gemini client: the request and the reply *)

Lemma and_then_inl {A B : Type} (x : exn + A) (f : A → exn + B) e :
  and_then x f = inl e →
  x = inl e ∨ ∃ a, x = inr a ∧ f a = inl e.
Proof. destruct x as [e'|a]; simpl; [intros [= ->]; by left|]. right. by exists a. Qed.

Lemma and_then_inr {A B : Type} (x : exn + A) (f : A → exn + B) b :
  and_then x f = inr b → ∃ a, x = inr a ∧ f a = inr b.
Proof. destruct x as [e'|a]; simpl; [done|]. by exists a. Qed.

Lemma getitem_raises v k e :
  getitem v k = inl e → exn_class e = "KeyError" ∨ exn_class e = "TypeError".
Proof.
  destruct v as [| | | | |o]; simpl; try (intros [= <-]; by right).
  destruct (dict_get k o); [done|]. intros [= <-]. by left.
Qed.

Lemma getitem0_raises v e :
  getitem0 v = inl e →
  exn_class e = "KeyError" ∨ exn_class e = "IndexError"
  ∨ exn_class e = "TypeError".
Proof.
  destruct v as [| | |[|a s]|[|x l]|o]; simpl; try done;
    intros [= <-]; auto.
Qed.

Lemma get_method_raises v k d e :
  get_method v k d = inl e → exn_class e = "AttributeError".
Proof. destruct v; simpl; try done; by intros [= <-]. Qed.

Lemma first_part_raises response_data e :
  first_part response_data = inl e →
  exn_class e = "KeyError" ∨ exn_class e = "IndexError"
  ∨ exn_class e = "TypeError".
Proof.
  unfold first_part.
  repeat (intros [He|(? & _ & He)]%and_then_inl;
          [first [apply getitem_raises in He | apply getitem0_raises in He];
           tauto|];
          revert He).
  intros He%getitem0_raises. tauto.
Qed.

Lemma reply_of_part_raises part e :
  reply_of_part part = inl e →
  exn_class e = "KeyError" ∨ exn_class e = "TypeError"
  ∨ exn_class e = "AttributeError".
Proof.
  unfold reply_of_part.
  intros [He|(fc & _ & He)]%and_then_inl;
    [apply get_method_raises in He; tauto|].
  destruct (truthy fc); [done|].
  apply and_then_inl in He as [He|(? & _ & ?)]; [|done].
  apply getitem_raises in He. tauto.
Qed.

(** X22.  How [generate_content] reads the answer of the service.  When
    it returns, the part it looked at is the first part of the first
    candidate and is a dict: a truthy ["functionCall"] there is returned
    as the function call whether or not there is text beside it, and
    only without one is the ["text"] of that part returned.  When it
    raises, [KeyError] and [IndexError] never come out: a missing key or
    an empty list gives the [Exception] that quotes the response, and
    what else is raised is a [TypeError] or an [AttributeError] for a
    value of the wrong type. *)
Theorem gemini_reply_is_read_off_the_first_part
    (repr : json → string) (response_data : json) :
  match generate_content repr response_data with
  | inr reply =>
      ∃ part,
        first_part response_data = inr (JObj part)
        ∧ match dict_get "functionCall" part with
          | Some function_call =>
              if truthy function_call
              then reply = JObj [("function_call", function_call)]
              else ∃ t, dict_get "text" part = Some t
                        ∧ reply = JObj [("text", t)]
          | None => ∃ t, dict_get "text" part = Some t ∧ reply = JObj [("text", t)]
          end
  | inl e =>
      e = Exn "Exception"
            ("Failed to parse response from Gemini: " +:+ repr response_data)
      ∨ exn_class e = "TypeError" ∨ exn_class e = "AttributeError"
  end.
Proof.
  unfold generate_content.
  destruct (and_then (first_part response_data) reply_of_part) as [e|reply] eqn:Hr.
  - destruct (catches ["KeyError"; "IndexError"] e) eqn:Hc; [by left|].
    right. unfold catches in Hc. apply bool_decide_eq_false in Hc.
    rewrite !elem_of_cons, elem_of_nil in Hc.
    apply and_then_inl in Hr as [He|(part & _ & He)].
    + apply first_part_raises in He. tauto.
    + apply reply_of_part_raises in He. tauto.
  - apply and_then_inr in Hr as (part & Hpart & Hreply).
    unfold reply_of_part in Hreply.
    apply and_then_inr in Hreply as (fc & Hfc & Hreply).
    destruct part as [| | | | |part]; try done. exists part. split; [done|].
    simpl in Hfc. injection Hfc as <-.
    destruct (dict_get "functionCall" part) as [fc|]; simpl in *.
    + destruct (truthy fc); [by injection Hreply as <-|].
      apply and_then_inr in Hreply as (t & Ht & [= <-]).
      destruct (dict_get "text" part) as [t'|]; [|done].
      injection Ht as ->. by exists t.
    + apply and_then_inr in Hreply as (t & Ht & [= <-]).
      destruct (dict_get "text" part) as [t'|]; [|done].
      injection Ht as ->. by exists t.
Qed.

(** ** The cache of the project id *)

Lemma walk_app (f : filesystem) (cur ps qs : list string) :
  walk f cur (ps ++ qs) =
  match walk f cur ps with
  | inr b => walk f b qs
  | inl e => inl e
  end.
Proof.
  revert cur. induction ps as [|c ps IH]; intros cur; simpl; [done|].
  destruct (node_at f cur) as [[?|]|]; try done.
  destruct (String.eqb c ".."); [done|].
  by destruct (String.length c <=? NAME_MAX)%nat.
Qed.

Lemma os_write_ok (wd : list string) (f : filesystem) (p : pypath)
    (a : list string) c :
  locate wd f p = inr a →
  node_at f a ≠ Some Dir →
  os_write wd f p c = inr (<[a := File c]> f).
Proof.
  intros Hloc Hn. unfold os_write. rewrite Hloc.
  by destruct (node_at f a) as [[?|]|].
Qed.

Section CacheFacts.
Context `{Host}.
Variable home : list string.

Lemma cache_path_location (f : filesystem) :
  is_dir getcwd f (CREDENTIALS_DIR home) = inr true →
  (String.length (path_str (PROJECT_ID_CACHE_PATH home)) < PATH_MAX)%nat →
  ∃ b, locate getcwd f (PROJECT_ID_CACHE_PATH home) = inr (b ++ ["project_id.json"]).
Proof.
  intros Hdir Hlen. unfold is_dir, stat_test, stat, locate in *.
  destruct (PATH_MAX <=? String.length (path_str (PROJECT_ID_CACHE_PATH home)))%nat
    eqn:Hmax; [apply Nat.leb_le in Hmax; lia|].
  destruct (PATH_MAX <=? String.length (path_str (CREDENTIALS_DIR home)))%nat;
    [done|].
  revert Hdir. unfold PROJECT_ID_CACHE_PATH, CREDENTIALS_DIR, joinpath.
  change (Path "project_id.json") with (PyPath false ["project_id.json"]).
  change (Path ".config") with (PyPath false [".config"]).
  change (Path "mycli") with (PyPath false ["mycli"]).
  cbn [anchored parts]. intros Hdir. rewrite walk_app.
  destruct (walk f [] ((home ++ [".config"]) ++ ["mycli"])) as [e|b];
    [by destruct e|].
  exists b. simpl. by destruct (node_at f b) as [[?|]|].
Qed.

Lemma load_cached_text (st : state) (bytes : string) :
  os_read getcwd (fs st) (PROJECT_ID_CACHE_PATH home) = inr bytes →
  _load_cached_project_id home st =
    match decoded bytes with
    | inl e =>
        if catches ["JSONDecodeError"; "FileNotFoundError"; "KeyError"] e
        then (inr JNull, st) else (inl e, st)
    | inr text =>
        match json_loads text with
        | None => (inr JNull, st)
        | Some data =>
            match get_method data "project_id" JNull with
            | inr v => (inr v, st)
            | inl e => (inl e, st)
            end
        end
    end.
Proof.
  intros Hread.
  unfold _load_cached_project_id, try_except_of, Path_exists, read_text, get_fs.
  run. unfold path_exists. rewrite (stat_test_os_read _ _ _ _ _ Hread). simpl.
  unfold text_of. rewrite Hread.
  destruct (decoded bytes) as [e|text]; simpl; [done|].
  destruct (json_loads text) as [data|]; simpl; [|done].
  destruct (get_method data "project_id" JNull) as [e|v] eqn:Hget; simpl; [|done].
  unfold catches. by rewrite (get_method_raises _ _ _ _ Hget).
Qed.
End CacheFacts.

(** X23.  The project id is cached and found again.  When the directory
    of the cache can be made, the cache path is short enough and is not
    a directory, and the text [json.dumps] gives for the cached object
    is read back as it is from a file and given back by [json.loads] as
    the object, then [_save_project_id] followed by
    [_load_cached_project_id] returns the id that was saved, and loading
    changes nothing. *)
Theorem saved_project_id_is_loaded `{Host} (home : list string)
    (project_id : json) (st : state) (f1 : filesystem) :
  mkdir_p getcwd (fs st) (CREDENTIALS_DIR home) = inr f1 →
  (String.length (path_str (PROJECT_ID_CACHE_PATH home)) < PATH_MAX)%nat →
  is_dir getcwd f1 (PROJECT_ID_CACHE_PATH home) = inr false →
  decoded (json_dumps (JObj [("project_id", project_id)]))
    = inr (json_dumps (JObj [("project_id", project_id)])) →
  json_loads (json_dumps (JObj [("project_id", project_id)]))
    = Some (JObj [("project_id", project_id)]) →
  ∃ st1,
    _save_project_id home project_id st = (inr tt, st1)
    ∧ _load_cached_project_id home st1 = (inr project_id, st1).
Proof.
  intros Hmk Hlen Hnd Hdecode Hjson.
  pose proof (mkdir_parents_is_dir _ _ _ _ _ Hmk) as Hdir.
  destruct (cache_path_location home f1 Hdir Hlen) as (b & Hloc).
  set (a := b ++ ["project_id.json"]) in *.
  assert (node_at f1 a ≠ Some Dir) as Hn.
  { unfold is_dir, stat_test, stat in Hnd. rewrite Hloc in Hnd.
    by destruct (node_at f1 a) as [[?|]|]. }
  assert (a ≠ []) as Ha by (by apply (node_at_not_root f1)).
  set (text := json_dumps (JObj [("project_id", project_id)])) in *.
  pose proof (os_write_ok _ _ _ a "" Hloc Hn) as Hw1.
  assert (node_at (<[a := File ""]> f1) a ≠ Some Dir) as Hn2
    by (by rewrite node_at_insert_eq).
  pose proof (os_write_ok _ _ _ a text (locate_insert _ _ _ a a _ Hn Hloc) Hn2)
    as Hw2.
  rewrite insert_insert_eq in Hw2.
  exists (State (<[a := File text]> f1) (history st) (asked st) (log st) (yielded st)).
  split.
  - unfold _save_project_id, try_except, get_fs, put_fs, os_call. run.
    rewrite Hmk. simpl. rewrite Hw1. simpl. fold text. rewrite Hw2. done.
  - rewrite (load_cached_text home _ text).
    + by rewrite Hdecode, Hjson.
    + simpl. unfold os_read. rewrite (locate_insert _ _ _ a a _ Hn Hloc).
      by rewrite node_at_insert_eq.
Qed.

Lemma saved_project_id_is_loaded_witness :
  ∃ st1,
    @_save_project_id (example_host true) ["home"; "user"] (JStr "dune-1234")
      (empty_state example_files) = (inr tt, st1)
    ∧ @_load_cached_project_id (example_host true) ["home"; "user"] st1
      = (inr (JStr "dune-1234"), st1).
Proof.
  apply (@saved_project_id_is_loaded (example_host true) ["home"; "user"]
           (JStr "dune-1234") (empty_state example_files) files_with_config);
    try (vm_compute; reflexivity).
  apply Nat.ltb_lt. vm_compute. reflexivity.
Defined.


(** ** [read_many_files] and [grep]: one entry per path *)

Lemma dict_get_set_eq (k : string) (v : json) (d : dict) :
  dict_get k (dict_set k v d) = Some v.
Proof.
  induction d as [|[k' v'] d IH]; simpl; [by rewrite String.eqb_refl|].
  destruct (String.eqb k k') eqn:Hk; simpl; [by rewrite String.eqb_refl|].
  by rewrite Hk.
Qed.

Lemma dict_get_set_ne (k k' : string) (v : json) (d : dict) :
  k ≠ k' → dict_get k' (dict_set k v d) = dict_get k' d.
Proof.
  intros Hne. induction d as [|[k0 v0] d IH]; simpl.
  - by rewrite (proj2 (String.eqb_neq k' k)).
  - destruct (String.eqb k k0) eqn:Hk; simpl.
    + apply String.eqb_eq in Hk as <-.
      by rewrite (proj2 (String.eqb_neq k' k)).
    + by rewrite IH.
Qed.

Lemma dict_set_keys (k : string) (v : json) (d : dict) :
  (dict_set k v d).*1 = if bool_decide (k ∈ d.*1) then d.*1 else d.*1 ++ [k].
Proof.
  induction d as [|[k0 v0] d IH]; [done|].
  cbn [dict_set]. destruct (String.eqb k k0) eqn:Hk.
  - apply String.eqb_eq in Hk as <-. rewrite !fmap_cons. simpl.
    by rewrite bool_decide_true by left.
  - apply String.eqb_neq in Hk. rewrite !fmap_cons, IH. simpl.
    destruct (decide (k ∈ d.*1)) as [Hin|Hnin].
    + by rewrite !bool_decide_true by (by try right).
    + rewrite !bool_decide_false; [done| |done].
      by intros [?|?]%elem_of_cons.
Qed.

Lemma dict_set_NoDup (k : string) (v : json) (d : dict) :
  NoDup d.*1 → NoDup (dict_set k v d).*1.
Proof.
  intros Hd. rewrite dict_set_keys. case_bool_decide as Hk; [done|].
  apply NoDup_app. split; [done|]. split; [|apply NoDup_singleton].
  intros x Hx ->%list_elem_of_singleton. done.
Qed.

(** A loop that stores one entry per path. *)
Lemma foldl_dict_set (entry : string → json) (paths : list string) (acc : dict) :
  let results := foldl (λ results p, dict_set p (entry p) results) acc paths in
  (NoDup acc.*1 → NoDup results.*1)
  ∧ ∀ p, dict_get p results =
         if bool_decide (p ∈ paths) then Some (entry p) else dict_get p acc.
Proof.
  revert acc. induction paths as [|x paths IH]; intros acc; simpl; [done|].
  destruct (IH (dict_set x (entry x) acc)) as [Hnd Hget]. split.
  - intros Hacc. by apply Hnd, dict_set_NoDup.
  - intros p. rewrite Hget.
    destruct (decide (p ∈ paths)) as [Hin|Hnin].
    + by rewrite !bool_decide_true by (by try right).
    + rewrite (bool_decide_false (p ∈ paths)) by done.
      destruct (decide (p = x)) as [->|Hne].
      * rewrite bool_decide_true by left. apply dict_get_set_eq.
      * rewrite bool_decide_false by (by intros [?|?]%elem_of_cons).
        by apply dict_get_set_ne.
Qed.

(** X25.  [read_many_files] on a list of strings returns a dict with
    one key for every path listed, none twice and no other: under each
    path is the text of that file, or the error of opening or decoding
    that file.  What the entry of a path is does not depend on the other
    paths, so a path that fails takes nothing from the rest. *)
Theorem read_many_files_isolates_paths `{Host}
    (decode : string → exn + string) (paths : list string) (fs : filesystem) :
  ∃ results,
    ReadManyFilesTool_run decode paths fs = JObj results
    ∧ NoDup results.*1
    ∧ ∀ path_str,
        dict_get path_str results =
          if bool_decide (path_str ∈ paths)
          then Some (read_entry decode fs path_str) else None.
Proof.
  unfold ReadManyFilesTool_run. eexists. split; [reflexivity|].
  destruct (foldl_dict_set (read_entry decode fs) paths []) as [Hnd Hget].
  split; [apply Hnd; constructor|exact Hget].
Qed.

Section GrepFacts.
Context `{Host}.
Variable re_search : string → string → bool → exn + bool.
Variable text_lines : string → list string.
Variable strip : string → string.

Lemma grep_lines_compiles (query : string) (case_sensitive : bool)
    (i : nat) (lines : list string) :
  (∀ line, ∃ found, re_search query line case_sensitive = inr found) →
  ∃ matches, grep_lines re_search strip query case_sensitive i lines = inr matches.
Proof.
  intros Hok. revert i. induction lines as [|line lines IH]; intros i; simpl;
    [by eexists|].
  destruct (Hok line) as [found ->]. destruct (IH (S i)) as [matches ->].
  by eexists.
Qed.

Lemma grep_paths_step (query : string) (case_sensitive : bool)
    (fs : filesystem) (p : string) (paths : list string) (acc : dict) (b : bool) :
  (∀ line, ∃ found, re_search query line case_sensitive = inr found) →
  is_file getcwd fs (Path p) = inr b →
  grep_paths re_search text_lines strip query case_sensitive fs (p :: paths) acc
  = grep_paths re_search text_lines strip query case_sensitive fs paths
      (dict_set p (grep_entry re_search text_lines strip query case_sensitive
                     fs p) acc).
Proof.
  intros Hok Hfile. cbn [grep_paths]. unfold grep_entry. rewrite Hfile.
  destruct b.
  - destruct (is_file_inr_true _ _ _ Hfile) as (a & c & _ & _ & ->).
    destruct (grep_lines_compiles query case_sensitive 1 (text_lines c) Hok)
      as [matches ->].
    by destruct matches.
  - destruct (os_read getcwd fs (Path p)) as [e|c] eqn:Hread; [done|].
    by rewrite (is_file_os_read _ _ _ _ Hread) in Hfile.
Qed.

Lemma grep_paths_compiles (query : string) (case_sensitive : bool)
    (fs : filesystem) (paths : list string) (acc : dict) :
  (∀ line, ∃ found, re_search query line case_sensitive = inr found) →
  (∀ p, p ∈ paths → ∃ b, is_file getcwd fs (Path p) = inr b) →
  grep_paths re_search text_lines strip query case_sensitive fs paths acc
  = inr (foldl (λ results p,
                  dict_set p (grep_entry re_search text_lines strip query
                                case_sensitive fs p) results) acc paths).
Proof.
  intros Hok. revert acc. induction paths as [|p paths IH]; intros acc Hstat;
    [done|].
  destruct (Hstat p) as [b Hfile]; [left|].
  rewrite (grep_paths_step _ _ _ _ _ _ _ Hok Hfile). cbn [foldl].
  apply IH. intros q Hq. apply Hstat. by right.
Qed.

Lemma grep_paths_stat_raises (query : string) (case_sensitive : bool)
    (fs : filesystem) (before : list string) (p : string) (after : list string)
    (e : errno) (acc : dict) :
  (∀ line, ∃ found, re_search query line case_sensitive = inr found) →
  (∀ q, q ∈ before → ∃ b, is_file getcwd fs (Path q) = inr b) →
  is_file getcwd fs (Path p) = inl e →
  grep_paths re_search text_lines strip query case_sensitive fs
    (before ++ p :: after) acc
  = inl (OSError e (Path p)).
Proof.
  intros Hok. revert acc. induction before as [|q before IH];
    intros acc Hstat Hp.
  - simpl. by rewrite Hp.
  - destruct (Hstat q) as [b Hfile]; [left|].
    rewrite <- app_comm_cons, (grep_paths_step _ _ _ _ _ _ _ Hok Hfile).
    apply IH; [|done]. intros r Hr. apply Hstat. by right.
Qed.

Lemma grep_lines_raises (query : string) (case_sensitive : bool) (e : exn)
    (i : nat) (lines : list string) :
  (∀ line, re_search query line case_sensitive = inl e) →
  lines ≠ [] →
  grep_lines re_search strip query case_sensitive i lines = inl e.
Proof.
  intros Hbad Hne. destruct lines as [|line lines]; [done|]. simpl.
  by rewrite Hbad.
Qed.

Lemma grep_paths_raises (query : string) (case_sensitive : bool) (e : exn)
    (fs : filesystem) (paths : list string) (acc : dict)
    (path_str bytes : string) :
  (∀ line, re_search query line case_sensitive = inl e) →
  path_str ∈ paths →
  os_read getcwd fs (Path path_str) = inr bytes →
  text_lines bytes ≠ [] →
  let out := grep_paths re_search text_lines strip query case_sensitive fs
               paths acc in
  out = inl e
  ∨ ∃ p e', p ∈ paths ∧ is_file getcwd fs (Path p) = inl e'
            ∧ out = inl (OSError e' (Path p)).
Proof.
  intros Hbad Hin Hread Hlines. revert acc.
  induction paths as [|p paths IH]; intros acc; [by apply elem_of_nil in Hin|].
  assert (p ≠ path_str → path_str ∈ paths) as Hrest.
  { intros Hne. by apply elem_of_cons in Hin as [->|Hin]. }
  assert (∀ acc',
            grep_paths re_search text_lines strip query case_sensitive fs
              (p :: paths) acc
            = grep_paths re_search text_lines strip query case_sensitive fs
                paths acc' →
            p ≠ path_str →
            let out := grep_paths re_search text_lines strip query
                         case_sensitive fs (p :: paths) acc in
            out = inl e
            ∨ ∃ q e', q ∈ p :: paths ∧ is_file getcwd fs (Path q) = inl e'
                      ∧ out = inl (OSError e' (Path q))) as Hgo.
  { intros acc' Heq Hne. cbv zeta. rewrite Heq.
    destruct (IH (Hrest Hne) acc') as [Hl|(q & e' & Hq & Hfile & Hout)];
      [by left|].
    right. exists q, e'. split; [by right|done]. }
  destruct (is_file getcwd fs (Path p)) as [e'|[]] eqn:Hfile.
  - right. exists p, e'. split; [left|]. split; [done|].
    cbn [grep_paths]. by rewrite Hfile.
  - destruct (is_file_inr_true _ _ _ Hfile) as (a & c & _ & _ & Hc).
    destruct (decide (text_lines c = [])) as [Hnil|Hne].
    + eapply Hgo.
      * cbn [grep_paths]. rewrite Hfile, Hc, Hnil. reflexivity.
      * intros ->. congruence.
    + left. cbn [grep_paths]. rewrite Hfile, Hc.
      by rewrite (grep_lines_raises query case_sensitive e 1 _ Hbad Hne).
  - eapply Hgo.
    + cbn [grep_paths]. rewrite Hfile. reflexivity.
    + intros ->. by rewrite (is_file_os_read _ _ _ _ Hread) in Hfile.
Qed.
End GrepFacts.

(** A path of more than [NAME_MAX] characters, which no file system
    call accepts. *)
Lemma is_file_long_name :
  is_file (@getcwd (example_host true)) example_files (Path long_name)
  = inl ENAMETOOLONG.
Proof. vm_compute. reflexivity. Qed.

(** X26.  [grep] with a pattern that compiles, on a list of strings.
    When [is_file] raises for none of the paths, the result has one key
    for every path listed, none twice and no other: under a path that is
    not a regular file is the error saying so, and the search goes on
    with the next path; under a regular file are its matching lines,
    numbered from 1, or "No matches found."; and what is under a path
    does not depend on the other paths.  When [is_file] raises for a
    path, as it does for a name that is too long, the whole result is
    the one error of the first such path, and the entries stored before
    it are dropped. *)
Theorem grep_searches_every_path `{Host}
    (re_search : string → string → bool → exn + bool)
    (text_lines : string → list string) (strip : string → string)
    (query : string) (paths : list string) (case_sensitive : bool)
    (fs : filesystem) :
  (∀ line, ∃ found, re_search query line case_sensitive = inr found) →
  ((∀ p, p ∈ paths → ∃ b, is_file getcwd fs (Path p) = inr b) →
   ∃ results,
     GrepTool_run re_search text_lines strip query paths case_sensitive fs
     = JObj results
     ∧ NoDup results.*1
     ∧ ∀ path_str,
         dict_get path_str results =
           if bool_decide (path_str ∈ paths)
           then Some (grep_entry re_search text_lines strip query case_sensitive
                        fs path_str)
           else None)
  ∧ ∀ before p after e,
      paths = before ++ p :: after →
      (∀ q, q ∈ before → ∃ b, is_file getcwd fs (Path q) = inr b) →
      is_file getcwd fs (Path p) = inl e →
      GrepTool_run re_search text_lines strip query paths case_sensitive fs
      = error_result (exn_str (OSError e (Path p))).
Proof.
  intros Hok. split.
  - intros Hstat. unfold GrepTool_run.
    rewrite (grep_paths_compiles re_search text_lines strip query case_sensitive
               fs paths [] Hok Hstat).
    eexists. split; [reflexivity|].
    destruct (foldl_dict_set
                (grep_entry re_search text_lines strip query case_sensitive fs)
                paths []) as [Hnd Hget].
    split; [apply Hnd; constructor|exact Hget].
  - intros before p after e -> Hstat Hp. unfold GrepTool_run.
    by rewrite (grep_paths_stat_raises re_search text_lines strip query
                  case_sensitive fs before p after e [] Hok Hstat Hp).
Qed.

Lemma grep_searches_every_path_witness :
  (∃ results,
     @GrepTool_run (example_host true) literal_search one_line id
       "world" ["notes.txt"; "missing.txt"] true example_files
     = JObj results
     ∧ NoDup results.*1
     ∧ ∀ path_str,
         dict_get path_str results =
           if bool_decide (path_str ∈ ["notes.txt"; "missing.txt"])
           then Some (@grep_entry (example_host true) literal_search one_line id
                        "world" true example_files path_str)
           else None)
  ∧ @GrepTool_run (example_host true) literal_search one_line id
      "world" ["notes.txt"; long_name; "missing.txt"] true example_files
    = error_result (exn_str (OSError ENAMETOOLONG (Path long_name))).
Proof.
  split.
  - apply (@grep_searches_every_path (example_host true) literal_search one_line
             id "world" ["notes.txt"; "missing.txt"] true example_files).
    + intros line. by eexists.
    + intros p [->|[->|[]%elem_of_nil]%elem_of_cons]%elem_of_cons;
        eexists; vm_compute; reflexivity.
  - apply (@grep_searches_every_path (example_host true) literal_search one_line
             id "world" ["notes.txt"; long_name; "missing.txt"] true
             example_files (λ line, ex_intro _ _ eq_refl))
      with (before := ["notes.txt"]) (after := ["missing.txt"]).
    + reflexivity.
    + intros q ->%list_elem_of_singleton. eexists. vm_compute. reflexivity.
    + exact is_file_long_name.
Defined.

(** X27.  [grep] with a pattern that does not compile: as soon as one of
    the paths listed is a regular file that has a line, the whole result
    is one error.  It is the error of the pattern, unless [is_file]
    raised for a path listed, and then it is that error.  The entries
    already stored are dropped with it, the errors of the paths that are
    not files included. *)
Theorem grep_bad_pattern_drops_every_entry `{Host}
    (re_search : string → string → bool → exn + bool)
    (text_lines : string → list string) (strip : string → string)
    (query : string) (paths : list string) (case_sensitive : bool)
    (fs : filesystem) (e : exn) (path_str bytes : string) :
  (∀ line, re_search query line case_sensitive = inl e) →
  path_str ∈ paths →
  os_read getcwd fs (Path path_str) = inr bytes →
  text_lines bytes ≠ [] →
  let res := GrepTool_run re_search text_lines strip query paths
               case_sensitive fs in
  (res = error_result (exn_str e)
   ∨ ∃ p e', p ∈ paths ∧ is_file getcwd fs (Path p) = inl e'
             ∧ res = error_result (exn_str (OSError e' (Path p))))
  ∧ ((∀ p, p ∈ paths → ∃ b, is_file getcwd fs (Path p) = inr b) →
     res = error_result (exn_str e)).
Proof.
  intros Hbad Hin Hread Hlines res.
  assert (res = error_result (exn_str e)
          ∨ ∃ p e', p ∈ paths ∧ is_file getcwd fs (Path p) = inl e'
                    ∧ res = error_result (exn_str (OSError e' (Path p))))
    as Hres.
  { subst res. unfold GrepTool_run.
    destruct (grep_paths_raises re_search text_lines strip query case_sensitive
                e fs paths [] path_str bytes Hbad Hin Hread Hlines)
      as [->|(p & e' & Hp & Hfile & ->)]; [by left|].
    right. by exists p, e'. }
  split; [exact Hres|]. intros Hstat.
  destruct Hres as [Hres|(p & e' & Hp & Hfile & _)]; [done|].
  destruct (Hstat p Hp) as [b Hb]. congruence.
Qed.

Lemma grep_bad_pattern_drops_every_entry_witness :
  let res := @GrepTool_run (example_host true) bad_pattern one_line id
               "[a-" ["missing.txt"; "notes.txt"] true example_files in
  (res = error_result "unterminated character set at position 0"
   ∨ ∃ p e', p ∈ ["missing.txt"; "notes.txt"]
             ∧ is_file (@getcwd (example_host true)) example_files (Path p)
               = inl e'
             ∧ res = error_result (exn_str (OSError e' (Path p))))
  ∧ ((∀ p, p ∈ ["missing.txt"; "notes.txt"] →
           ∃ b, is_file (@getcwd (example_host true)) example_files (Path p)
                = inr b) →
     res = error_result "unterminated character set at position 0").
Proof.
  apply (@grep_bad_pattern_drops_every_entry (example_host true) bad_pattern
           one_line id "[a-" ["missing.txt"; "notes.txt"] true example_files
           (Exn "error" "unterminated character set at position 0")
           "notes.txt" "hello world hello").
  - done.
  - apply (bool_decide_unpack _). vm_compute. exact I.
  - vm_compute. reflexivity.
  - discriminate.
Defined.

(** ** The Gemini endpoint in [execute_stream] *)

(** X28.  [execute_stream] over the Gemini endpoint, with a turn to
    spend.  [GeminiLLMEndpoint] has no [_prepare_messages], which the
    first turn of [execute_stream] calls: the generator raises
    [AttributeError] for every prompt, before the model is called.  By
    then the prompt has been appended to the history as a user message;
    nothing was yielded, no tool was run, nothing was asked and no file
    was touched. *)
Theorem execute_stream_over_gemini_raises `{Host} `{ReadOnlyTools}
    (gemini_generate : list turn → exn + llm_response)
    (yolo : bool) (prompt : string) (max_turns : Z) (st : state) :
  0 < max_turns →
  @execute_stream _ _ (GeminiLLMEndpoint gemini_generate) yolo prompt max_turns st
  = (inl (AttributeError
            "'GeminiLLMEndpoint' object has no attribute '_prepare_messages'"),
     State (fs st) (history st ++ [UserMessage prompt]) (asked st) (log st)
           (yielded st)).
Proof.
  intros Hpos. unfold execute_stream.
  rewrite (bind_inr (history_append _) _ st tt _ eq_refl).
  destruct (Z.to_nat max_turns) as [|n] eqn:Hn; [lia|].
  by rewrite execute_stream_loop_S.
Qed.

Lemma execute_stream_over_gemini_raises_witness :
  0 < default_stream_max_turns
  ∧ @execute_stream (example_host false) example_tools
      (GeminiLLMEndpoint (λ _, inr summary_reply)) false "hello"
      default_stream_max_turns (empty_state example_files)
    = (inl (AttributeError
              "'GeminiLLMEndpoint' object has no attribute '_prepare_messages'"),
       State example_files [UserMessage "hello"] 0 [] []).
Proof.
  split; [reflexivity|].
  apply (@execute_stream_over_gemini_raises (example_host false) example_tools
           (λ _, inr summary_reply) false "hello"
           default_stream_max_turns (empty_state example_files)).
  reflexivity.
Defined.

(** ** The approval gate over whole runs *)

(** What only reads and prints leaves the state alone. *)
Lemma still_ret {A : Type} (a : A) : still (mret a : M A).
Proof. done. Qed.

Lemma still_raise {A : Type} (e : exn) : still (@raise A e).
Proof. done. Qed.

Lemma still_bind {A B : Type} (m : M A) (f : A → M B) :
  still m → (∀ a, still (f a)) → still (m ≫= f).
Proof.
  intros Hm Hf st. unfold mbind, M_bind. specialize (Hm st).
  destruct (m st) as [[e|a] st1]; simpl in *; subst; [done|apply Hf].
Qed.

Lemma still_try {A : Type} (m : M A) (h : exn → M A) :
  still m → (∀ e, still (h e)) → still (try_except m h).
Proof.
  intros Hm Hh st. unfold try_except. specialize (Hm st).
  destruct (m st) as [[e|a] st1]; simpl in *; subst; [apply Hh|done].
Qed.

Lemma still_lift {A : Type} (r : exn + A) : still (lift r).
Proof. by destruct r. Qed.

Lemma still_rich_print `{Host} text : still (rich_print text).
Proof. intros st. apply rich_print_state. Qed.

Lemma still_read_text `{Host} p : still (read_text p).
Proof.
  unfold read_text. apply still_bind; [by intros []|]. intros f.
  apply still_lift.
Qed.

Lemma still_show_diff `{Host} tool_args : still (show_diff tool_args).
Proof.
  unfold show_diff. apply still_try; [|intros e; apply still_rich_print].
  apply still_bind; [apply still_lift|]. intros path.
  apply still_bind; [apply still_lift|]. intros new_content.
  apply still_bind; [by destruct path|]. intros file_path.
  apply still_bind; [apply still_read_text|]. intros original_content.
  destruct new_content; try apply still_raise. apply still_rich_print.
Qed.

Lemma still_announce `{Host} name args : still (announce name args).
Proof.
  unfold announce. apply still_bind; [|intros _; apply still_rich_print].
  destruct (String.eqb name "edit"); [apply still_show_diff|apply still_ret].
Qed.

(** After a step that leaves the state alone, either the run has ended
    there or the rest runs from the same state. *)
Lemma still_then {A B : Type} (m : M A) (f : A → M B) st :
  still m → ((m ≫= f) st).2 = st ∨ ∃ a, (m ≫= f) st = f a st.
Proof.
  intros Hm. unfold mbind, M_bind. specialize (Hm st).
  destruct (m st) as [[e|a] st1]; simpl in *; subst; [by left|].
  right. by exists a.
Qed.

Lemma tool_runs_none (l : list event) :
  tool_runs l = 0%nat → ∀ name kw, ToolRun name kw ∉ l.
Proof.
  unfold tool_runs. intros Hl name kw Hin.
  assert (ToolRun name kw ∈ filter (λ e, is_tool_run e = true) l) as Hf
    by (by apply list_elem_of_filter).
  destruct (filter (λ e, is_tool_run e = true) l); [|done].
  by apply elem_of_nil in Hf.
Qed.

Lemma gated_none (l : list event) : tool_runs l = 0%nat → gated l.
Proof.
  intros Hl i name kw Hi _.
  by destruct (tool_runs_none l Hl name kw); apply (list_elem_of_lookup_2 _ i).
Qed.

Lemma gated_app (l1 l2 : list event) : gated l1 → gated l2 → gated (l1 ++ l2).
Proof.
  intros H1 H2 i name kw Hi Hd.
  destruct (decide (i < length l1)%nat) as [Hlt|Hge].
  - rewrite lookup_app_l in Hi by done.
    destruct (H1 i name kw Hi Hd) as (j & -> & Hj).
    exists j. split; [done|]. by rewrite lookup_app_l by lia.
  - rewrite lookup_app_r in Hi by lia.
    destruct (H2 _ name kw Hi Hd) as (j & Hij & Hj).
    exists (length l1 + j)%nat. split; [lia|].
    rewrite lookup_app_r by lia. by replace (length l1 + j - length l1)%nat with j by lia.
Qed.

(** A run that follows the question, and a run of a tool that is not
    dangerous. *)
Lemma gated_asked_run (name : string) (kw : dict) (l : list event) :
  tool_runs l = 0%nat →
  gated (Asked "Approve this tool call?" :: ToolRun name kw :: l).
Proof.
  intros Hl. apply (gated_app [_; _] l); [|by apply gated_none].
  intros [|[|i]] name' kw' Hi _; try done. by exists 0%nat.
Qed.

Lemma gated_safe_run (name : string) (kw : dict) (l : list event) :
  name ∉ DANGEROUS_TOOLS → tool_runs l = 0%nat → gated (ToolRun name kw :: l).
Proof.
  intros Hn Hl. apply (gated_app [_] l); [|by apply gated_none].
  intros [|i] name' kw' Hi Hd; [|done]. by injection Hi as <- <-.
Qed.

Lemma harmless_none (l : list event) : tool_runs l = 0%nat → harmless l.
Proof. intros Hl name kw Hin. by destruct (tool_runs_none l Hl name kw). Qed.

Lemma harmless_app (l1 l2 : list event) :
  harmless l1 → harmless l2 → harmless (l1 ++ l2).
Proof. intros H1 H2 name kw [?|?]%elem_of_app; eauto. Qed.

Lemma harmless_safe_run (name : string) (kw : dict) (l : list event) :
  name ∉ DANGEROUS_TOOLS → tool_runs l = 0%nat → harmless (ToolRun name kw :: l).
Proof.
  intros Hn Hl name' kw' [Heq|Hin]%elem_of_cons.
  - by injection Heq as -> ->.
  - by destruct (tool_runs_none l Hl name' kw').
Qed.

Section ToolRuns.
Context `{Host} `{ReadOnlyTools}.

(** A registered tool that is not dangerous leaves the files alone. *)
Lemma safe_tool_keeps_files name t kw st :
  ToolRegistry !! name = Some t →
  name ∉ DANGEROUS_TOOLS →
  fs (t kw st).2 = fs st.
Proof.
  unfold ToolRegistry, register. rewrite !lookup_insert.
  repeat case_decide; intros [= <-] Hnd; subst; try done;
    try (by rewrite ReadFileTool_run_state);
    exfalso; apply Hnd; unfold DANGEROUS_TOOLS;
    rewrite !elem_of_cons; tauto.
Qed.

(** What [ToolRegistry.run] logs: nothing when it raises before the
    tool, else the run and then what the tool logs, which is no run. *)
Lemma ToolRegistry_run_log name kw st :
  (ToolRegistry !! name = None ∧ (ToolRegistry_run name kw st).2 = st)
  ∨ ∃ t l,
      ToolRegistry !! name = Some t
      ∧ log (ToolRegistry_run name kw st).2 = log st ++ ToolRun name kw :: l
      ∧ tool_runs l = 0%nat
      ∧ fs (ToolRegistry_run name kw st).2
        = fs (t kw (State (fs st) (history st) (asked st)
                          (log st ++ [ToolRun name kw]) (yielded st))).2.
Proof.
  unfold ToolRegistry_run. destruct (ToolRegistry !! name) as [t|] eqn:Ht;
    [right|by left].
  rewrite (bind_inr (emit _) _ st tt _ eq_refl).
  match goal with
  | |- context [t kw ?s0] =>
      destruct (quiet_registered name t kw Ht s0) as (_ & _ & l & Hl & _ & Hr)
  end.
  exists t, l. split; [done|]. rewrite Hl. simpl. rewrite <- app_assoc.
  split; [done|]. split; [lia|done].
Qed.
End ToolRuns.

(** What is preserved by every step is preserved by the loops. *)
Section Preserved.
Context `{Host} `{ReadOnlyTools} `{Backend}.
Variable yolo : bool.
Variable R : state → state → Prop.
Hypothesis R_trans : ∀ s1 s2 s3, R s1 s2 → R s2 s3 → R s1 s3.
Hypothesis R_idle :
  ∀ st st' l, fs st' = fs st → log st' = log st ++ l → tool_runs l = 0%nat →
              R st st'.
Hypothesis R_approve : ∀ name args, preserved R (approve_and_run yolo name args).
Hypothesis R_execute_tool : ∀ name args, preserved R (_execute_tool yolo name args).

Lemma preserved_unlogged {A : Type} (m : M A) :
  (∀ st, fs (m st).2 = fs st ∧ log (m st).2 = log st) → preserved R m.
Proof.
  intros Hm st. destruct (Hm st) as [Hf Hl].
  apply (R_idle _ _ []); [done|by rewrite app_nil_r|done].
Qed.

Lemma preserved_still {A : Type} (m : M A) : still m → preserved R m.
Proof.
  intros Hm. apply preserved_unlogged. intros st. by rewrite (Hm st).
Qed.

Lemma preserved_ret {A : Type} (a : A) : preserved R (mret a).
Proof. by apply preserved_unlogged. Qed.

Lemma preserved_raise {A : Type} (e : exn) : preserved R (@raise A e).
Proof. by apply preserved_unlogged. Qed.

Lemma preserved_bind {A B : Type} (m : M A) (f : A → M B) :
  preserved R m → (∀ a, preserved R (f a)) → preserved R (m ≫= f).
Proof.
  intros Hm Hf st. unfold mbind, M_bind. specialize (Hm st).
  destruct (m st) as [[e|a] st1]; simpl in *; [done|].
  apply (R_trans _ st1); [done|apply Hf].
Qed.

Lemma preserved_history_extend ts : preserved R (history_extend ts).
Proof. by apply preserved_unlogged. Qed.

Lemma preserved_yield x : preserved R (yield x).
Proof. by apply preserved_unlogged. Qed.

Lemma preserved_get_history : preserved R get_history.
Proof. by apply preserved_unlogged. Qed.

Lemma preserved_model_call : preserved R (emit ModelCall).
Proof. intros st. by apply (R_idle _ _ [ModelCall]). Qed.

Lemma preserved_for_each {A B : Type} (f : A → M B) (l : list A) :
  (∀ x, preserved R (f x)) → preserved R (for_each f l).
Proof.
  intros Hf. induction l as [|x l IH]; simpl; [apply preserved_ret|].
  apply preserved_bind; [apply Hf|]. intros y.
  apply preserved_bind; [apply IH|]. intros ys. apply preserved_ret.
Qed.

Lemma preserved_for_fold {A B : Type} (f : A → B → M A) (acc : A) (l : list B) :
  (∀ a x, preserved R (f a x)) → preserved R (for_fold f acc l).
Proof.
  intros Hf. revert acc. induction l as [|x l IH]; intros acc; simpl;
    [apply preserved_ret|].
  apply preserved_bind; [apply Hf|]. intros acc'. apply IH.
Qed.

Lemma preserved_execute_turn : preserved R (execute_turn yolo).
Proof.
  unfold execute_turn. apply preserved_bind.
  - unfold llm_generate. apply preserved_bind; [apply preserved_model_call|].
    intros _. apply preserved_bind; [apply preserved_get_history|]. intros h.
    destruct (generate h); [apply preserved_raise|apply preserved_ret].
  - intros r. unfold handle_response.
    destruct (function_call r) as [fc|].
    + apply preserved_bind; [apply preserved_history_extend|]. intros _.
      apply preserved_bind; [apply R_approve|]. intros res.
      apply preserved_bind; [apply preserved_history_extend|]. intros _.
      apply preserved_ret.
    + destruct (text r); [|apply preserved_ret].
      apply preserved_bind; [apply preserved_history_extend|]. intros _.
      apply preserved_ret.
Qed.

Lemma preserved_execute prompt max_turns :
  preserved R (execute yolo prompt max_turns).
Proof.
  unfold execute. apply preserved_bind; [apply preserved_history_extend|].
  intros _. induction (Z.to_nat max_turns) as [|n IH]; simpl;
    [apply preserved_ret|].
  apply preserved_bind; [apply preserved_execute_turn|].
  intros [|v]; [exact IH|apply preserved_ret].
Qed.

Lemma preserved_execute_stream_turn : preserved R (execute_stream_turn yolo).
Proof.
  unfold execute_stream_turn.
  apply preserved_bind; [apply preserved_get_history|]. intros h.
  destruct (generate_stream h) as [e|stream]; [apply preserved_raise|].
  apply preserved_bind; [apply preserved_model_call|]. intros _.
  apply preserved_bind.
  - apply preserved_for_fold. intros acc c. unfold process_chunk.
    destruct (choices c) as [|d ds]; [apply preserved_raise|].
    apply preserved_bind.
    + destruct (d_content d) as [s|]; [|apply preserved_ret].
      destruct (String.eqb s ""); [apply preserved_ret|].
      apply preserved_bind; [apply preserved_yield|]. intros _.
      apply preserved_ret.
    + intros full.
      destruct (merge_tcs _ _); [apply preserved_raise|apply preserved_ret].
  - intros acc. unfold after_stream. destruct (acc.2) as [|c cs].
    + apply preserved_bind; [apply preserved_history_extend|]. intros _.
      apply preserved_ret.
    + apply preserved_bind; [apply preserved_history_extend|]. intros _.
      apply preserved_bind.
      * apply preserved_for_each. intros tc. unfold handle_tool_call.
        destruct (json_loads (tc_arguments tc)).
        -- apply preserved_bind; [apply preserved_yield|]. intros _.
           apply preserved_bind; [apply R_execute_tool|]. intros r.
           apply preserved_ret.
        -- apply preserved_bind; [apply preserved_yield|]. intros _.
           apply preserved_ret.
      * intros outs. apply preserved_bind; [apply preserved_history_extend|].
        intros _. apply preserved_ret.
Qed.

Lemma preserved_execute_stream prompt max_turns :
  preserved R (execute_stream yolo prompt max_turns).
Proof.
  unfold execute_stream. apply preserved_bind; [apply preserved_history_extend|].
  intros _. induction (Z.to_nat max_turns) as [|n IH]; simpl;
    [apply preserved_ret|].
  apply preserved_bind; [apply preserved_execute_stream_turn|].
  intros [|]; [exact IH|apply preserved_ret].
Qed.
End Preserved.

Section Gate.
Context `{Host} `{ReadOnlyTools}.

Lemma asked_first_trans s1 s2 s3 :
  asked_first s1 s2 → asked_first s2 s3 → asked_first s1 s3.
Proof.
  intros (l1 & H1 & G1) (l2 & H2 & G2). exists (l1 ++ l2).
  rewrite H2, H1, <- app_assoc. split; [done|]. by apply gated_app.
Qed.

Lemma asked_first_idle st st' l :
  fs st' = fs st → log st' = log st ++ l → tool_runs l = 0%nat →
  asked_first st st'.
Proof. intros _ Hl Ht. exists l. split; [done|]. by apply gated_none. Qed.

(** The registry after the question of the agent, and without it for a
    tool that is not dangerous. *)
Lemma asked_first_run (name : string) (kw : dict) (st : state) (q : bool) :
  (q = false → name ∉ DANGEROUS_TOOLS) →
  ∃ l,
    log (ToolRegistry_run name kw
           (if q then State (fs st) (history st) (S (asked st))
                           (log st ++ [Asked "Approve this tool call?"])
                           (yielded st)
            else st)).2 = log st ++ l
    ∧ gated l.
Proof.
  intros Hq.
  match goal with
  | |- context [ToolRegistry_run name kw ?s0] =>
      destruct (ToolRegistry_run_log name kw s0)
        as [[_ ->]|(t & l & _ & -> & Hl & _)]
  end.
  - destruct q; simpl.
    + eexists. split; [reflexivity|]. by apply gated_none.
    + exists []. rewrite app_nil_r. split; [done|]. by apply gated_none.
  - destruct q; simpl.
    + rewrite <- app_assoc. eexists. split; [reflexivity|].
      by apply gated_asked_run.
    + eexists. split; [reflexivity|]. apply gated_safe_run; [by apply Hq|done].
Qed.

Lemma asked_first_splat (name : string) (args : json) (st : state) (q : bool) :
  (q = false → name ∉ DANGEROUS_TOOLS) →
  ∃ l,
    log (ToolRegistry_run_splat name args
           (if q then State (fs st) (history st) (S (asked st))
                           (log st ++ [Asked "Approve this tool call?"])
                           (yielded st)
            else st)).2 = log st ++ l
    ∧ gated l.
Proof.
  intros Hq. destruct args as [| | | | |kw];
    try (destruct q; simpl;
         [eexists; split; [reflexivity|]; by apply gated_none
         |exists []; rewrite app_nil_r; split; [done|]; by apply gated_none]).
  by apply asked_first_run.
Qed.

(** The same after a print, which can only end the run. *)
Lemma asked_first_print_splat (text name : string) (args : json) (st : state)
    (q : bool) :
  (q = false → name ∉ DANGEROUS_TOOLS) →
  ∃ l,
    log ((rich_print text;; ToolRegistry_run_splat name args)
           (if q then State (fs st) (history st) (S (asked st))
                           (log st ++ [Asked "Approve this tool call?"])
                           (yielded st)
            else st)).2 = log st ++ l
    ∧ gated l.
Proof.
  intros Hq.
  match goal with
  | |- context [(?m ≫= ?f) ?s0] =>
      destruct (still_then m f s0 (still_rich_print text)) as [->|[[] ->]]
  end; [|by apply asked_first_splat].
  destruct q; simpl.
  - eexists. split; [reflexivity|]. by apply gated_none.
  - exists []. rewrite app_nil_r. split; [done|]. by apply gated_none.
Qed.

Lemma asked_first_approve name args :
  preserved asked_first (approve_and_run false name args).
Proof.
  unfold approve_and_run. rewrite andb_true_r.
  destruct (bool_decide (name ∈ DANGEROUS_TOOLS)) eqn:Hd.
  - apply (preserved_bind asked_first asked_first_trans);
      [apply (preserved_still asked_first asked_first_idle), still_announce|].
    intros _ st.
    rewrite (bind_inr (Prompt_ask _) _ st _ _ eq_refl).
    destruct (answers (asked st)); cbn [String.eqb Ascii.eqb Bool.eqb negb].
    + by apply (asked_first_print_splat _ name args st true).
    + eexists. split; [reflexivity|]. by apply gated_none.
  - apply bool_decide_eq_false in Hd. intros st.
    by apply (asked_first_print_splat _ name args st false).
Qed.

Lemma asked_first_caught (name : pystr) (args : json) (st : state) (q : bool) :
  (q = false → is_dangerous name = false) →
  ∃ l,
    log (run_caught name args
           (if q then State (fs st) (history st) (S (asked st))
                           (log st ++ [Asked "Approve this tool call?"])
                           (yielded st)
            else st)).2 = log st ++ l
    ∧ gated l.
Proof.
  intros Hq.
  set (s0 := if q then _ else st).
  assert (∃ l, log s0 = log st ++ l ∧ gated l) as Hidle.
  { subst s0. destruct q; simpl.
    - eexists. split; [reflexivity|]. by apply gated_none.
    - exists []. rewrite app_nil_r. split; [done|]. by apply gated_none. }
  unfold run_caught, try_except.
  destruct args as [| | | | |kw]; try exact Hidle.
  destruct name as [nm|]; [|exact Hidle].
  destruct (asked_first_run nm kw st q) as (l & Hl & Hg).
  { intros Hf. specialize (Hq Hf). simpl in Hq.
    by apply bool_decide_eq_false in Hq. }
  fold s0 in Hl. destruct (ToolRegistry_run nm kw s0) as [[e|r] s1]; by exists l.
Qed.

Lemma asked_first_execute_tool name args :
  preserved asked_first (_execute_tool false name args).
Proof.
  unfold _execute_tool. rewrite andb_true_r.
  destruct (is_dangerous name) eqn:Hd.
  - apply (preserved_bind asked_first asked_first_trans);
      [apply (preserved_still asked_first asked_first_idle), still_rich_print|].
    intros _ st.
    rewrite (bind_inr (Prompt_ask _) _ st _ _ eq_refl).
    destruct (answers (asked st)); cbn [String.eqb Ascii.eqb Bool.eqb negb].
    + by apply (asked_first_caught name args st true).
    + eexists. split; [reflexivity|]. by apply gated_none.
  - intros st. by apply (asked_first_caught name args st false).
Qed.
End Gate.

(** X29.  The approval gate, over whole runs.  With an agent that is
    not in yolo mode, in the part of the log that [execute] adds, and in
    the part that [execute_stream] adds, every run of [shell],
    [write_file] or [edit] through the registry comes directly after the
    agent's question "Approve this tool call?".  This holds for every
    backend, every user and every number of turns, and also when the run
    ends with an exception. *)
Theorem dangerous_runs_follow_the_question `{Host} `{ReadOnlyTools} `{Backend}
    (prompt : string) (max_turns : Z) (st : state) :
  (∃ l, log (execute false prompt max_turns st).2 = log st ++ l ∧ gated l)
  ∧ (∃ l, log (execute_stream false prompt max_turns st).2 = log st ++ l
          ∧ gated l).
Proof.
  split.
  - apply (preserved_execute false asked_first asked_first_trans
             asked_first_idle asked_first_approve).
  - apply (preserved_execute_stream false asked_first asked_first_trans
             asked_first_idle asked_first_execute_tool).
Qed.

Section Refusal.
Context `{Host} `{ReadOnlyTools}.
Hypothesis refuses : ∀ k, answers k = false.

Lemma untouched_trans s1 s2 s3 :
  untouched s1 s2 → untouched s2 s3 → untouched s1 s3.
Proof.
  intros (F1 & l1 & H1 & G1) (F2 & l2 & H2 & G2). split; [congruence|].
  exists (l1 ++ l2). rewrite H2, H1, <- app_assoc. split; [done|].
  by apply harmless_app.
Qed.

Lemma untouched_idle st st' l :
  fs st' = fs st → log st' = log st ++ l → tool_runs l = 0%nat →
  untouched st st'.
Proof.
  intros Hf Hl Ht. split; [done|]. exists l. split; [done|].
  by apply harmless_none.
Qed.

Lemma untouched_safe_run (name : string) (kw : dict) (st : state) :
  name ∉ DANGEROUS_TOOLS → untouched st (ToolRegistry_run name kw st).2.
Proof.
  intros Hn.
  destruct (ToolRegistry_run_log name kw st)
    as [[_ ->]|(t & l & Ht & Hl & Hr & Hf)].
  - by apply (untouched_idle _ _ []); [|rewrite app_nil_r|].
  - split.
    + rewrite Hf. by rewrite (safe_tool_keeps_files name t kw _ Ht Hn).
    + eexists. split; [exact Hl|]. by apply harmless_safe_run.
Qed.

Lemma untouched_refused {A : Type} (r : A) (m : M A) :
  preserved untouched
    (a ← Prompt_ask "Approve this tool call?";
     if negb (String.eqb a "y") then mret r else m).
Proof.
  intros st. rewrite (bind_inr (Prompt_ask _) _ st _ _ eq_refl).
  rewrite refuses. cbn [String.eqb Ascii.eqb Bool.eqb negb].
  by apply (untouched_idle _ _ [Asked "Approve this tool call?"]).
Qed.

Lemma untouched_approve name args :
  preserved untouched (approve_and_run false name args).
Proof.
  unfold approve_and_run. rewrite andb_true_r.
  destruct (bool_decide (name ∈ DANGEROUS_TOOLS)) eqn:Hd.
  - apply (preserved_bind untouched untouched_trans);
      [apply (preserved_still untouched untouched_idle), still_announce|].
    intros _. apply untouched_refused.
  - apply bool_decide_eq_false in Hd.
    apply (preserved_bind untouched untouched_trans);
      [apply (preserved_still untouched untouched_idle), still_rich_print|].
    intros _ st. unfold ToolRegistry_run_splat.
    destruct args as [| | | | |kw];
      try (by apply (untouched_idle _ _ []); [|simpl; rewrite app_nil_r|]).
    by apply untouched_safe_run.
Qed.

Lemma untouched_execute_tool name args :
  preserved untouched (_execute_tool false name args).
Proof.
  unfold _execute_tool. rewrite andb_true_r.
  destruct (is_dangerous name) eqn:Hd.
  - apply (preserved_bind untouched untouched_trans);
      [apply (preserved_still untouched untouched_idle), still_rich_print|].
    intros _. apply untouched_refused.
  - intros st. unfold run_caught, try_except.
    destruct args as [| | | | |kw];
      try (by apply (untouched_idle _ _ []); [|simpl; rewrite app_nil_r|]).
    destruct name as [nm|];
      [|by apply (untouched_idle _ _ []); [|simpl; rewrite app_nil_r|]].
    simpl in Hd. apply bool_decide_eq_false in Hd.
    pose proof (untouched_safe_run nm kw st Hd) as Hrun.
    by destruct (ToolRegistry_run nm kw st) as [[e|r] s1].
Qed.
End Refusal.

(** X30.  A user who answers "n" to every question, with an agent that
    is not in yolo mode: whatever the backend asks for and however many
    turns are run, [execute] and [execute_stream] leave every file as it
    was, and the part of the log they add holds no run of [shell],
    [write_file] or [edit]. *)
Theorem refusing_user_keeps_files `{Host} `{ReadOnlyTools} `{Backend}
    (prompt : string) (max_turns : Z) (st : state) :
  (∀ k, answers k = false) →
  (fs (execute false prompt max_turns st).2 = fs st
   ∧ ∃ l, log (execute false prompt max_turns st).2 = log st ++ l ∧ harmless l)
  ∧ (fs (execute_stream false prompt max_turns st).2 = fs st
     ∧ ∃ l, log (execute_stream false prompt max_turns st).2 = log st ++ l
            ∧ harmless l).
Proof.
  intros Hno. split.
  - apply (preserved_execute false untouched untouched_trans untouched_idle
             (untouched_approve Hno)).
  - apply (preserved_execute_stream false untouched untouched_trans
             untouched_idle (untouched_execute_tool Hno)).
Qed.

Lemma refusing_user_keeps_files_witness :
  (fs (@execute (example_host false) example_tools
         (constant_backend shell_call tool_stream) false "clean up"
         default_max_turns (empty_state example_files)).2
   = fs (empty_state example_files)
   ∧ ∃ l, log (@execute (example_host false) example_tools
                 (constant_backend shell_call tool_stream) false "clean up"
                 default_max_turns (empty_state example_files)).2
          = log (empty_state example_files) ++ l
          ∧ harmless l)
  ∧ (fs (@execute_stream (example_host false) example_tools
           (constant_backend shell_call tool_stream) false "clean up"
           default_max_turns (empty_state example_files)).2
     = fs (empty_state example_files)
     ∧ ∃ l, log (@execute_stream (example_host false) example_tools
                   (constant_backend shell_call tool_stream) false "clean up"
                   default_max_turns (empty_state example_files)).2
            = log (empty_state example_files) ++ l
            ∧ harmless l).
Proof.
  apply (@refusing_user_keeps_files (example_host false) example_tools
           (constant_backend shell_call tool_stream) "clean up"
           default_max_turns (empty_state example_files)).
  intros k. reflexivity.
Defined.
